(** * PSET v2 output record codec (ts_src/psetv2/output.ts)

    A shallow embedding of [PsetOutput]: the decoder [fromBuffer], the
    encoder [toBuffer]/[getKeyPairs] and the blinding invariant checker
    [sanityCheck], together with the collaborators they call (varuint,
    little-endian integers, the key/value pair wire codec, the proprietary
    envelope).  JavaScript exceptions are values of [Exn] carried by
    [Result]; a [Buffer] is a list of bytes; JavaScript numbers that the
    code uses as integers are [Z]. *)

From Stdlib Require Import String ZArith Bool Lia List.
From Stdlib.Strings Require Import Byte.
Import ListNotations.
Local Open Scope Z_scope.

(** ** Exceptions and results *)

Inductive Exn : Type :=
| ErrEmptyKey
    (* key_pair.ErrEmptyKey, the end-of-record signal *)
| OutputDuplicateFieldError (field : string)
    (* message is 'Duplicated output ' + field *)
| Error (message : string)
    (* new Error(message) *)
| RangeError.
    (* out-of-range reads and values in Buffer and varuint *)

Inductive Result (A : Type) : Type :=
| Ok (a : A)
| Throw (e : Exn).
Arguments Ok {A} a.
Arguments Throw {A} e.

Definition bind {A B} (m : Result A) (k : A -> Result B) : Result B :=
  match m with
  | Ok a => k a
  | Throw e => Throw e
  end.

Declare Scope result_scope.
Delimit Scope result_scope with result.
Notation "x <- m ;; k" := (bind m (fun x => k))
  (at level 61, m at next level, right associativity) : result_scope.
Notation "' p <- m ;; k" := (bind m (fun p => k))
  (at level 61, p pattern, m at next level, right associativity) : result_scope.
Local Open Scope result_scope.

(** Loops are bounded by a fuel argument; [None] means that the bound was
    reached.  [andThen] sequences a step that may throw with the rest of a
    bounded loop. *)
Definition andThen {A B} (m : Result A) (k : A -> option (Result B))
    : option (Result B) :=
  match m with
  | Ok a => k a
  | Throw e => Some (Throw e)
  end.

(** The result of a bounded loop whose bound is known to suffice
    ([decodeTapLeaves_total], [fromBufferLoop_total]). *)
Definition run {A} (m : option (Result A)) : Result A :=
  match m with
  | Some r => r
  | None => Throw RangeError
  end.

Definition isOk {A} (m : Result A) : bool :=
  match m with Ok _ => true | Throw _ => false end.

Fixpoint mapM {A B} (f : A -> Result B) (l : list A) : Result (list B) :=
  match l with
  | [] => Ok []
  | a :: l' => b <- f a ;; bs <- mapM f l' ;; Ok (b :: bs)
  end.

(** ** Buffers *)

Definition Buffer : Type := list byte.

Definition len (b : Buffer) : Z := Z.of_nat (length b).

Definition byteToZ (b : byte) : Z := Z.of_N (Byte.to_N b).

(** A number stored into a byte cell is reduced modulo 256. *)
Definition byteOfZ (z : Z) : byte :=
  match Byte.of_N (Z.to_N (z mod 256)) with
  | Some b => b
  | None => x00
  end.

Definition buffer_eqb (a b : Buffer) : bool :=
  if list_eq_dec Byte.byte_eq_dec a b then true else false.

(** [buf.slice(start, end)] for non-negative indices: both ends are clamped
    to the buffer, nothing is thrown. *)
Definition slice (buf : Buffer) (start end_ : Z) : Buffer :=
  let s := Z.min start (len buf) in
  let e := Z.min end_ (len buf) in
  firstn (Z.to_nat (e - s)) (skipn (Z.to_nat s) buf).

(** [buf.slice(start)] *)
Definition sliceFrom (buf : Buffer) (start : Z) : Buffer :=
  slice buf start (len buf).

(** [buf[i]] where the caller has established that [i] is in range. *)
Definition at_ (buf : Buffer) (i : Z) : byte := nth (Z.to_nat i) buf x00.

(** Little-endian unsigned integers. *)
Fixpoint readUIntLE (bs : Buffer) : Z :=
  match bs with
  | [] => 0
  | b :: r => byteToZ b + 256 * readUIntLE r
  end.

Fixpoint writeUIntLE (n : nat) (z : Z) : Buffer :=
  match n with
  | O => []
  | S n' => byteOfZ z :: writeUIntLE n' (z / 256)
  end.

(** [buf.readUInt8(offset)], [buf.readUInt16LE(offset)],
    [buf.readUInt32LE(offset)]: a read that does not fit throws. *)
Definition readUIntAt (width : Z) (buf : Buffer) (offset : Z) : Result Z :=
  if offset + width <=? len buf
  then Ok (readUIntLE (slice buf offset (offset + width)))
  else Throw RangeError.

Definition readUInt8 := readUIntAt 1.
Definition readUInt16LE := readUIntAt 2.
Definition readUInt32LE := readUIntAt 4.

(** [buf.writeUInt32LE(v)] on a fresh 4-byte buffer. *)
Definition writeUInt32LE (v : Z) : Result Buffer :=
  if (0 <=? v) && (v <=? 4294967295) then Ok (writeUIntLE 4 v)
  else Throw RangeError.

Definition MAX_SAFE_INTEGER : Z := 9007199254740991.

(** Modelled from the spec: bufferutils.ts is not part of the source tree.
    Section 6 fixes the amount on the wire as 8 bytes, little-endian,
    unsigned 64-bit: any eight bytes are read, as two 32-bit halves, and a
    number is written when its halves fit 32 bits each.  Numbers are
    integers here; a JavaScript number holds an amount above 2^53 with 53
    significant bits only, and the eight bytes ff..ff as 2^64. *)
Definition readUInt64LE (buffer : Buffer) (offset : Z) : Result Z :=
  a <- readUInt32LE buffer offset ;;
  b <- readUInt32LE buffer (offset + 4) ;;
  let b := b * 4294967296 in
  Ok (b + a).

Definition writeUInt64LE (value : Z) : Result Buffer :=
  if (0 <=? value) && (value <=? 18446744073709551615)
  then Ok (writeUIntLE 4 (value mod 4294967296)
           ++ writeUIntLE 4 (value / 4294967296))
  else Throw RangeError.

(** Modelled from the spec: the varint collaborator (DecodeVarint and
    EncodeVarint of section 6) is the Bitcoin compact-size integer. *)
Module varuint.

Definition checkUInt53 (n : Z) : Result unit :=
  if (n <? 0) || (n >? MAX_SAFE_INTEGER) then Throw RangeError else Ok tt.

Definition encodingLength (number : Z) : Result Z :=
  _ <- checkUInt53 number ;;
  Ok (if number <? 253 then 1
      else if number <=? 65535 then 3
      else if number <=? 4294967295 then 5
      else 9).

Definition encode (number : Z) : Result Buffer :=
  _ <- checkUInt53 number ;;
  Ok (if number <? 253 then [byteOfZ number]
      else if number <=? 65535 then xfd :: writeUIntLE 2 number
      else if number <=? 4294967295 then xfe :: writeUIntLE 4 number
      else xff :: writeUIntLE 4 (number mod 4294967296)
               ++ writeUIntLE 4 (number / 4294967296)).

(** Returns the number and [decode.bytes]. *)
Definition decode (buffer : Buffer) (offset : Z) : Result (Z * Z) :=
  first <- readUInt8 buffer offset ;;
  if first <? 253 then Ok (first, 1)
  else if first =? 253 then
    n <- readUInt16LE buffer (offset + 1) ;; Ok (n, 3)
  else if first =? 254 then
    n <- readUInt32LE buffer (offset + 1) ;; Ok (n, 5)
  else
    lo <- readUInt32LE buffer (offset + 1) ;;
    hi <- readUInt32LE buffer (offset + 5) ;;
    let number := hi * 4294967296 + lo in
    _ <- checkUInt53 number ;;
    Ok (number, 9).

End varuint.

(** ** The key/value pair stream

    Modelled from the spec: key_pair.ts and bufferutils.ts are not part of
    the source tree.  Section 6: a pair is a key (type code and optional
    auxiliary key data) followed by a value, each a length-prefixed byte
    string, and a key of length zero ends the record.  The reader is its
    unread remainder. *)

Definition BufferReader : Type := Buffer.

Module BufferReader.

Definition readUInt8 (r : BufferReader) : Result (byte * BufferReader) :=
  match r with
  | [] => Throw RangeError
  | b :: r' => Ok (b, r')
  end.

Definition readVarInt (r : BufferReader) : Result (Z * BufferReader) :=
  '(vi, bytes) <- varuint.decode r 0 ;;
  Ok (vi, sliceFrom r bytes).

Definition readSlice (n : Z) (r : BufferReader) : Result (Buffer * BufferReader) :=
  if len r <? n then Throw (Error "Cannot read slice out of bounds")
  else Ok (slice r 0 n, sliceFrom r n).

Definition readVarSlice (r : BufferReader) : Result (Buffer * BufferReader) :=
  '(n, r1) <- readVarInt r ;;
  readSlice n r1.

End BufferReader.

Module Key.

Record t : Type := mk { keyType : byte; keyData : Buffer }.

(** [new Key(keyType)]: the key data defaults to the empty buffer. *)
Definition new (keyType : byte) : t := mk keyType [].

Definition fromBuffer (r : BufferReader) : Result (t * BufferReader) :=
  '(value, r') <- BufferReader.readVarSlice r ;;
  match value with
  | [] => Throw ErrEmptyKey
  | keyType :: keyData => Ok (mk keyType keyData, r')
  end.

Definition toBuffer (k : t) : Result Buffer :=
  n <- varuint.encode (1 + len (keyData k)) ;;
  Ok (n ++ keyType k :: keyData k).

End Key.

Module KeyPair.

Record t : Type := mk { key : Key.t; value : Buffer }.

Definition fromBuffer (r : BufferReader) : Result (t * BufferReader) :=
  '(key, r1) <- Key.fromBuffer r ;;
  '(value, r2) <- BufferReader.readVarSlice r1 ;;
  Ok (mk key value, r2).

Definition toBuffer (kp : t) : Result Buffer :=
  k <- Key.toBuffer (key kp) ;;
  n <- varuint.encode (len (value kp)) ;;
  Ok (k ++ n ++ value kp).

End KeyPair.

(** ** The field registry

    Modelled from the spec: fields.ts is not part of the source tree.  The
    type codes are the ones the PSET specification mandates (section 6). *)

Module OutputTypes.
Definition REDEEM_SCRIPT : byte := x00.
Definition WITNESS_SCRIPT : byte := x01.
Definition BIP32_DERIVATION : byte := x02.
Definition AMOUNT : byte := x03.
Definition SCRIPT : byte := x04.
Definition TAP_INTERNAL_KEY : byte := x05.
Definition TAP_TREE : byte := x06.
Definition TAP_BIP32_DERIVATION : byte := x07.
Definition PROPRIETARY : byte := xfc.
End OutputTypes.

Module OutputProprietaryTypes.
Definition VALUE_COMMITMENT : byte := x01.
Definition ASSET : byte := x02.
Definition ASSET_COMMITMENT : byte := x03.
Definition VALUE_RANGEPROOF : byte := x04.
Definition ASSET_SURJECTION_PROOF : byte := x05.
Definition BLINDING_PUBKEY : byte := x06.
Definition ECDH_PUBKEY : byte := x07.
Definition BLINDER_INDEX : byte := x08.
Definition BLIND_VALUE_PROOF : byte := x09.
Definition BLIND_ASSET_PROOF : byte := x0a.
End OutputProprietaryTypes.

(** Modelled from the spec: pset.ts is not part of the source tree; the
    registered prefix of the format is the ASCII text pset. *)
Definition magicPrefix : Buffer := [x70; x73; x65; x74].

(** ** The proprietary envelope

    Modelled from the spec: proprietary_data.ts is not part of the source
    tree.  Section 6: identifier, then one sub-type code, then optional
    key-suffix bytes, inside a PROPRIETARY-typed key. *)

Module ProprietaryData.

Record t : Type :=
  mk { identifier : Buffer; subType : byte; keyData : Buffer; value : Buffer }.

Definition fromKeyPair (keyPair : KeyPair.t) : Result t :=
  if negb (Byte.eqb (Key.keyType (KeyPair.key keyPair)) OutputTypes.PROPRIETARY)
  then Throw (Error "Invalid proprietary data key type")
  else
    '(identifier, r1) <- BufferReader.readVarSlice (Key.keyData (KeyPair.key keyPair)) ;;
    '(subType, r2) <- BufferReader.readUInt8 r1 ;;
    Ok (mk identifier subType r2 (KeyPair.value keyPair)).

Definition proprietaryKey (subType : byte) (keyData : Buffer) : Buffer :=
  (x04 :: magicPrefix) ++ subType :: keyData.

End ProprietaryData.

(** ** The BIP32 derivation codec

    The codec of bip32.ts is an external collaborator (section 2) of which
    only the interface is fixed: it is a parameter of the development, and
    so is the type of derivation paths. *)

Class Bip32Codec (Path : Type) : Type := {
  decodeBip32Derivation : Buffer -> Result (Buffer * Path);
  encodeBIP32Derivation : Buffer -> Path -> Buffer
}.

(** ** interfaces.ts: the records carried by an output *)

Record TapLeaf : Type :=
  mkTapLeaf { depth : byte; leafVersion : byte; leafScript : Buffer }.

Record TapTree : Type := mkTapTree { leaves : list TapLeaf }.

Section Output.

Context {Path : Type} {codec : Bip32Codec Path}.

Record Bip32Derivation : Type :=
  mkBip32Derivation { pubkey : Buffer; masterFingerprint : Buffer; path : Path }.

Record TapBip32Derivation : Type :=
  mkTapBip32Derivation {
    tapPubkey : Buffer;
    tapMasterFingerprint : Buffer;
    tapPath : Path;
    leafHashes : list Buffer }.

(** ** The output record *)

Record PsetOutput : Type := mkPsetOutput {
  redeemScript : option Buffer;
  witnessScript : option Buffer;
  bip32Derivation : option (list Bip32Derivation);
  value : Z;
  script : option Buffer;
  tapBip32Derivation : option (list TapBip32Derivation);
  tapTree : option TapTree;
  tapInternalKey : option Buffer;
  valueCommitment : option Buffer;
  asset : option Buffer;
  assetCommitment : option Buffer;
  valueRangeproof : option Buffer;
  assetSurjectionProof : option Buffer;
  blindingPubkey : option Buffer;
  ecdhPubkey : option Buffer;
  blinderIndex : option Z;
  blindValueProof : option Buffer;
  blindAssetProof : option Buffer;
  proprietaryData : option (list ProprietaryData.t);
  unknowns : option (list KeyPair.t) }.

(** [new PsetOutput(value, asset, script)] *)
Definition newPsetOutput (value' : option Z) (asset' script' : option Buffer) : PsetOutput :=
  {| redeemScript := None; witnessScript := None; bip32Derivation := None;
     value := match value' with Some v => v | None => 0 end;
     script := script';
     tapBip32Derivation := None; tapTree := None; tapInternalKey := None;
     valueCommitment := None;
     asset := Some (match asset' with Some a => a | None => [] end);
     assetCommitment := None; valueRangeproof := None;
     assetSurjectionProof := None; blindingPubkey := None; ecdhPubkey := None;
     blinderIndex := None; blindValueProof := None; blindAssetProof := None;
     proprietaryData := None; unknowns := None |}.

(** Field assignments [output.f = v]. *)
Definition set_redeemScript (v : option Buffer) (o : PsetOutput)
    : PsetOutput :=
  {| redeemScript := v; witnessScript := witnessScript o;
     bip32Derivation := bip32Derivation o; value := value o;
     script := script o; tapBip32Derivation := tapBip32Derivation o;
     tapTree := tapTree o; tapInternalKey := tapInternalKey o;
     valueCommitment := valueCommitment o; asset := asset o;
     assetCommitment := assetCommitment o;
     valueRangeproof := valueRangeproof o;
     assetSurjectionProof := assetSurjectionProof o;
     blindingPubkey := blindingPubkey o; ecdhPubkey := ecdhPubkey o;
     blinderIndex := blinderIndex o; blindValueProof := blindValueProof o;
     blindAssetProof := blindAssetProof o;
     proprietaryData := proprietaryData o; unknowns := unknowns o |}.

Definition set_witnessScript (v : option Buffer) (o : PsetOutput)
    : PsetOutput :=
  {| redeemScript := redeemScript o; witnessScript := v;
     bip32Derivation := bip32Derivation o; value := value o;
     script := script o; tapBip32Derivation := tapBip32Derivation o;
     tapTree := tapTree o; tapInternalKey := tapInternalKey o;
     valueCommitment := valueCommitment o; asset := asset o;
     assetCommitment := assetCommitment o;
     valueRangeproof := valueRangeproof o;
     assetSurjectionProof := assetSurjectionProof o;
     blindingPubkey := blindingPubkey o; ecdhPubkey := ecdhPubkey o;
     blinderIndex := blinderIndex o; blindValueProof := blindValueProof o;
     blindAssetProof := blindAssetProof o;
     proprietaryData := proprietaryData o; unknowns := unknowns o |}.

Definition set_bip32Derivation (v : option (list Bip32Derivation)) (o : PsetOutput)
    : PsetOutput :=
  {| redeemScript := redeemScript o; witnessScript := witnessScript o;
     bip32Derivation := v; value := value o; script := script o;
     tapBip32Derivation := tapBip32Derivation o; tapTree := tapTree o;
     tapInternalKey := tapInternalKey o;
     valueCommitment := valueCommitment o; asset := asset o;
     assetCommitment := assetCommitment o;
     valueRangeproof := valueRangeproof o;
     assetSurjectionProof := assetSurjectionProof o;
     blindingPubkey := blindingPubkey o; ecdhPubkey := ecdhPubkey o;
     blinderIndex := blinderIndex o; blindValueProof := blindValueProof o;
     blindAssetProof := blindAssetProof o;
     proprietaryData := proprietaryData o; unknowns := unknowns o |}.

Definition set_value (v : Z) (o : PsetOutput)
    : PsetOutput :=
  {| redeemScript := redeemScript o; witnessScript := witnessScript o;
     bip32Derivation := bip32Derivation o; value := v; script := script o;
     tapBip32Derivation := tapBip32Derivation o; tapTree := tapTree o;
     tapInternalKey := tapInternalKey o;
     valueCommitment := valueCommitment o; asset := asset o;
     assetCommitment := assetCommitment o;
     valueRangeproof := valueRangeproof o;
     assetSurjectionProof := assetSurjectionProof o;
     blindingPubkey := blindingPubkey o; ecdhPubkey := ecdhPubkey o;
     blinderIndex := blinderIndex o; blindValueProof := blindValueProof o;
     blindAssetProof := blindAssetProof o;
     proprietaryData := proprietaryData o; unknowns := unknowns o |}.

Definition set_script (v : option Buffer) (o : PsetOutput)
    : PsetOutput :=
  {| redeemScript := redeemScript o; witnessScript := witnessScript o;
     bip32Derivation := bip32Derivation o; value := value o; script := v;
     tapBip32Derivation := tapBip32Derivation o; tapTree := tapTree o;
     tapInternalKey := tapInternalKey o;
     valueCommitment := valueCommitment o; asset := asset o;
     assetCommitment := assetCommitment o;
     valueRangeproof := valueRangeproof o;
     assetSurjectionProof := assetSurjectionProof o;
     blindingPubkey := blindingPubkey o; ecdhPubkey := ecdhPubkey o;
     blinderIndex := blinderIndex o; blindValueProof := blindValueProof o;
     blindAssetProof := blindAssetProof o;
     proprietaryData := proprietaryData o; unknowns := unknowns o |}.

Definition set_tapBip32Derivation (v : option (list TapBip32Derivation)) (o : PsetOutput)
    : PsetOutput :=
  {| redeemScript := redeemScript o; witnessScript := witnessScript o;
     bip32Derivation := bip32Derivation o; value := value o;
     script := script o; tapBip32Derivation := v; tapTree := tapTree o;
     tapInternalKey := tapInternalKey o;
     valueCommitment := valueCommitment o; asset := asset o;
     assetCommitment := assetCommitment o;
     valueRangeproof := valueRangeproof o;
     assetSurjectionProof := assetSurjectionProof o;
     blindingPubkey := blindingPubkey o; ecdhPubkey := ecdhPubkey o;
     blinderIndex := blinderIndex o; blindValueProof := blindValueProof o;
     blindAssetProof := blindAssetProof o;
     proprietaryData := proprietaryData o; unknowns := unknowns o |}.

Definition set_tapTree (v : option TapTree) (o : PsetOutput)
    : PsetOutput :=
  {| redeemScript := redeemScript o; witnessScript := witnessScript o;
     bip32Derivation := bip32Derivation o; value := value o;
     script := script o; tapBip32Derivation := tapBip32Derivation o;
     tapTree := v; tapInternalKey := tapInternalKey o;
     valueCommitment := valueCommitment o; asset := asset o;
     assetCommitment := assetCommitment o;
     valueRangeproof := valueRangeproof o;
     assetSurjectionProof := assetSurjectionProof o;
     blindingPubkey := blindingPubkey o; ecdhPubkey := ecdhPubkey o;
     blinderIndex := blinderIndex o; blindValueProof := blindValueProof o;
     blindAssetProof := blindAssetProof o;
     proprietaryData := proprietaryData o; unknowns := unknowns o |}.

Definition set_tapInternalKey (v : option Buffer) (o : PsetOutput)
    : PsetOutput :=
  {| redeemScript := redeemScript o; witnessScript := witnessScript o;
     bip32Derivation := bip32Derivation o; value := value o;
     script := script o; tapBip32Derivation := tapBip32Derivation o;
     tapTree := tapTree o; tapInternalKey := v;
     valueCommitment := valueCommitment o; asset := asset o;
     assetCommitment := assetCommitment o;
     valueRangeproof := valueRangeproof o;
     assetSurjectionProof := assetSurjectionProof o;
     blindingPubkey := blindingPubkey o; ecdhPubkey := ecdhPubkey o;
     blinderIndex := blinderIndex o; blindValueProof := blindValueProof o;
     blindAssetProof := blindAssetProof o;
     proprietaryData := proprietaryData o; unknowns := unknowns o |}.

Definition set_valueCommitment (v : option Buffer) (o : PsetOutput)
    : PsetOutput :=
  {| redeemScript := redeemScript o; witnessScript := witnessScript o;
     bip32Derivation := bip32Derivation o; value := value o;
     script := script o; tapBip32Derivation := tapBip32Derivation o;
     tapTree := tapTree o; tapInternalKey := tapInternalKey o;
     valueCommitment := v; asset := asset o;
     assetCommitment := assetCommitment o;
     valueRangeproof := valueRangeproof o;
     assetSurjectionProof := assetSurjectionProof o;
     blindingPubkey := blindingPubkey o; ecdhPubkey := ecdhPubkey o;
     blinderIndex := blinderIndex o; blindValueProof := blindValueProof o;
     blindAssetProof := blindAssetProof o;
     proprietaryData := proprietaryData o; unknowns := unknowns o |}.

Definition set_asset (v : option Buffer) (o : PsetOutput)
    : PsetOutput :=
  {| redeemScript := redeemScript o; witnessScript := witnessScript o;
     bip32Derivation := bip32Derivation o; value := value o;
     script := script o; tapBip32Derivation := tapBip32Derivation o;
     tapTree := tapTree o; tapInternalKey := tapInternalKey o;
     valueCommitment := valueCommitment o; asset := v;
     assetCommitment := assetCommitment o;
     valueRangeproof := valueRangeproof o;
     assetSurjectionProof := assetSurjectionProof o;
     blindingPubkey := blindingPubkey o; ecdhPubkey := ecdhPubkey o;
     blinderIndex := blinderIndex o; blindValueProof := blindValueProof o;
     blindAssetProof := blindAssetProof o;
     proprietaryData := proprietaryData o; unknowns := unknowns o |}.

Definition set_assetCommitment (v : option Buffer) (o : PsetOutput)
    : PsetOutput :=
  {| redeemScript := redeemScript o; witnessScript := witnessScript o;
     bip32Derivation := bip32Derivation o; value := value o;
     script := script o; tapBip32Derivation := tapBip32Derivation o;
     tapTree := tapTree o; tapInternalKey := tapInternalKey o;
     valueCommitment := valueCommitment o; asset := asset o;
     assetCommitment := v; valueRangeproof := valueRangeproof o;
     assetSurjectionProof := assetSurjectionProof o;
     blindingPubkey := blindingPubkey o; ecdhPubkey := ecdhPubkey o;
     blinderIndex := blinderIndex o; blindValueProof := blindValueProof o;
     blindAssetProof := blindAssetProof o;
     proprietaryData := proprietaryData o; unknowns := unknowns o |}.

Definition set_valueRangeproof (v : option Buffer) (o : PsetOutput)
    : PsetOutput :=
  {| redeemScript := redeemScript o; witnessScript := witnessScript o;
     bip32Derivation := bip32Derivation o; value := value o;
     script := script o; tapBip32Derivation := tapBip32Derivation o;
     tapTree := tapTree o; tapInternalKey := tapInternalKey o;
     valueCommitment := valueCommitment o; asset := asset o;
     assetCommitment := assetCommitment o; valueRangeproof := v;
     assetSurjectionProof := assetSurjectionProof o;
     blindingPubkey := blindingPubkey o; ecdhPubkey := ecdhPubkey o;
     blinderIndex := blinderIndex o; blindValueProof := blindValueProof o;
     blindAssetProof := blindAssetProof o;
     proprietaryData := proprietaryData o; unknowns := unknowns o |}.

Definition set_assetSurjectionProof (v : option Buffer) (o : PsetOutput)
    : PsetOutput :=
  {| redeemScript := redeemScript o; witnessScript := witnessScript o;
     bip32Derivation := bip32Derivation o; value := value o;
     script := script o; tapBip32Derivation := tapBip32Derivation o;
     tapTree := tapTree o; tapInternalKey := tapInternalKey o;
     valueCommitment := valueCommitment o; asset := asset o;
     assetCommitment := assetCommitment o;
     valueRangeproof := valueRangeproof o; assetSurjectionProof := v;
     blindingPubkey := blindingPubkey o; ecdhPubkey := ecdhPubkey o;
     blinderIndex := blinderIndex o; blindValueProof := blindValueProof o;
     blindAssetProof := blindAssetProof o;
     proprietaryData := proprietaryData o; unknowns := unknowns o |}.

Definition set_blindingPubkey (v : option Buffer) (o : PsetOutput)
    : PsetOutput :=
  {| redeemScript := redeemScript o; witnessScript := witnessScript o;
     bip32Derivation := bip32Derivation o; value := value o;
     script := script o; tapBip32Derivation := tapBip32Derivation o;
     tapTree := tapTree o; tapInternalKey := tapInternalKey o;
     valueCommitment := valueCommitment o; asset := asset o;
     assetCommitment := assetCommitment o;
     valueRangeproof := valueRangeproof o;
     assetSurjectionProof := assetSurjectionProof o; blindingPubkey := v;
     ecdhPubkey := ecdhPubkey o; blinderIndex := blinderIndex o;
     blindValueProof := blindValueProof o;
     blindAssetProof := blindAssetProof o;
     proprietaryData := proprietaryData o; unknowns := unknowns o |}.

Definition set_ecdhPubkey (v : option Buffer) (o : PsetOutput)
    : PsetOutput :=
  {| redeemScript := redeemScript o; witnessScript := witnessScript o;
     bip32Derivation := bip32Derivation o; value := value o;
     script := script o; tapBip32Derivation := tapBip32Derivation o;
     tapTree := tapTree o; tapInternalKey := tapInternalKey o;
     valueCommitment := valueCommitment o; asset := asset o;
     assetCommitment := assetCommitment o;
     valueRangeproof := valueRangeproof o;
     assetSurjectionProof := assetSurjectionProof o;
     blindingPubkey := blindingPubkey o; ecdhPubkey := v;
     blinderIndex := blinderIndex o; blindValueProof := blindValueProof o;
     blindAssetProof := blindAssetProof o;
     proprietaryData := proprietaryData o; unknowns := unknowns o |}.

Definition set_blinderIndex (v : option Z) (o : PsetOutput)
    : PsetOutput :=
  {| redeemScript := redeemScript o; witnessScript := witnessScript o;
     bip32Derivation := bip32Derivation o; value := value o;
     script := script o; tapBip32Derivation := tapBip32Derivation o;
     tapTree := tapTree o; tapInternalKey := tapInternalKey o;
     valueCommitment := valueCommitment o; asset := asset o;
     assetCommitment := assetCommitment o;
     valueRangeproof := valueRangeproof o;
     assetSurjectionProof := assetSurjectionProof o;
     blindingPubkey := blindingPubkey o; ecdhPubkey := ecdhPubkey o;
     blinderIndex := v; blindValueProof := blindValueProof o;
     blindAssetProof := blindAssetProof o;
     proprietaryData := proprietaryData o; unknowns := unknowns o |}.

Definition set_blindValueProof (v : option Buffer) (o : PsetOutput)
    : PsetOutput :=
  {| redeemScript := redeemScript o; witnessScript := witnessScript o;
     bip32Derivation := bip32Derivation o; value := value o;
     script := script o; tapBip32Derivation := tapBip32Derivation o;
     tapTree := tapTree o; tapInternalKey := tapInternalKey o;
     valueCommitment := valueCommitment o; asset := asset o;
     assetCommitment := assetCommitment o;
     valueRangeproof := valueRangeproof o;
     assetSurjectionProof := assetSurjectionProof o;
     blindingPubkey := blindingPubkey o; ecdhPubkey := ecdhPubkey o;
     blinderIndex := blinderIndex o; blindValueProof := v;
     blindAssetProof := blindAssetProof o;
     proprietaryData := proprietaryData o; unknowns := unknowns o |}.

Definition set_blindAssetProof (v : option Buffer) (o : PsetOutput)
    : PsetOutput :=
  {| redeemScript := redeemScript o; witnessScript := witnessScript o;
     bip32Derivation := bip32Derivation o; value := value o;
     script := script o; tapBip32Derivation := tapBip32Derivation o;
     tapTree := tapTree o; tapInternalKey := tapInternalKey o;
     valueCommitment := valueCommitment o; asset := asset o;
     assetCommitment := assetCommitment o;
     valueRangeproof := valueRangeproof o;
     assetSurjectionProof := assetSurjectionProof o;
     blindingPubkey := blindingPubkey o; ecdhPubkey := ecdhPubkey o;
     blinderIndex := blinderIndex o; blindValueProof := blindValueProof o;
     blindAssetProof := v; proprietaryData := proprietaryData o;
     unknowns := unknowns o |}.

Definition set_proprietaryData (v : option (list ProprietaryData.t)) (o : PsetOutput)
    : PsetOutput :=
  {| redeemScript := redeemScript o; witnessScript := witnessScript o;
     bip32Derivation := bip32Derivation o; value := value o;
     script := script o; tapBip32Derivation := tapBip32Derivation o;
     tapTree := tapTree o; tapInternalKey := tapInternalKey o;
     valueCommitment := valueCommitment o; asset := asset o;
     assetCommitment := assetCommitment o;
     valueRangeproof := valueRangeproof o;
     assetSurjectionProof := assetSurjectionProof o;
     blindingPubkey := blindingPubkey o; ecdhPubkey := ecdhPubkey o;
     blinderIndex := blinderIndex o; blindValueProof := blindValueProof o;
     blindAssetProof := blindAssetProof o; proprietaryData := v;
     unknowns := unknowns o |}.

Definition set_unknowns (v : option (list KeyPair.t)) (o : PsetOutput)
    : PsetOutput :=
  {| redeemScript := redeemScript o; witnessScript := witnessScript o;
     bip32Derivation := bip32Derivation o; value := value o;
     script := script o; tapBip32Derivation := tapBip32Derivation o;
     tapTree := tapTree o; tapInternalKey := tapInternalKey o;
     valueCommitment := valueCommitment o; asset := asset o;
     assetCommitment := assetCommitment o;
     valueRangeproof := valueRangeproof o;
     assetSurjectionProof := assetSurjectionProof o;
     blindingPubkey := blindingPubkey o; ecdhPubkey := ecdhPubkey o;
     blinderIndex := blinderIndex o; blindValueProof := blindValueProof o;
     blindAssetProof := blindAssetProof o;
     proprietaryData := proprietaryData o; unknowns := v |}.


(** ** JavaScript truth values

    [buf && buf.length > 0] is [undefined] when [buf] is undefined and a
    boolean otherwise; conditions test truthiness, [!==] compares the values
    themselves. *)

Inductive JsBool : Type :=
| undefined
| jsBool (b : bool).

Definition truthy (v : JsBool) : bool :=
  match v with
  | jsBool true => true
  | _ => false
  end.

Definition strictNotEqual (a b : JsBool) : bool :=
  match a, b with
  | undefined, undefined => false
  | jsBool x, jsBool y => negb (Bool.eqb x y)
  | _, _ => true
  end.

Definition jsAnd (a b : JsBool) : JsBool := if truthy a then b else a.
Definition jsOr (a b : JsBool) : JsBool := if truthy a then a else b.

(** [buf && buf.length > 0] *)
Definition isSet (buf : option Buffer) : JsBool :=
  match buf with
  | None => undefined
  | Some b => jsBool (0 <? len b)
  end.

(** [(buf && buf.length) > 0] *)
Definition lengthPositive (buf : option Buffer) : JsBool :=
  match buf with
  | None => jsBool false
  | Some b => jsBool (0 <? len b)
  end.

(** [n > 0] for an optional number: [undefined > 0] is false. *)
Definition greaterThanZero (n : option Z) : bool :=
  match n with
  | None => false
  | Some v => 0 <? v
  end.

Definition orEmpty {A} (l : option (list A)) : list A :=
  match l with
  | None => []
  | Some xs => xs
  end.

(** ** Blinding invariant checker *)

Definition isPartiallyBlinded (this : PsetOutput) : JsBool :=
  jsOr (isSet (valueCommitment this))
 (jsOr (isSet (assetCommitment this))
 (jsOr (isSet (valueRangeproof this))
 (jsOr (isSet (assetSurjectionProof this))
       (isSet (ecdhPubkey this))))).

Definition isFullyBlinded (this : PsetOutput) : JsBool :=
  jsAnd (isSet (valueCommitment this))
 (jsAnd (isSet (assetCommitment this))
 (jsAnd (isSet (valueRangeproof this))
 (jsAnd (lengthPositive (assetSurjectionProof this))
        (isSet (ecdhPubkey this))))).

Definition needsBlinding (this : PsetOutput) : JsBool :=
  isSet (blindingPubkey this).

Definition sanityCheck (this : PsetOutput) : Result PsetOutput :=
  let valueCommitSet := isSet (valueCommitment this) in
  let blindValueProofSet := isSet (blindValueProof this) in
  if (0 <? value this) && strictNotEqual valueCommitSet blindValueProofSet then
    Throw (Error "Missing output value commitment or blind proof")
  else
  let assetCommitSet := isSet (assetCommitment this) in
  let blindAssetProofSet := isSet (blindAssetProof this) in
  if negb (truthy assetCommitSet) && negb (truthy (isSet (asset this))) then
    Throw (Error "Missing output asset")
  else
  if truthy (isSet (asset this)) && strictNotEqual assetCommitSet blindAssetProofSet then
    Throw (Error "Missing output asset commitment or blind proof")
  else
  if truthy (isPartiallyBlinded this) && negb (truthy (isFullyBlinded this)) then
    Throw (Error "Output is partially blinded while it must be either unblinded or fully blinded")
  else
  if truthy (isFullyBlinded this) && greaterThanZero (blinderIndex this) then
    Throw (Error "Blinder index must be unset for fully blinded output")
  else Ok this.

(** ** Output decoder *)

(** The loop of the TAP_TREE case: it runs while [_offset] is inside the
    value and reads no leaf count.  [fuel] bounds the number of leaves. *)
Fixpoint decodeTapLeaves (fuel : nat) (value : Buffer) (_offset : Z)
    (leaves : list TapLeaf) : option (Result (list TapLeaf)) :=
  if _offset <? len value then
    match fuel with
    | O => None
    | S fuel' =>
      let depth := at_ value _offset in
      let leafVersion := at_ value (_offset + 1) in
      andThen (varuint.decode value (_offset + 2)) (fun '(scriptLen, _) =>
      andThen (varuint.encodingLength scriptLen) (fun n =>
      let _offset := _offset + 2 + n in
      decodeTapLeaves fuel' value (_offset + scriptLen)
        (leaves ++ [mkTapLeaf depth leafVersion
                      (slice value _offset (_offset + scriptLen))])))
    end
  else Some (Ok leaves).

Definition decodeTapTree (value : Buffer) : Result (list TapLeaf) :=
  run (decodeTapLeaves (S (length value)) value 0 []).

(** The loop filling [leafHashes] in the TAP_BIP32_DERIVATION case. *)
Definition readLeafHashes (value : Buffer) (nHashes nHashesLen : Z) : list Buffer :=
  map (fun i => let _ofs := nHashesLen + 32 * Z.of_nat i in
                slice value _ofs (_ofs + 32))
      (seq 0 (Z.to_nat nHashes)).

(** The inner switch on [data.subType], under the registered identifier. *)
Definition dispatchProprietary (kp : KeyPair.t) (data : ProprietaryData.t)
    (output : PsetOutput) : Result PsetOutput :=
  let st := ProprietaryData.subType data in
  let v := KeyPair.value kp in
  if Byte.eqb st OutputProprietaryTypes.VALUE_COMMITMENT then
    if truthy (isSet (valueCommitment output)) then
      Throw (OutputDuplicateFieldError "value commitment")
    else if negb (len v =? 33) then
      Throw (Error "Invalid output value commitment length")
    else Ok (set_valueCommitment (Some v) output)
  else if Byte.eqb st OutputProprietaryTypes.ASSET then
    if truthy (isSet (asset output)) then
      Throw (OutputDuplicateFieldError "asset")
    else if negb (len v =? 32) then
      Throw (Error "Invalid output asset length")
    else Ok (set_asset (Some v) output)
  else if Byte.eqb st OutputProprietaryTypes.ASSET_COMMITMENT then
    if truthy (isSet (assetCommitment output)) then
      Throw (OutputDuplicateFieldError "asset commitment")
    else if negb (len v =? 33) then
      Throw (Error "Invalid output asset commitment length")
    else Ok (set_assetCommitment (Some v) output)
  else if Byte.eqb st OutputProprietaryTypes.VALUE_RANGEPROOF then
    if truthy (isSet (valueRangeproof output)) then
      Throw (OutputDuplicateFieldError "value range proof")
    else Ok (set_valueRangeproof (Some v) output)
  else if Byte.eqb st OutputProprietaryTypes.ASSET_SURJECTION_PROOF then
    if truthy (isSet (assetSurjectionProof output)) then
      Throw (OutputDuplicateFieldError "asset surjection proof")
    else Ok (set_assetSurjectionProof (Some v) output)
  else if Byte.eqb st OutputProprietaryTypes.BLINDING_PUBKEY then
    if truthy (isSet (blindingPubkey output)) then
      Throw (OutputDuplicateFieldError "blinding pubkey")
    else if negb (len v =? 33) then
      Throw (Error "Invalid output blinding pubkey length")
    else Ok (set_blindingPubkey (Some v) output)
  else if Byte.eqb st OutputProprietaryTypes.ECDH_PUBKEY then
    if truthy (isSet (ecdhPubkey output)) then
      Throw (OutputDuplicateFieldError "ecdh pubkey")
    else if negb (len v =? 33) then
      Throw (Error "Invalid output ecdh pubkey length")
    else Ok (set_ecdhPubkey (Some v) output)
  else if Byte.eqb st OutputProprietaryTypes.BLINDER_INDEX then
    match blinderIndex output with
    | Some _ => Throw (OutputDuplicateFieldError "blinder index")
    | None =>
      if negb (len v =? 4) then
        Throw (Error "Invalid output blinder index length")
      else
        n <- readUInt32LE v 0 ;;
        Ok (set_blinderIndex (Some n) output)
    end
  else if Byte.eqb st OutputProprietaryTypes.BLIND_VALUE_PROOF then
    if truthy (isSet (blindValueProof output)) then
      Throw (OutputDuplicateFieldError "blind value proof")
    else Ok (set_blindValueProof (Some v) output)
  else if Byte.eqb st OutputProprietaryTypes.BLIND_ASSET_PROOF then
    if truthy (isSet (blindAssetProof output)) then
      Throw (OutputDuplicateFieldError "blind asset proof")
    else Ok (set_blindAssetProof (Some v) output)
  else
    Ok (set_proprietaryData (Some (orEmpty (proprietaryData output) ++ [data])) output).

(** The switch on [kp.key.keyType]: the effect of one key/value pair on the
    record under construction. *)
Definition dispatch (kp : KeyPair.t) (output : PsetOutput) : Result PsetOutput :=
  let kt := Key.keyType (KeyPair.key kp) in
  let kd := Key.keyData (KeyPair.key kp) in
  let v := KeyPair.value kp in
  if Byte.eqb kt OutputTypes.REDEEM_SCRIPT then
    if truthy (isSet (redeemScript output)) then
      Throw (OutputDuplicateFieldError "redeem script")
    else Ok (set_redeemScript (Some v) output)
  else if Byte.eqb kt OutputTypes.WITNESS_SCRIPT then
    if truthy (isSet (witnessScript output)) then
      Throw (OutputDuplicateFieldError "witness script")
    else Ok (set_witnessScript (Some v) output)
  else if Byte.eqb kt OutputTypes.BIP32_DERIVATION then
    (* pubkey = kp.key.keyData *)
    if negb (len kd =? 33) then
      Throw (Error "Invalid output bip32 pubkey length")
    else
      let derivations := orEmpty (bip32Derivation output) in
      if existsb (fun d => buffer_eqb (pubkey d) kd) derivations then
        Throw (OutputDuplicateFieldError "bip32 derivation")
      else
        '(masterFingerprint, path) <- decodeBip32Derivation v ;;
        Ok (set_bip32Derivation
              (Some (derivations ++ [mkBip32Derivation kd masterFingerprint path]))
              output)
  else if Byte.eqb kt OutputTypes.AMOUNT then
    if 0 <? value output then
      Throw (OutputDuplicateFieldError "value")
    else if negb (len v =? 8) then
      Throw (Error "Invalid output amount length")
    else
      n <- readUInt64LE v 0 ;;
      Ok (set_value n output)
  else if Byte.eqb kt OutputTypes.SCRIPT then
    if truthy (isSet (script output)) then
      Throw (OutputDuplicateFieldError "script")
    else Ok (set_script (Some v) output)
  else if Byte.eqb kt OutputTypes.TAP_BIP32_DERIVATION then
    let tapKey := kd in
    if negb (len tapKey =? 33) then
      Throw (Error "Invalid output bip32 derivation pubkey length")
    else
      let derivations := orEmpty (tapBip32Derivation output) in
      let tapBip32Pubkey := kd in
      if existsb (fun d => buffer_eqb (tapPubkey d) tapBip32Pubkey) derivations then
        Throw (OutputDuplicateFieldError "taproot bip32 derivation")
      else
        '(nHashes, _) <- varuint.decode v 0 ;;
        nHashesLen <- varuint.encodingLength nHashes ;;
        '(masterFingerprint, path) <-
          decodeBip32Derivation (sliceFrom v (nHashesLen + nHashes * 32)) ;;
        (* new Array(nHashes) *)
        if 4294967295 <? nHashes then Throw RangeError
        else
          let leafHashes := readLeafHashes v nHashes nHashesLen in
          Ok (set_tapBip32Derivation
                (Some (derivations ++
                       [mkTapBip32Derivation tapBip32Pubkey masterFingerprint
                          path leafHashes]))
                output)
  else if Byte.eqb kt OutputTypes.TAP_TREE then
    match tapTree output with
    | Some _ => Throw (OutputDuplicateFieldError "taproot tree")
    | None =>
      leaves <- decodeTapTree v ;;
      Ok (set_tapTree (Some (mkTapTree leaves)) output)
    end
  else if Byte.eqb kt OutputTypes.TAP_INTERNAL_KEY then
    if truthy (isSet (tapInternalKey output)) then
      Throw (OutputDuplicateFieldError "taproot internal key")
    else if negb (len v =? 32) then
      Throw (Error "Invalid output taproot internal key length")
    else Ok (set_tapInternalKey (Some v) output)
  else if Byte.eqb kt OutputTypes.PROPRIETARY then
    data <- ProprietaryData.fromKeyPair kp ;;
    if buffer_eqb (ProprietaryData.identifier data) magicPrefix then
      dispatchProprietary kp data output
    else Ok output
  else
    Ok (set_unknowns (Some (orEmpty (unknowns output) ++ [kp])) output).

(** [while (true)] of [fromBuffer]; every iteration reads one pair. *)
Fixpoint fromBufferLoop (fuel : nat) (r : BufferReader) (output : PsetOutput)
    : option (Result PsetOutput) :=
  match fuel with
  | O => None
  | S fuel' =>
    match KeyPair.fromBuffer r with
    | Throw ErrEmptyKey => Some (sanityCheck output)
    | Throw e => Some (Throw e)
    | Ok (kp, r') => andThen (dispatch kp output) (fromBufferLoop fuel' r')
    end
  end.

Definition fromBuffer (r : BufferReader) : Result PsetOutput :=
  run (fromBufferLoop (S (length r)) r (newPsetOutput None None None)).

(** The effect of a sequence of pairs on the record, and the pairs a reader
    yields: [readsPairs r kps r'] holds when successive reads from [r]
    return [kps] and leave [r']. *)
Fixpoint decodePairs (kps : list KeyPair.t) (output : PsetOutput)
    : Result PsetOutput :=
  match kps with
  | [] => Ok output
  | kp :: rest => output' <- dispatch kp output ;; decodePairs rest output'
  end.

Inductive readsPairs : BufferReader -> list KeyPair.t -> BufferReader -> Prop :=
| readsPairs_nil (r : BufferReader) : readsPairs r [] r
| readsPairs_cons (r r1 r2 : BufferReader) (kp : KeyPair.t) (kps : list KeyPair.t) :
    KeyPair.fromBuffer r = Ok (kp, r1) ->
    readsPairs r1 kps r2 ->
    readsPairs r (kp :: kps) r2.

(** ** Output encoder *)

(** [if (buf && buf.length > 0) keyPairs.push(new KeyPair(key, buf))] *)
Definition pushIfSet (key : Key.t) (buf : option Buffer) : list KeyPair.t :=
  match buf with
  | Some b => if truthy (isSet buf) then [KeyPair.mk key b] else []
  | None => []
  end.

Definition proprietaryKeyOf (subType : byte) : Key.t :=
  Key.mk OutputTypes.PROPRIETARY (ProprietaryData.proprietaryKey subType []).

Definition encodeBip32Pair (d : Bip32Derivation) : KeyPair.t :=
  KeyPair.mk (Key.mk OutputTypes.BIP32_DERIVATION (pubkey d))
             (encodeBIP32Derivation (masterFingerprint d) (path d)).

Definition encodeTapBip32Pair (d : TapBip32Derivation) : Result KeyPair.t :=
  nHashesBuf <- varuint.encode (Z.of_nat (length (leafHashes d))) ;;
  Ok (KeyPair.mk (Key.mk OutputTypes.TAP_BIP32_DERIVATION (tapPubkey d))
        (nHashesBuf ++ concat (leafHashes d)
           ++ encodeBIP32Derivation (tapMasterFingerprint d) (tapPath d))).

Definition encodeTapLeaf (tapLeaf : TapLeaf) : Result Buffer :=
  n <- varuint.encode (len (leafScript tapLeaf)) ;;
  Ok ([depth tapLeaf; leafVersion tapLeaf] ++ n ++ leafScript tapLeaf).

Definition encodeTapTree (t : option TapTree) : Result (list KeyPair.t) :=
  match t with
  | Some tree =>
    bufs <- mapM encodeTapLeaf (leaves tree) ;;
    Ok [KeyPair.mk (Key.new OutputTypes.TAP_TREE) (concat bufs)]
  | None => Ok []
  end.

Definition encodeProprietaryPair (data : ProprietaryData.t) : KeyPair.t :=
  KeyPair.mk
    (Key.mk OutputTypes.PROPRIETARY
       (ProprietaryData.proprietaryKey (ProprietaryData.subType data)
          (ProprietaryData.keyData data)))
    (ProprietaryData.value data).

Definition getKeyPairs (this : PsetOutput) : Result (list KeyPair.t) :=
  let keyPairs :=
    pushIfSet (Key.new OutputTypes.REDEEM_SCRIPT) (redeemScript this)
    ++ pushIfSet (Key.new OutputTypes.WITNESS_SCRIPT) (witnessScript this)
    ++ map encodeBip32Pair (orEmpty (bip32Derivation this)) in
  tapDerivations <- mapM encodeTapBip32Pair (orEmpty (tapBip32Derivation this)) ;;
  tree <- encodeTapTree (tapTree this) ;;
  let keyPairs :=
    keyPairs ++ tapDerivations ++ tree
    ++ pushIfSet (Key.new OutputTypes.TAP_INTERNAL_KEY) (tapInternalKey this) in
  amount <- writeUInt64LE (value this) ;;
  let keyPairs :=
    keyPairs
    ++ [KeyPair.mk (Key.new OutputTypes.AMOUNT) amount]
    ++ [KeyPair.mk (Key.new OutputTypes.SCRIPT)
          (match script this with Some s => s | None => [] end)]
    ++ pushIfSet (proprietaryKeyOf OutputProprietaryTypes.VALUE_COMMITMENT)
         (valueCommitment this)
    ++ pushIfSet (proprietaryKeyOf OutputProprietaryTypes.ASSET_COMMITMENT)
         (assetCommitment this)
    ++ pushIfSet (proprietaryKeyOf OutputProprietaryTypes.ASSET) (asset this)
    ++ pushIfSet (proprietaryKeyOf OutputProprietaryTypes.VALUE_RANGEPROOF)
         (valueRangeproof this)
    ++ pushIfSet (proprietaryKeyOf OutputProprietaryTypes.ASSET_SURJECTION_PROOF)
         (assetSurjectionProof this)
    ++ pushIfSet (proprietaryKeyOf OutputProprietaryTypes.BLINDING_PUBKEY)
         (blindingPubkey this)
    ++ pushIfSet (proprietaryKeyOf OutputProprietaryTypes.ECDH_PUBKEY)
         (ecdhPubkey this) in
  let bi := if greaterThanZero (blinderIndex this)
            then match blinderIndex this with Some n => n | None => 0 end
            else 0 in
  blinderIndexBuf <- writeUInt32LE bi ;;
  let keyPairs :=
    keyPairs
    ++ [KeyPair.mk (proprietaryKeyOf OutputProprietaryTypes.BLINDER_INDEX)
          blinderIndexBuf]
    ++ pushIfSet (proprietaryKeyOf OutputProprietaryTypes.BLIND_VALUE_PROOF)
         (blindValueProof this)
    ++ pushIfSet (proprietaryKeyOf OutputProprietaryTypes.BLIND_ASSET_PROOF)
         (blindAssetProof this)
    ++ map encodeProprietaryPair (orEmpty (proprietaryData this)) in
  (* keyPairs.concat(this.unknowns || []): the new array is dropped *)
  let _ := keyPairs ++ orEmpty (unknowns this) in
  Ok keyPairs.

Definition toBuffer (this : PsetOutput) : Result Buffer :=
  keyPairs <- getKeyPairs this ;;
  kpBuf <- mapM KeyPair.toBuffer keyPairs ;;
  Ok (concat kpBuf).

(** ** Vocabulary of the specification *)

(** A field is present when it holds at least one byte (section 3). *)
Definition present (buf : option Buffer) : bool :=
  match buf with
  | Some (_ :: _) => true
  | _ => false
  end.

(** Section 3, invariant 5: any one of the five blinding fields is set. *)
Definition anyBlindingFieldSet (this : PsetOutput) : bool :=
  present (valueCommitment this) || present (assetCommitment this)
  || present (valueRangeproof this) || present (assetSurjectionProof this)
  || present (ecdhPubkey this).

(** Section 3, invariant 5: all five blinding fields are set. *)
Definition allBlindingFieldsSet (this : PsetOutput) : bool :=
  present (valueCommitment this) && present (assetCommitment this)
  && present (valueRangeproof this) && present (assetSurjectionProof this)
  && present (ecdhPubkey this).

(** The first check of [sanityCheck] throws. *)
Definition valuePairingThrows (this : PsetOutput) : bool :=
  (0 <? value this)
  && strictNotEqual (isSet (valueCommitment this)) (isSet (blindValueProof this)).

(** The second asset check of [sanityCheck] throws. *)
Definition assetPairingThrows (this : PsetOutput) : bool :=
  present (asset this)
  && strictNotEqual (isSet (assetCommitment this)) (isSet (blindAssetProof this)).

(** A record with all five blinding fields and the given blinder index. *)
Definition fullyBlindedOutput (index : option Z) : PsetOutput :=
  set_blinderIndex index
    (set_valueCommitment (Some (repeat x08 33))
    (set_assetCommitment (Some (repeat x0a 33))
    (set_valueRangeproof (Some [x01; x02; x03])
    (set_assetSurjectionProof (Some [x04; x05])
    (set_ecdhPubkey (Some (repeat x02 33))
       (newPsetOutput None None None)))))).

(** The bytes of a record followed by the empty key that closes it. *)
Definition toStream (this : PsetOutput) : Result Buffer :=
  buf <- toBuffer this ;; Ok (buf ++ [x00]).


(** The named fields that may occur once on the wire (section 3,
    invariant 1). *)
Inductive NamedField : Type :=
| FRedeemScript | FWitnessScript | FAmount | FScript | FTapTree
| FTapInternalKey | FValueCommitment | FAsset | FAssetCommitment
| FValueRangeproof | FAssetSurjectionProof | FBlindingPubkey | FEcdhPubkey
| FBlinderIndex | FBlindValueProof | FBlindAssetProof.

Definition proprietaryField (subType : byte) : option NamedField :=
  if Byte.eqb subType OutputProprietaryTypes.VALUE_COMMITMENT then Some FValueCommitment
  else if Byte.eqb subType OutputProprietaryTypes.ASSET then Some FAsset
  else if Byte.eqb subType OutputProprietaryTypes.ASSET_COMMITMENT then Some FAssetCommitment
  else if Byte.eqb subType OutputProprietaryTypes.VALUE_RANGEPROOF then Some FValueRangeproof
  else if Byte.eqb subType OutputProprietaryTypes.ASSET_SURJECTION_PROOF
       then Some FAssetSurjectionProof
  else if Byte.eqb subType OutputProprietaryTypes.BLINDING_PUBKEY then Some FBlindingPubkey
  else if Byte.eqb subType OutputProprietaryTypes.ECDH_PUBKEY then Some FEcdhPubkey
  else if Byte.eqb subType OutputProprietaryTypes.BLINDER_INDEX then Some FBlinderIndex
  else if Byte.eqb subType OutputProprietaryTypes.BLIND_VALUE_PROOF then Some FBlindValueProof
  else if Byte.eqb subType OutputProprietaryTypes.BLIND_ASSET_PROOF then Some FBlindAssetProof
  else None.

(** The named field a pair addresses, if any. *)
Definition fieldOf (kp : KeyPair.t) : option NamedField :=
  let kt := Key.keyType (KeyPair.key kp) in
  if Byte.eqb kt OutputTypes.REDEEM_SCRIPT then Some FRedeemScript
  else if Byte.eqb kt OutputTypes.WITNESS_SCRIPT then Some FWitnessScript
  else if Byte.eqb kt OutputTypes.AMOUNT then Some FAmount
  else if Byte.eqb kt OutputTypes.SCRIPT then Some FScript
  else if Byte.eqb kt OutputTypes.TAP_TREE then Some FTapTree
  else if Byte.eqb kt OutputTypes.TAP_INTERNAL_KEY then Some FTapInternalKey
  else if Byte.eqb kt OutputTypes.PROPRIETARY then
    match ProprietaryData.fromKeyPair kp with
    | Ok data =>
      if buffer_eqb (ProprietaryData.identifier data) magicPrefix
      then proprietaryField (ProprietaryData.subType data)
      else None
    | Throw _ => None
    end
  else None.

(** The name the duplicate-field error carries. *)
Definition fieldName (f : NamedField) : string :=
  match f with
  | FRedeemScript => "redeem script"
  | FWitnessScript => "witness script"
  | FAmount => "value"
  | FScript => "script"
  | FTapTree => "taproot tree"
  | FTapInternalKey => "taproot internal key"
  | FValueCommitment => "value commitment"
  | FAsset => "asset"
  | FAssetCommitment => "asset commitment"
  | FValueRangeproof => "value range proof"
  | FAssetSurjectionProof => "asset surjection proof"
  | FBlindingPubkey => "blinding pubkey"
  | FEcdhPubkey => "ecdh pubkey"
  | FBlinderIndex => "blinder index"
  | FBlindValueProof => "blind value proof"
  | FBlindAssetProof => "blind asset proof"
  end.

Definition isSome {A} (x : option A) : bool :=
  match x with Some _ => true | None => false end.

(** The test the decoder makes on the record before it assigns a field. *)
Definition occupied (f : NamedField) (o : PsetOutput) : bool :=
  match f with
  | FRedeemScript => truthy (isSet (redeemScript o))
  | FWitnessScript => truthy (isSet (witnessScript o))
  | FAmount => 0 <? value o
  | FScript => truthy (isSet (script o))
  | FTapTree => isSome (tapTree o)
  | FTapInternalKey => truthy (isSet (tapInternalKey o))
  | FValueCommitment => truthy (isSet (valueCommitment o))
  | FAsset => truthy (isSet (asset o))
  | FAssetCommitment => truthy (isSet (assetCommitment o))
  | FValueRangeproof => truthy (isSet (valueRangeproof o))
  | FAssetSurjectionProof => truthy (isSet (assetSurjectionProof o))
  | FBlindingPubkey => truthy (isSet (blindingPubkey o))
  | FEcdhPubkey => truthy (isSet (ecdhPubkey o))
  | FBlinderIndex => isSome (blinderIndex o)
  | FBlindValueProof => truthy (isSet (blindValueProof o))
  | FBlindAssetProof => truthy (isSet (blindAssetProof o))
  end.

(** Whether the value of a pair leaves its field occupied once assigned:
    a non-zero amount, a non-empty byte string; the taproot tree and the
    blinder index are occupied by any value. *)
Definition carriesValue (f : NamedField) (kp : KeyPair.t) : bool :=
  match f with
  | FAmount =>
    match readUInt64LE (KeyPair.value kp) 0 with
    | Ok n => 0 <? n
    | Throw _ => false
    end
  | FTapTree | FBlinderIndex => true
  | _ => 0 <? len (KeyPair.value kp)
  end.

(** *** Well-formed records

    The records the round trip is about (section 8): fixed-size fields have
    their mandated length (section 3, invariant 2), derivation keys are
    unique, derivations are ones the BIP32 codec reads back, and a field or
    list that is set is not empty. *)

Definition wellFormedBip32 (d : Bip32Derivation) : Prop :=
  len (pubkey d) = 33
  /\ decodeBip32Derivation (encodeBIP32Derivation (masterFingerprint d) (path d))
     = Ok (masterFingerprint d, path d).

Definition wellFormedTapBip32 (d : TapBip32Derivation) : Prop :=
  len (tapPubkey d) = 33
  /\ Forall (fun h => len h = 32) (leafHashes d)
  /\ Z.of_nat (length (leafHashes d)) <= 4294967295
  /\ decodeBip32Derivation (encodeBIP32Derivation (tapMasterFingerprint d) (tapPath d))
     = Ok (tapMasterFingerprint d, tapPath d).

Definition wellFormedProprietary (data : ProprietaryData.t) : Prop :=
  ProprietaryData.identifier data = magicPrefix
  /\ proprietaryField (ProprietaryData.subType data) = None.

(** An optional byte string of [n] bytes. *)
Definition sized (n : Z) (buf : option Buffer) : Prop :=
  forall b, buf = Some b -> len b = n.

Record wellFormed (R : PsetOutput) : Prop := {
  wf_redeemScript : redeemScript R <> Some [];
  wf_witnessScript : witnessScript R <> Some [];
  wf_bip32Derivation_set : bip32Derivation R <> Some [];
  wf_bip32Derivation : Forall wellFormedBip32 (orEmpty (bip32Derivation R));
  wf_bip32Derivation_keys : NoDup (map pubkey (orEmpty (bip32Derivation R)));
  wf_tapBip32Derivation_set : tapBip32Derivation R <> Some [];
  wf_tapBip32Derivation :
    Forall wellFormedTapBip32 (orEmpty (tapBip32Derivation R));
  wf_tapBip32Derivation_keys :
    NoDup (map tapPubkey (orEmpty (tapBip32Derivation R)));
  wf_tapInternalKey : sized 32 (tapInternalKey R);
  wf_valueCommitment : sized 33 (valueCommitment R);
  wf_asset : asset R = Some [] \/ exists a, asset R = Some a /\ len a = 32;
  wf_assetCommitment : sized 33 (assetCommitment R);
  wf_valueRangeproof : valueRangeproof R <> Some [];
  wf_assetSurjectionProof : assetSurjectionProof R <> Some [];
  wf_blindingPubkey : sized 33 (blindingPubkey R);
  wf_ecdhPubkey : sized 33 (ecdhPubkey R);
  wf_blinderIndex : forall n, blinderIndex R = Some n -> 0 <= n;
  wf_blindValueProof : blindValueProof R <> Some [];
  wf_blindAssetProof : blindAssetProof R <> Some [];
  wf_proprietaryData_set : proprietaryData R <> Some [];
  wf_proprietaryData :
    Forall wellFormedProprietary (orEmpty (proprietaryData R));
  wf_unknowns : unknowns R = None
}.

(** What decoding makes of the two fields the encoder always emits: an
    unset script comes back empty, an unset blinder index comes back 0. *)
Definition normalize (R : PsetOutput) : PsetOutput :=
  set_script (Some (match script R with Some s => s | None => [] end))
    (set_blinderIndex
       (Some (match blinderIndex R with Some n => n | None => 0 end)) R).

(** The list field after [l] has been pushed entry by entry. *)
Definition appended {A} (cur : option (list A)) (l : list A) : option (list A) :=
  match l with
  | [] => cur
  | _ => Some (orEmpty cur ++ l)
  end.

(** ** Classification helpers *)

(** [isTaproot]: a defined internal key or tree, a non-empty list of
    taproot derivations, or a script that [isP2TR] recognises.  [isP2TR]
    belongs to utils.ts, which is not part of the source tree: it is a
    parameter. *)
Definition isTaproot (isP2TR : Buffer -> bool) (this : PsetOutput) : bool :=
  isSome (tapInternalKey this)
  || isSome (tapTree this)
  || match tapBip32Derivation this with
     | Some l => negb (Nat.eqb (length l) 0)
     | None => false
     end
  || match script this with
     | Some s => isP2TR s
     | None => false
     end.

(** ** Vocabulary for decoded records *)

(** The type codes the decoder switch has a case for. *)
Definition isKnownType (kt : byte) : bool :=
  Byte.eqb kt OutputTypes.REDEEM_SCRIPT
  || Byte.eqb kt OutputTypes.WITNESS_SCRIPT
  || Byte.eqb kt OutputTypes.BIP32_DERIVATION
  || Byte.eqb kt OutputTypes.AMOUNT
  || Byte.eqb kt OutputTypes.SCRIPT
  || Byte.eqb kt OutputTypes.TAP_BIP32_DERIVATION
  || Byte.eqb kt OutputTypes.TAP_TREE
  || Byte.eqb kt OutputTypes.TAP_INTERNAL_KEY
  || Byte.eqb kt OutputTypes.PROPRIETARY.

Definition isUnknownPair (kp : KeyPair.t) : bool :=
  negb (isKnownType (Key.keyType (KeyPair.key kp))).

(** The proprietary entry of a pair under the registered identifier whose
    sub-type is none of the ten named ones. *)
Definition unnamedProprietary (kp : KeyPair.t) : list ProprietaryData.t :=
  if Byte.eqb (Key.keyType (KeyPair.key kp)) OutputTypes.PROPRIETARY then
    match ProprietaryData.fromKeyPair kp with
    | Ok data =>
      if buffer_eqb (ProprietaryData.identifier data) magicPrefix then
        match proprietaryField (ProprietaryData.subType data) with
        | None => [data]
        | Some _ => []
        end
      else []
    | Throw _ => []
    end
  else [].

Definition isTaprootPair (kp : KeyPair.t) : bool :=
  let kt := Key.keyType (KeyPair.key kp) in
  Byte.eqb kt OutputTypes.TAP_INTERNAL_KEY
  || Byte.eqb kt OutputTypes.TAP_TREE
  || Byte.eqb kt OutputTypes.TAP_BIP32_DERIVATION.

Definition NamedField_eq_dec (a b : NamedField) : {a = b} + {a <> b}.
Proof. decide equality. Defined.

(** The pair addresses the named field [f]. *)
Definition addresses (f : NamedField) (kp : KeyPair.t) : bool :=
  match fieldOf kp with
  | Some g => if NamedField_eq_dec g f then true else false
  | None => false
  end.

(** The length the decoder demands of the value of a named field. *)
Definition mandatedLength (f : NamedField) : option Z :=
  match f with
  | FAmount => Some 8
  | FTapInternalKey | FAsset => Some 32
  | FValueCommitment | FAssetCommitment | FBlindingPubkey | FEcdhPubkey => Some 33
  | FBlinderIndex => Some 4
  | _ => None
  end.

Definition lengthError (f : NamedField) : string :=
  match f with
  | FAmount => "Invalid output amount length"
  | FTapInternalKey => "Invalid output taproot internal key length"
  | FValueCommitment => "Invalid output value commitment length"
  | FAsset => "Invalid output asset length"
  | FAssetCommitment => "Invalid output asset commitment length"
  | FBlindingPubkey => "Invalid output blinding pubkey length"
  | FEcdhPubkey => "Invalid output ecdh pubkey length"
  | FBlinderIndex => "Invalid output blinder index length"
  | _ => ""
  end.

(** What holds of every record the decoder builds. *)
Record Decoded (o : PsetOutput) : Prop := {
  dec_value : 0 <= value o;
  dec_blinderIndex : forall n, blinderIndex o = Some n -> 0 <= n <= 4294967295;
  dec_tapInternalKey : sized 32 (tapInternalKey o);
  dec_valueCommitment : sized 33 (valueCommitment o);
  dec_asset : exists a, asset o = Some a /\ (len a = 0 \/ len a = 32);
  dec_assetCommitment : sized 33 (assetCommitment o);
  dec_blindingPubkey : sized 33 (blindingPubkey o);
  dec_ecdhPubkey : sized 33 (ecdhPubkey o);
  dec_tapTree :
    forall t, tapTree o = Some t ->
    Forall (fun leaf => len (leafScript leaf) <= MAX_SAFE_INTEGER) (leaves t)
}.

Record DecodedLists (o : PsetOutput) : Prop := {
  dec_bip32_set : bip32Derivation o <> Some [];
  dec_bip32_keys :
    Forall (fun d => len (pubkey d) = 33) (orEmpty (bip32Derivation o));
  dec_bip32_unique : NoDup (map pubkey (orEmpty (bip32Derivation o)));
  dec_tapBip32_set : tapBip32Derivation o <> Some [];
  dec_tapBip32_keys :
    Forall (fun d => len (tapPubkey d) = 33
                     /\ Z.of_nat (length (leafHashes d)) <= 4294967295
                     /\ Forall (fun h => len h <= 32) (leafHashes d))
           (orEmpty (tapBip32Derivation o));
  dec_tapBip32_unique : NoDup (map tapPubkey (orEmpty (tapBip32Derivation o)));
  dec_proprietaryData_set : proprietaryData o <> Some [];
  dec_proprietaryData :
    Forall wellFormedProprietary (orEmpty (proprietaryData o));
  dec_unknowns_set : unknowns o <> Some [];
  dec_unknowns : Forall (fun kp => isUnknownPair kp = true) (orEmpty (unknowns o))
}.

(** The two derivation lists: the keys held, the type code of their pairs
    and the name the duplicate-field error carries. *)
Definition derivationKeys (tap : bool) (o : PsetOutput) : list Buffer :=
  if tap then map tapPubkey (orEmpty (tapBip32Derivation o))
  else map pubkey (orEmpty (bip32Derivation o)).

Definition derivationType (tap : bool) : byte :=
  if tap then OutputTypes.TAP_BIP32_DERIVATION else OutputTypes.BIP32_DERIVATION.

Definition derivationName (tap : bool) : string :=
  if tap then "taproot bip32 derivation" else "bip32 derivation".

Definition derivationKeyError (tap : bool) : string :=
  if tap then "Invalid output bip32 derivation pubkey length"
  else "Invalid output bip32 pubkey length".

(** The records the encoder can lay out as key pairs. *)
Record encodable (R : PsetOutput) : Prop := {
  enc_value : 0 <= value R <= 18446744073709551615;
  enc_blinderIndex : forall n, blinderIndex R = Some n -> n <= 4294967295;
  enc_leafHashes :
    Forall (fun d => Z.of_nat (length (leafHashes d)) <= MAX_SAFE_INTEGER)
           (orEmpty (tapBip32Derivation R));
  enc_tapTree :
    forall t, tapTree R = Some t ->
    Forall (fun leaf => len (leafScript leaf) <= MAX_SAFE_INTEGER) (leaves t)
}.

(** The named fields the encoder writes a pair for: the amount, the script
    and the blinder index always, the taproot tree when defined, a byte
    string when it holds at least one byte. *)
Definition emits (f : NamedField) (R : PsetOutput) : bool :=
  match f with
  | FAmount | FScript | FBlinderIndex => true
  | FTapTree => isSome (tapTree R)
  | FRedeemScript => present (redeemScript R)
  | FWitnessScript => present (witnessScript R)
  | FTapInternalKey => present (tapInternalKey R)
  | FValueCommitment => present (valueCommitment R)
  | FAsset => present (asset R)
  | FAssetCommitment => present (assetCommitment R)
  | FValueRangeproof => present (valueRangeproof R)
  | FAssetSurjectionProof => present (assetSurjectionProof R)
  | FBlindingPubkey => present (blindingPubkey R)
  | FEcdhPubkey => present (ecdhPubkey R)
  | FBlindValueProof => present (blindValueProof R)
  | FBlindAssetProof => present (blindAssetProof R)
  end.

(** ** What the encoder distinguishes

    [canonical R] is [R] with the differences the encoder does not look at
    removed: an empty optional byte string or list reads as unset, an unset
    script as the empty one, a blinder index that is unset or not positive
    as 0, an unset asset as the empty one; unknown pairs and the identifier
    of proprietary entries are not encoded. *)

Definition dropEmpty {A} (x : option (list A)) : option (list A) :=
  match x with
  | Some (_ :: _) => x
  | _ => None
  end.

Definition underMagicPrefix (data : ProprietaryData.t) : ProprietaryData.t :=
  ProprietaryData.mk magicPrefix (ProprietaryData.subType data)
    (ProprietaryData.keyData data) (ProprietaryData.value data).

Definition canonical (R : PsetOutput) : PsetOutput :=
  {| redeemScript := dropEmpty (redeemScript R);
     witnessScript := dropEmpty (witnessScript R);
     bip32Derivation := dropEmpty (bip32Derivation R);
     value := value R;
     script := Some (match script R with Some s => s | None => [] end);
     tapBip32Derivation := dropEmpty (tapBip32Derivation R);
     tapTree := tapTree R;
     tapInternalKey := dropEmpty (tapInternalKey R);
     valueCommitment := dropEmpty (valueCommitment R);
     asset := Some (match asset R with Some a => a | None => [] end);
     assetCommitment := dropEmpty (assetCommitment R);
     valueRangeproof := dropEmpty (valueRangeproof R);
     assetSurjectionProof := dropEmpty (assetSurjectionProof R);
     blindingPubkey := dropEmpty (blindingPubkey R);
     ecdhPubkey := dropEmpty (ecdhPubkey R);
     blinderIndex :=
       Some (if greaterThanZero (blinderIndex R)
             then match blinderIndex R with Some n => n | None => 0 end
             else 0);
     blindValueProof := dropEmpty (blindValueProof R);
     blindAssetProof := dropEmpty (blindAssetProof R);
     proprietaryData :=
       dropEmpty (option_map (map underMagicPrefix) (proprietaryData R));
     unknowns := None |}.

End Output.

Arguments PsetOutput Path : clear implicits.
Arguments Bip32Derivation Path : clear implicits.
Arguments TapBip32Derivation Path : clear implicits.

(** ** A codec instance to run the definitions

    Four fingerprint bytes followed by the child numbers of the path, each
    a 32-bit little-endian integer. *)

Fixpoint readPath (fuel : nat) (buf : Buffer) : list Z :=
  match fuel with
  | O => []
  | S fuel' =>
    match buf with
    | a :: b :: c :: d :: rest => readUIntLE [a; b; c; d] :: readPath fuel' rest
    | _ => []
    end
  end.

#[export] Instance childNumberCodec : Bip32Codec (list Z) := {|
  decodeBip32Derivation buf :=
    if (len buf mod 4 =? 0) && (4 <=? len buf)
    then Ok (slice buf 0 4, readPath (length buf) (sliceFrom buf 4))
    else Throw (Error "Invalid BIP32 derivation format");
  encodeBIP32Derivation fingerprint path :=
    slice fingerprint 0 4 ++ concat (map (writeUIntLE 4) path)
|}.

(** ** Example records and streams *)

(** A stream of pairs closed by the empty key. *)
Definition encodePairs (kps : list KeyPair.t) : Result Buffer :=
  bufs <- mapM KeyPair.toBuffer kps ;;
  Ok (concat bufs ++ [x00]).

(** Section 8: 32 zero bytes except a trailing 1. *)
Definition exampleAsset : Buffer := repeat x00 31 ++ [x01].

Definition amountPair (n : Z) : KeyPair.t :=
  KeyPair.mk (Key.new OutputTypes.AMOUNT) (writeUIntLE 8 n).

Definition assetPair : KeyPair.t :=
  KeyPair.mk (proprietaryKeyOf OutputProprietaryTypes.ASSET) exampleAsset.

Definition redeemScriptPair (s : Buffer) : KeyPair.t :=
  KeyPair.mk (Key.new OutputTypes.REDEEM_SCRIPT) s.

Definition blinderIndexPair (n : Z) : KeyPair.t :=
  KeyPair.mk (proprietaryKeyOf OutputProprietaryTypes.BLINDER_INDEX)
             (writeUIntLE 4 n).

Definition blindValueProofPair (proof : Buffer) : KeyPair.t :=
  KeyPair.mk (proprietaryKeyOf OutputProprietaryTypes.BLIND_VALUE_PROOF) proof.

Definition ecdhPubkeyPair : KeyPair.t :=
  KeyPair.mk (proprietaryKeyOf OutputProprietaryTypes.ECDH_PUBKEY)
             (repeat x02 33).

Definition tapTreePair (value : Buffer) : KeyPair.t :=
  KeyPair.mk (Key.new OutputTypes.TAP_TREE) value.

(** A PROPRIETARY pair whose identifier is the text abcd, sub-type 1. *)
Definition foreignPair : KeyPair.t :=
  KeyPair.mk (Key.mk OutputTypes.PROPRIETARY [x04; x61; x62; x63; x64; x01])
             [x2a].

(** A pair whose type code 0xf0 is not in the registry. *)
Definition unknownPair : KeyPair.t :=
  KeyPair.mk (Key.mk xf0 [x01]) [x02; x03].

(** One leaf (depth 1, version 0xc0) that declares five script bytes and
    carries two. *)
Definition truncatedTapTree : Buffer := [x01; xc0; x05; xaa; xbb].

(** Section 8: two leaves of depth 1 and version 0xc0, with scripts of
    three and five bytes. *)
Definition exampleLeaves : list TapLeaf :=
  [mkTapLeaf x01 xc0 [x51; x52; x53];
   mkTapLeaf x01 xc0 [x51; x52; x53; x54; x55]].

(** A plaintext record built with the constructor: script and blinder index
    are unset. *)
Definition plainOutput : PsetOutput (list Z) :=
  newPsetOutput (Some 5) (Some exampleAsset) None.

(** Value above zero, no value commitment, an empty blind value proof. *)
Definition emptyProofOutput : PsetOutput (list Z) :=
  set_blindValueProof (Some []) (newPsetOutput (Some 1) (Some exampleAsset) None).

(** Only [ecdhPubkey] among the five blinding fields. *)
Definition onlyEcdhOutput : PsetOutput (list Z) :=
  set_ecdhPubkey (Some (repeat x02 33))
    (newPsetOutput None (Some exampleAsset) None).

(** An asset with its commitment but no blind asset proof. *)
Definition unpairedAssetOutput : PsetOutput (list Z) :=
  set_assetCommitment (Some (repeat x0a 33))
    (newPsetOutput None (Some exampleAsset) None).

Definition blindAssetProofPair (proof : Buffer) : KeyPair.t :=
  KeyPair.mk (proprietaryKeyOf OutputProprietaryTypes.BLIND_ASSET_PROOF) proof.

(** A 32-byte asset, no asset commitment, an empty blind asset proof. *)
Definition emptyAssetProofOutput : PsetOutput (list Z) :=
  set_blindAssetProof (Some []) (newPsetOutput None (Some exampleAsset) None).

(** Value above zero with its commitment but no blind value proof, and
    neither asset nor asset commitment. *)
Definition valueCommitmentOnlyOutput : PsetOutput (list Z) :=
  set_valueCommitment (Some (repeat x08 33)) (newPsetOutput (Some 1) None None).

(** A record with every kind of field but unknown pairs. *)
Definition richOutput : PsetOutput (list Z) :=
  {| redeemScript := Some [x51];
     witnessScript := Some [x52; x53];
     bip32Derivation :=
       Some [mkBip32Derivation (repeat x02 33) [xde; xad; xbe; xef] [2147483692; 0; 1];
             mkBip32Derivation (repeat x03 33) [x01; x02; x03; x04] []];
     value := 100000;
     script := Some [x00; x14];
     tapBip32Derivation :=
       Some [mkTapBip32Derivation (repeat x04 33) [x0a; x0b; x0c; x0d] [86; 1]
               [repeat x11 32; repeat x22 32]];
     tapTree := Some (mkTapTree exampleLeaves);
     tapInternalKey := Some (repeat x05 32);
     valueCommitment := None;
     asset := Some exampleAsset;
     assetCommitment := None;
     valueRangeproof := None;
     assetSurjectionProof := None;
     blindingPubkey := Some (repeat x06 33);
     ecdhPubkey := None;
     blinderIndex := Some 3;
     blindValueProof := None;
     blindAssetProof := None;
     proprietaryData :=
       Some [ProprietaryData.mk magicPrefix x7f [x01; x02] [x2a]];
     unknowns := None |}.

Definition blindingPubkeyPair : KeyPair.t :=
  KeyPair.mk (proprietaryKeyOf OutputProprietaryTypes.BLINDING_PUBKEY)
             (repeat x06 33).

Definition tapInternalKeyPair : KeyPair.t :=
  KeyPair.mk (Key.new OutputTypes.TAP_INTERNAL_KEY) (repeat x05 32).

(** A PROPRIETARY pair under the registered identifier, sub-type 0x7f. *)
Definition unnamedProprietaryPair : KeyPair.t :=
  KeyPair.mk (Key.mk OutputTypes.PROPRIETARY
                (ProprietaryData.proprietaryKey x7f [x01; x02]))
             [x2a].

(** A derivation pair under [key]: fingerprint deadbeef, path of one child. *)
Definition bip32Pair (key : Buffer) : KeyPair.t :=
  KeyPair.mk (Key.mk OutputTypes.BIP32_DERIVATION key)
             [xde; xad; xbe; xef; x01; x00; x00; x00].

(** An ASSET pair of one byte. *)
Definition shortAssetPair : KeyPair.t :=
  KeyPair.mk (proprietaryKeyOf OutputProprietaryTypes.ASSET) [x01].

(** A stream the decoder accepts, with pairs of every destiny: named
    fields, an unknown type, an unnamed proprietary sub-type and a foreign
    identifier. *)
Definition examplePairs : list KeyPair.t :=
  [amountPair 5; assetPair; blindingPubkeyPair; tapInternalKeyPair;
   unknownPair; unnamedProprietaryPair; foreignPair].

Definition streamOf (kps : list KeyPair.t) : Buffer :=
  match encodePairs kps with
  | Ok stream => stream
  | Throw _ => []
  end.

Definition decoded (stream : Buffer) : PsetOutput (list Z) :=
  match fromBuffer stream with
  | Ok o => o
  | Throw _ => newPsetOutput None None None
  end.

(** A record that is not in canonical form: an empty redeem script and
    blind value proof, no script, no blinder index, an unknown pair. *)
Definition looseOutput : PsetOutput (list Z) :=
  set_unknowns (Some [unknownPair])
    (set_redeemScript (Some [])
       (set_blindValueProof (Some []) plainOutput)).

(** * Properties *)

(** ** Bytes and little-endian integers *)

Lemma byteToZ_range (b : byte) : 0 <= byteToZ b < 256.
Proof.
  unfold byteToZ. pose proof (Byte.to_N_bounded b). lia.
Qed.

Lemma byteOfZ_byteToZ (b : byte) : byteOfZ (byteToZ b) = b.
Proof.
  unfold byteOfZ. pose proof (byteToZ_range b) as Hr.
  rewrite Z.mod_small by exact Hr.
  unfold byteToZ. rewrite N2Z.id, Byte.of_to_N. reflexivity.
Qed.

Lemma byteToZ_byteOfZ (z : Z) : byteToZ (byteOfZ z) = z mod 256.
Proof.
  unfold byteOfZ, byteToZ.
  pose proof (Z.mod_pos_bound z 256 ltac:(lia)) as Hm.
  destruct (Byte.of_N (Z.to_N (z mod 256))) as [b|] eqn:E.
  - apply Byte.to_of_N in E. rewrite E. lia.
  - apply Byte.of_N_None_iff in E. lia.
Qed.

Lemma length_writeUIntLE (n : nat) (z : Z) : length (writeUIntLE n z) = n.
Proof.
  revert z; induction n as [|n IH]; intro z; simpl; [reflexivity|].
  now rewrite IH.
Qed.

Lemma readUIntLE_range (bs : Buffer) :
  0 <= readUIntLE bs < 256 ^ Z.of_nat (length bs).
Proof.
  induction bs as [|b bs IH].
  - simpl. lia.
  - cbn [readUIntLE length]. rewrite Nat2Z.inj_succ, Z.pow_succ_r by lia.
    pose proof (byteToZ_range b). lia.
Qed.

Lemma readUIntLE_writeUIntLE (n : nat) (z : Z) :
  0 <= z < 256 ^ Z.of_nat n -> readUIntLE (writeUIntLE n z) = z.
Proof.
  revert z; induction n as [|n IH]; intros z Hz.
  - simpl in *. lia.
  - cbn [writeUIntLE readUIntLE].
    rewrite Nat2Z.inj_succ, Z.pow_succ_r in Hz by lia.
    rewrite byteToZ_byteOfZ, IH.
    + pose proof (Z.div_mod z 256 ltac:(lia)). lia.
    + split.
      * apply Z.div_pos; lia.
      * apply Z.div_lt_upper_bound; lia.
Qed.


(** ** Slices *)

Lemma len_app (a b : Buffer) : len (a ++ b) = len a + len b.
Proof. unfold len. rewrite length_app. lia. Qed.

Lemma len_nonneg (a : Buffer) : 0 <= len a.
Proof. unfold len. lia. Qed.

Lemma len_cons (x : byte) (a : Buffer) : len (x :: a) = 1 + len a.
Proof. unfold len. cbn [length]. lia. Qed.

Lemma slice_spec (buf : Buffer) (s e : Z) :
  0 <= s <= e ->
  slice buf s e = firstn (Z.to_nat (e - s)) (skipn (Z.to_nat s) buf).
Proof.
  intros H. unfold slice, len.
  destruct (Z_lt_le_dec s (Z.of_nat (length buf))) as [Hs|Hs].
  - rewrite (Z.min_l s) by lia.
    destruct (Z_lt_le_dec e (Z.of_nat (length buf))) as [He|He].
    + rewrite Z.min_l by lia. reflexivity.
    + rewrite Z.min_r by lia.
      rewrite !firstn_all2; [reflexivity| |]; rewrite length_skipn; lia.
  - rewrite !Z.min_r by lia.
    rewrite !skipn_all2 by lia. now rewrite !firstn_nil.
Qed.

Lemma slice_app_mid (pre b rest : Buffer) (n : Z) :
  n = len b -> slice (pre ++ b ++ rest) (len pre) (len pre + n) = b.
Proof.
  intros ->. pose proof (len_nonneg pre). pose proof (len_nonneg b).
  rewrite slice_spec by lia. unfold len.
  rewrite Nat2Z.id, skipn_app, skipn_all, Nat.sub_diag. cbn [skipn app].
  replace (Z.to_nat (_ + _ - _)) with (length b) by lia.
  rewrite firstn_app, firstn_all, Nat.sub_diag. cbn [firstn]. apply app_nil_r.
Qed.

Lemma slice_app_clamped (pre b : Buffer) (n : Z) :
  len b <= n -> slice (pre ++ b) (len pre) (len pre + n) = b.
Proof.
  intros Hn. pose proof (len_nonneg pre). pose proof (len_nonneg b).
  rewrite slice_spec by lia. unfold len in *.
  rewrite Nat2Z.id, skipn_app, skipn_all, Nat.sub_diag. cbn [skipn app].
  apply firstn_all2. lia.
Qed.

Lemma sliceFrom_app (pre rest : Buffer) : sliceFrom (pre ++ rest) (len pre) = rest.
Proof.
  unfold sliceFrom. rewrite len_app.
  apply slice_app_clamped. lia.
Qed.

Lemma slice_prefix (b rest : Buffer) (n : Z) :
  n = len b -> slice (b ++ rest) 0 n = b.
Proof.
  intros ->. apply (slice_app_mid [] b rest). reflexivity.
Qed.

Lemma readUIntAt_app (w : Z) (pre bs rest : Buffer) :
  len bs = w -> readUIntAt w (pre ++ bs ++ rest) (len pre) = Ok (readUIntLE bs).
Proof.
  intros Hw. unfold readUIntAt.
  rewrite !len_app. pose proof (len_nonneg rest).
  destruct (Z.leb_spec (len pre + w) (len pre + (len bs + len rest))); [|lia].
  rewrite slice_app_mid by lia. reflexivity.
Qed.

(** ** varuint *)

Lemma varuint_encode_cases (n : Z) (e : Buffer) :
  varuint.encode n = Ok e ->
  0 <= n <= MAX_SAFE_INTEGER /\
  ((n < 253 /\ e = [byteOfZ n]) \/
   (253 <= n <= 65535 /\ e = xfd :: writeUIntLE 2 n) \/
   (65535 < n <= 4294967295 /\ e = xfe :: writeUIntLE 4 n) \/
   (4294967295 < n /\
    e = xff :: writeUIntLE 4 (n mod 4294967296) ++ writeUIntLE 4 (n / 4294967296))).
Proof.
  unfold varuint.encode, varuint.checkUInt53, bind.
  destruct (Z.ltb_spec n 0); cbn [orb]; [discriminate|].
  destruct (Z.gtb_spec n MAX_SAFE_INTEGER); [discriminate|].
  intros He. injection He as <-. split; [lia|].
  destruct (Z.ltb_spec n 253); [left; split; [lia|reflexivity]|].
  destruct (Z.leb_spec n 65535); [right; left; split; [lia|reflexivity]|].
  destruct (Z.leb_spec n 4294967295); [right; right; left; split; [lia|reflexivity]|].
  right; right; right. split; [lia|reflexivity].
Qed.

Lemma varuint_encodingLength_encode (n : Z) (e : Buffer) :
  varuint.encode n = Ok e -> varuint.encodingLength n = Ok (len e).
Proof.
  intros He. destruct (varuint_encode_cases n e He) as [Hr Hc].
  unfold varuint.encodingLength, varuint.checkUInt53, bind.
  destruct (Z.ltb_spec n 0); [lia|].
  destruct (Z.gtb_spec n MAX_SAFE_INTEGER); [lia|]. cbn [orb].
  destruct Hc as [[H1 ->]|[[H1 ->]|[[H1 ->]|[H1 ->]]]].
  - destruct (Z.ltb_spec n 253); [reflexivity|lia].
  - destruct (Z.ltb_spec n 253); [lia|].
    destruct (Z.leb_spec n 65535); [reflexivity|lia].
  - destruct (Z.ltb_spec n 253); [lia|].
    destruct (Z.leb_spec n 65535); [lia|].
    destruct (Z.leb_spec n 4294967295); [reflexivity|lia].
  - destruct (Z.ltb_spec n 253); [lia|].
    destruct (Z.leb_spec n 65535); [lia|].
    destruct (Z.leb_spec n 4294967295); [lia|reflexivity].
Qed.

Lemma readUInt8_app (pre : Buffer) (b : byte) (rest : Buffer) :
  readUInt8 (pre ++ b :: rest) (len pre) = Ok (byteToZ b).
Proof.
  unfold readUInt8. change (pre ++ b :: rest) with (pre ++ [b] ++ rest).
  rewrite (readUIntAt_app 1 pre [b] rest) by reflexivity.
  cbn [readUIntLE]. f_equal. lia.
Qed.

Lemma readUIntAt_app_shift (w k : Z) (pre mid bs rest : Buffer) :
  len mid = k -> len bs = w ->
  readUIntAt w (pre ++ mid ++ bs ++ rest) (len pre + k) = Ok (readUIntLE bs).
Proof.
  intros Hk Hw. rewrite (app_assoc pre mid).
  replace (len pre + k) with (len (pre ++ mid)) by (rewrite len_app; lia).
  now apply readUIntAt_app.
Qed.

Lemma readUIntAt_cons_shift (w : Z) (pre : Buffer) (x : byte) (bs rest : Buffer) :
  len bs = w ->
  readUIntAt w (pre ++ x :: bs ++ rest) (len pre + 1) = Ok (readUIntLE bs).
Proof.
  intros Hw. apply (readUIntAt_app_shift w 1 pre [x] bs rest); [reflexivity|exact Hw].
Qed.

Lemma varuint_decode_encode (n : Z) (e pre rest : Buffer) :
  varuint.encode n = Ok e ->
  varuint.decode (pre ++ e ++ rest) (len pre) = Ok (n, len e).
Proof.
  intros He. destruct (varuint_encode_cases n e He) as [Hr Hc].
  unfold MAX_SAFE_INTEGER in Hr.
  unfold varuint.decode.
  destruct Hc as [[H1 ->]|[[H1 ->]|[[H1 ->]|[H1 ->]]]].
  - cbn [app]. rewrite readUInt8_app. cbn [bind].
    rewrite byteToZ_byteOfZ, Z.mod_small by lia.
    destruct (Z.ltb_spec n 253); [reflexivity|lia].
  - cbn [app]. rewrite readUInt8_app. cbn [bind].
    change (byteToZ xfd) with 253. cbn [Z.ltb Z.eqb Z.compare Pos.compare Pos.compare_cont Pos.eqb].
    unfold readUInt16LE.
    rewrite readUIntAt_cons_shift by reflexivity.
    cbn [bind]. rewrite readUIntLE_writeUIntLE by (cbn; lia). reflexivity.
  - cbn [app]. rewrite readUInt8_app. cbn [bind].
    change (byteToZ xfe) with 254. cbn [Z.ltb Z.eqb Z.compare Pos.compare Pos.compare_cont Pos.eqb].
    unfold readUInt32LE.
    rewrite readUIntAt_cons_shift by reflexivity.
    cbn [bind]. rewrite readUIntLE_writeUIntLE by (cbn; lia). reflexivity.
  - cbn [app]. rewrite readUInt8_app. cbn [bind].
    change (byteToZ xff) with 255. cbn [Z.ltb Z.eqb Z.compare Pos.compare Pos.compare_cont Pos.eqb].
    unfold readUInt32LE.
    rewrite <- app_assoc.
    rewrite readUIntAt_cons_shift by reflexivity.
    cbn [bind].
    pose proof (readUIntAt_app_shift 4 5 pre (xff :: writeUIntLE 4 (n mod 4294967296))
                  (writeUIntLE 4 (n / 4294967296)) rest eq_refl eq_refl) as H5.
    rewrite <- app_comm_cons in H5. rewrite H5. clear H5.
    cbn [bind].
    pose proof (Z.mod_pos_bound n 4294967296 ltac:(lia)).
    pose proof (Z.div_mod n 4294967296 ltac:(lia)).
    assert (0 <= n / 4294967296 < 4294967296).
    { split; [apply Z.div_pos; lia|apply Z.div_lt_upper_bound; lia]. }
    rewrite !readUIntLE_writeUIntLE by (cbn; lia).
    replace (n / 4294967296 * 4294967296 + n mod 4294967296) with n by lia.
    unfold varuint.checkUInt53, MAX_SAFE_INTEGER.
    destruct (Z.ltb_spec n 0); [lia|].
    destruct (Z.gtb_spec n 9007199254740991); [lia|]. reflexivity.
Qed.

(** ** The reader and the key/value pair codec *)

Lemma sliceFrom_skipn (r : Buffer) (n : Z) :
  0 <= n -> sliceFrom r n = skipn (Z.to_nat n) r.
Proof.
  intros Hn. unfold sliceFrom, slice, len.
  rewrite (Z.min_id (Z.of_nat (length r))).
  destruct (Z_lt_le_dec n (Z.of_nat (length r))) as [H|H].
  - rewrite Z.min_l by lia. apply firstn_all2. rewrite length_skipn. lia.
  - rewrite Z.min_r by lia. rewrite Z.sub_diag. cbn [Z.to_nat firstn].
    symmetry. apply skipn_all2. lia.
Qed.

Lemma varuint_decode_inv (buf : Buffer) (off n bytes : Z) :
  varuint.decode buf off = Ok (n, bytes) ->
  0 <= n <= MAX_SAFE_INTEGER /\ 1 <= bytes /\ off + bytes <= len buf.
Proof.
  unfold varuint.decode, readUInt8, readUInt16LE, readUInt32LE, readUIntAt.
  destruct (Z.leb_spec (off + 1) (len buf)) as [H1|H1]; [|discriminate].
  cbn [bind].
  pose proof (readUIntLE_range (slice buf off (off + 1))) as R1.
  destruct (Z.ltb_spec (readUIntLE (slice buf off (off + 1))) 253) as [Hf|Hf].
  { intros E. injection E as <- <-. unfold MAX_SAFE_INTEGER. lia. }
  destruct (Z.eqb_spec (readUIntLE (slice buf off (off + 1))) 253) as [Hf2|Hf2].
  { destruct (Z.leb_spec (off + 1 + 2) (len buf)) as [H2|H2]; [|discriminate].
    cbn [bind]. intros E. injection E as <- <-.
    pose proof (readUIntLE_range (slice buf (off + 1) (off + 1 + 2))) as R2.
    assert (Z.of_nat (length (slice buf (off + 1) (off + 1 + 2))) <= 2) as L2.
    { unfold slice. rewrite length_firstn. lia. }
    assert (256 ^ Z.of_nat (length (slice buf (off + 1) (off + 1 + 2))) <= 256 ^ 2)
      by (apply Z.pow_le_mono_r; lia).
    unfold MAX_SAFE_INTEGER. lia. }
  destruct (Z.eqb_spec (readUIntLE (slice buf off (off + 1))) 254) as [Hf3|Hf3].
  { destruct (Z.leb_spec (off + 1 + 4) (len buf)) as [H2|H2]; [|discriminate].
    cbn [bind]. intros E. injection E as <- <-.
    pose proof (readUIntLE_range (slice buf (off + 1) (off + 1 + 4))) as R2.
    assert (Z.of_nat (length (slice buf (off + 1) (off + 1 + 4))) <= 4) as L2.
    { unfold slice. rewrite length_firstn. lia. }
    assert (256 ^ Z.of_nat (length (slice buf (off + 1) (off + 1 + 4))) <= 256 ^ 4)
      by (apply Z.pow_le_mono_r; lia).
    unfold MAX_SAFE_INTEGER. lia. }
  destruct (Z.leb_spec (off + 1 + 4) (len buf)) as [H2|H2]; [|discriminate].
  destruct (Z.leb_spec (off + 5 + 4) (len buf)) as [H3|H3]; [|discriminate].
  cbn [bind]. unfold varuint.checkUInt53.
  match goal with |- context [(?a <? 0) || (?a >? MAX_SAFE_INTEGER)] =>
    destruct (Z.ltb_spec a 0); [discriminate|];
    destruct (Z.gtb_spec a MAX_SAFE_INTEGER); [discriminate|] end.
  cbn [orb bind]. intros E. injection E as <- <-. lia.
Qed.

Lemma readVarInt_shrinks (r r' : BufferReader) (n : Z) :
  BufferReader.readVarInt r = Ok (n, r') -> (length r' < length r)%nat /\ 0 <= n.
Proof.
  unfold BufferReader.readVarInt.
  destruct (varuint.decode r 0) as [[vi bytes]|] eqn:E; [|discriminate].
  cbn [bind]. intros H. injection H as <- <-.
  apply varuint_decode_inv in E. destruct E as (Hn & Hb & Hl).
  split; [|lia].
  rewrite sliceFrom_skipn by lia. rewrite length_skipn. unfold len in Hl. lia.
Qed.

Lemma readSlice_shrinks (r r' : BufferReader) (n : Z) (b : Buffer) :
  0 <= n -> BufferReader.readSlice n r = Ok (b, r') -> (length r' <= length r)%nat.
Proof.
  unfold BufferReader.readSlice. intros Hn.
  destruct (len r <? n); [discriminate|].
  intros E. injection E as <- <-.
  rewrite sliceFrom_skipn by lia. rewrite length_skipn. lia.
Qed.

Lemma readVarSlice_shrinks (r r' : BufferReader) (b : Buffer) :
  BufferReader.readVarSlice r = Ok (b, r') -> (length r' < length r)%nat.
Proof.
  unfold BufferReader.readVarSlice.
  destruct (BufferReader.readVarInt r) as [[n r1]|] eqn:E; [|discriminate].
  cbn [bind]. intros H.
  apply readVarInt_shrinks in E. destruct E as [E1 E2].
  apply readSlice_shrinks in H; lia.
Qed.

Lemma KeyPair_fromBuffer_shrinks (r r' : BufferReader) (kp : KeyPair.t) :
  KeyPair.fromBuffer r = Ok (kp, r') -> (length r' < length r)%nat.
Proof.
  unfold KeyPair.fromBuffer, Key.fromBuffer.
  destruct (BufferReader.readVarSlice r) as [[v r1]|] eqn:E1; [|discriminate].
  cbn [bind]. destruct v as [|kt kd]; [discriminate|]. cbn [bind].
  destruct (BufferReader.readVarSlice r1) as [[v2 r2]|] eqn:E2; [|discriminate].
  cbn [bind]. intros H. injection H as <- <-.
  apply readVarSlice_shrinks in E1, E2. lia.
Qed.

Lemma readVarSlice_encode (b n rest : Buffer) :
  varuint.encode (len b) = Ok n ->
  BufferReader.readVarSlice (n ++ b ++ rest) = Ok (b, rest).
Proof.
  intros He. unfold BufferReader.readVarSlice, BufferReader.readVarInt.
  pose proof (varuint_decode_encode (len b) n [] (b ++ rest) He) as Hd.
  cbn [app] in Hd. change (len []) with 0 in Hd. rewrite Hd. cbn [bind].
  rewrite sliceFrom_app. unfold BufferReader.readSlice.
  rewrite len_app. pose proof (len_nonneg rest).
  destruct (Z.ltb_spec (len b + len rest) (len b)); [lia|].
  rewrite slice_prefix by reflexivity.
  rewrite sliceFrom_app. reflexivity.
Qed.

Lemma Key_fromBuffer_toBuffer (k : Key.t) (kbuf rest : Buffer) :
  Key.toBuffer k = Ok kbuf -> Key.fromBuffer (kbuf ++ rest) = Ok (k, rest).
Proof.
  unfold Key.toBuffer, Key.fromBuffer.
  destruct (varuint.encode (1 + len (Key.keyData k))) as [n|] eqn:E; [|discriminate].
  cbn [bind]. intros H. injection H as <-.
  rewrite <- app_assoc.
  change ((Key.keyType k :: Key.keyData k) ++ rest)
    with ((Key.keyType k :: Key.keyData k) ++ rest).
  rewrite readVarSlice_encode by (rewrite len_cons; exact E).
  cbn [bind]. destruct k; reflexivity.
Qed.

Lemma KeyPair_fromBuffer_toBuffer (kp : KeyPair.t) (buf rest : Buffer) :
  KeyPair.toBuffer kp = Ok buf -> KeyPair.fromBuffer (buf ++ rest) = Ok (kp, rest).
Proof.
  unfold KeyPair.toBuffer, KeyPair.fromBuffer.
  destruct (Key.toBuffer (KeyPair.key kp)) as [k|] eqn:Ek; [|discriminate].
  cbn [bind].
  destruct (varuint.encode (len (KeyPair.value kp))) as [n|] eqn:En; [|discriminate].
  cbn [bind]. intros H. injection H as <-.
  rewrite <- app_assoc.
  rewrite (Key_fromBuffer_toBuffer _ _ _ Ek). cbn [bind].
  rewrite <- app_assoc.
  rewrite (readVarSlice_encode _ _ _ En). cbn [bind].
  destruct kp; reflexivity.
Qed.

(** ** The decoder loops *)

Section Properties.

Context {Path : Type} {codec : Bip32Codec Path}.

Local Abbreviation PsetOutput := (PsetOutput Path) (only parsing).
Local Abbreviation Bip32Derivation := (Bip32Derivation Path) (only parsing).
Local Abbreviation TapBip32Derivation := (TapBip32Derivation Path) (only parsing).

Lemma varuint_encodingLength_pos (x n : Z) :
  varuint.encodingLength x = Ok n -> 1 <= n <= 9.
Proof.
  unfold varuint.encodingLength.
  destruct (varuint.checkUInt53 x); [|discriminate]. cbn [bind].
  intros E. injection E as <-.
  repeat match goal with |- context [if ?c then _ else _] => destruct c end; lia.
Qed.

Lemma decodeTapLeaves_total (fuel : nat) (value : Buffer) (_offset : Z)
    (leaves : list TapLeaf) :
  len value - _offset < Z.of_nat fuel ->
  exists res, decodeTapLeaves fuel value _offset leaves = Some res.
Proof.
  revert _offset leaves. induction fuel as [|fuel IH]; intros off leaves Hf.
  - cbn [decodeTapLeaves]. destruct (Z.ltb_spec off (len value)); [lia|eauto].
  - cbn [decodeTapLeaves]. destruct (Z.ltb_spec off (len value)); [|eauto].
    destruct (varuint.decode value (off + 2)) as [[scriptLen bytes]|e] eqn:Ed;
      cbn [andThen]; [|eauto].
    destruct (varuint.encodingLength scriptLen) as [n|e] eqn:En;
      cbn [andThen]; [|eauto].
    apply varuint_decode_inv in Ed. apply varuint_encodingLength_pos in En.
    apply IH. lia.
Qed.

Lemma decodeTapLeaves_fuel (fuel1 fuel2 : nat) (value : Buffer) (_offset : Z)
    (leaves : list TapLeaf) :
  len value - _offset < Z.of_nat fuel1 ->
  len value - _offset < Z.of_nat fuel2 ->
  decodeTapLeaves fuel1 value _offset leaves
  = decodeTapLeaves fuel2 value _offset leaves.
Proof.
  revert fuel2 _offset leaves.
  induction fuel1 as [|fuel1 IH]; intros fuel2 off leaves H1 H2.
  - destruct fuel2; cbn [decodeTapLeaves];
      destruct (Z.ltb_spec off (len value)); try reflexivity; lia.
  - destruct fuel2 as [|fuel2]; cbn [decodeTapLeaves];
      destruct (Z.ltb_spec off (len value)); try reflexivity; try lia.
    destruct (varuint.decode value (off + 2)) as [[scriptLen bytes]|e] eqn:Ed;
      cbn [andThen]; [|reflexivity].
    destruct (varuint.encodingLength scriptLen) as [n|e] eqn:En;
      cbn [andThen]; [|reflexivity].
    apply varuint_decode_inv in Ed. apply varuint_encodingLength_pos in En.
    apply IH; lia.
Qed.

Lemma decodeTapTree_total (value : Buffer) :
  exists res, decodeTapLeaves (S (length value)) value 0 [] = Some res.
Proof.
  apply decodeTapLeaves_total. unfold len. lia.
Qed.

Lemma fromBufferLoop_total (fuel : nat) (r : BufferReader) (output : PsetOutput) :
  (length r < fuel)%nat ->
  exists res, fromBufferLoop fuel r output = Some res.
Proof.
  revert r output. induction fuel as [|fuel IH]; intros r output Hf; [lia|].
  cbn [fromBufferLoop].
  destruct (KeyPair.fromBuffer r) as [[kp r']|e] eqn:E.
  - apply KeyPair_fromBuffer_shrinks in E.
    destruct (dispatch kp output); cbn [andThen]; [apply IH; lia|eauto].
  - destruct e; eauto.
Qed.

Lemma fromBuffer_total (r : BufferReader) :
  exists res,
    fromBufferLoop (S (length r)) r (newPsetOutput None None None) = Some res.
Proof.
  apply fromBufferLoop_total. lia.
Qed.

Lemma fromBufferLoop_fuel (fuel1 fuel2 : nat) (r : BufferReader) (output : PsetOutput) :
  (length r < fuel1)%nat -> (length r < fuel2)%nat ->
  fromBufferLoop fuel1 r output = fromBufferLoop fuel2 r output.
Proof.
  revert fuel2 r output.
  induction fuel1 as [|fuel1 IH]; intros fuel2 r output H1 H2; [lia|].
  destruct fuel2 as [|fuel2]; [lia|]. cbn [fromBufferLoop].
  destruct (KeyPair.fromBuffer r) as [[kp r']|e] eqn:E; [|reflexivity].
  apply KeyPair_fromBuffer_shrinks in E.
  destruct (dispatch kp output); cbn [andThen]; [apply IH; lia|reflexivity].
Qed.

Lemma readsPairs_length (r r' : BufferReader) (kps : list KeyPair.t) :
  readsPairs r kps r' -> (length r' <= length r)%nat.
Proof.
  induction 1 as [|r r1 r2 kp kps E _ IH]; [lia|].
  apply KeyPair_fromBuffer_shrinks in E. lia.
Qed.

Lemma fromBufferLoop_reads (fuel : nat) (r r' : BufferReader)
    (kps : list KeyPair.t) (output : PsetOutput) :
  readsPairs r kps r' -> (length r < fuel)%nat ->
  fromBufferLoop fuel r output
  = andThen (decodePairs kps output) (fromBufferLoop fuel r').
Proof.
  intros H. revert output fuel.
  induction H as [r|r r1 r2 kp kps E H IH]; intros output fuel Hf.
  - reflexivity.
  - destruct fuel as [|fuel]; [lia|].
    cbn [fromBufferLoop decodePairs]. rewrite E.
    pose proof (KeyPair_fromBuffer_shrinks _ _ _ E) as Hs.
    destruct (dispatch kp output) as [o'|e]; cbn [andThen bind]; [|reflexivity].
    rewrite (fromBufferLoop_fuel fuel (S fuel)) by lia.
    apply IH. lia.
Qed.

(** Decoding a reader that yields [kps] and then the empty key. *)
Lemma fromBuffer_reads (r r' : BufferReader) (kps : list KeyPair.t) :
  readsPairs r kps r' ->
  KeyPair.fromBuffer r' = Throw ErrEmptyKey ->
  fromBuffer r = (o <- decodePairs kps (newPsetOutput None None None) ;; sanityCheck o).
Proof.
  intros H E. unfold fromBuffer.
  rewrite (fromBufferLoop_reads _ r r' kps) by (auto; lia).
  destruct (decodePairs kps (newPsetOutput None None None)) as [o|e];
    cbn [andThen bind run]; [|reflexivity].
  pose proof (readsPairs_length _ _ _ H).
  cbn [fromBufferLoop]. rewrite E. reflexivity.
Qed.

(** Decoding a reader whose first pairs are [kps], when these are rejected. *)
Lemma fromBuffer_reads_throw (r r' : BufferReader) (kps : list KeyPair.t) (e : Exn) :
  readsPairs r kps r' ->
  decodePairs kps (newPsetOutput None None None) = Throw e ->
  fromBuffer r = Throw e.
Proof.
  intros H E. unfold fromBuffer.
  rewrite (fromBufferLoop_reads _ r r' kps) by (auto; lia).
  rewrite E. reflexivity.
Qed.

Lemma KeyPair_fromBuffer_terminator (rest : Buffer) :
  KeyPair.fromBuffer (x00 :: rest) = Throw ErrEmptyKey.
Proof.
  unfold KeyPair.fromBuffer, Key.fromBuffer.
  pose proof (readVarSlice_encode [] [x00] rest eq_refl) as H.
  cbn [app] in H. rewrite H. reflexivity.
Qed.

Lemma readsPairs_wire (kps : list KeyPair.t) (bufs : list Buffer) (rest : Buffer) :
  mapM KeyPair.toBuffer kps = Ok bufs ->
  readsPairs (concat bufs ++ rest) kps rest.
Proof.
  revert bufs. induction kps as [|kp kps IH]; intros bufs H.
  - cbn in H. injection H as <-. constructor.
  - cbn [mapM] in H.
    destruct (KeyPair.toBuffer kp) as [b|] eqn:Eb; [|discriminate].
    destruct (mapM KeyPair.toBuffer kps) as [bs|] eqn:Ebs; [|discriminate].
    cbn [bind] in H. injection H as <-.
    cbn [concat]. rewrite <- app_assoc.
    econstructor; [apply KeyPair_fromBuffer_toBuffer; exact Eb|].
    apply IH. reflexivity.
Qed.


Lemma readsPairs_encodePairs (kps : list KeyPair.t) (stream : Buffer) :
  encodePairs kps = Ok stream -> readsPairs stream kps [x00].
Proof.
  unfold encodePairs.
  destruct (mapM KeyPair.toBuffer kps) as [bufs|] eqn:E; [|discriminate].
  cbn [bind]. intros H. injection H as <-.
  exact (readsPairs_wire kps bufs [x00] E).
Qed.

(** ** The blinding invariant checker *)

Lemma truthy_isSet (buf : option Buffer) : truthy (isSet buf) = present buf.
Proof.
  destruct buf as [[|b l]|]; reflexivity.
Qed.

Lemma truthy_lengthPositive (buf : option Buffer) :
  truthy (lengthPositive buf) = present buf.
Proof.
  destruct buf as [[|b l]|]; reflexivity.
Qed.

Lemma truthy_jsOr (a b : JsBool) : truthy (jsOr a b) = truthy a || truthy b.
Proof. unfold jsOr. destruct (truthy a) eqn:E; [rewrite E|]; reflexivity. Qed.

Lemma truthy_jsAnd (a b : JsBool) : truthy (jsAnd a b) = truthy a && truthy b.
Proof. unfold jsAnd. destruct (truthy a) eqn:E; [|rewrite E]; reflexivity. Qed.

Lemma isPartiallyBlinded_spec (this : PsetOutput) :
  truthy (isPartiallyBlinded this) = anyBlindingFieldSet this.
Proof.
  unfold isPartiallyBlinded, anyBlindingFieldSet.
  rewrite !truthy_jsOr, !truthy_isSet, !orb_assoc. reflexivity.
Qed.

Lemma isFullyBlinded_spec (this : PsetOutput) :
  truthy (isFullyBlinded this) = allBlindingFieldsSet this.
Proof.
  unfold isFullyBlinded, allBlindingFieldsSet.
  rewrite !truthy_jsAnd, truthy_lengthPositive, !truthy_isSet, !andb_assoc.
  reflexivity.
Qed.

Lemma strictNotEqual_present (a b : option Buffer) :
  present a <> present b -> strictNotEqual (isSet a) (isSet b) = true.
Proof.
  rewrite <- !truthy_isSet.
  destruct (isSet a) as [|[|]], (isSet b) as [|[|]]; cbn; congruence.
Qed.

Lemma strictNotEqual_false_present (a b : option Buffer) :
  strictNotEqual (isSet a) (isSet b) = false -> present a = present b.
Proof.
  rewrite <- !truthy_isSet.
  destruct (isSet a) as [|[|]], (isSet b) as [|[|]]; cbn; congruence.
Qed.

(** The value pairing, when one side only is present. *)
Lemma sanityCheck_value_pairing (this : PsetOutput) :
  0 < value this ->
  present (valueCommitment this) <> present (blindValueProof this) ->
  sanityCheck this = Throw (Error "Missing output value commitment or blind proof").
Proof.
  intros Hv Hp. unfold sanityCheck.
  rewrite (strictNotEqual_present _ _ Hp).
  destruct (Z.ltb_spec 0 (value this)); [reflexivity|lia].
Qed.

(** The value pairing does not throw when both sides are non-empty, or
    both undefined. *)
Lemma valuePairing_passes (this : PsetOutput) :
  (present (valueCommitment this) = true /\ present (blindValueProof this) = true)
  \/ (valueCommitment this = None /\ blindValueProof this = None) ->
  valuePairingThrows this = false.
Proof.
  unfold valuePairingThrows. rewrite <- !truthy_isSet.
  intros [[H1 H2]|[-> ->]].
  - destruct (isSet (valueCommitment this)) as [|[|]]; try discriminate H1.
    destruct (isSet (blindValueProof this)) as [|[|]]; try discriminate H2.
    apply andb_false_r.
  - apply andb_false_r.
Qed.

(** Every way out of [sanityCheck] is either the record itself or an
    [Error]. *)
Lemma sanityCheck_cases (this : PsetOutput) :
  sanityCheck this = Ok this \/ exists msg, sanityCheck this = Throw (Error msg).
Proof.
  unfold sanityCheck.
  repeat match goal with
  | |- context [if ?c then _ else _] => destruct c
  end; eauto.
Qed.

Lemma sanityCheck_Ok_inv (this o : PsetOutput) :
  sanityCheck this = Ok o ->
  o = this
  /\ valuePairingThrows this = false
  /\ (present (assetCommitment this) = false -> present (asset this) = true)
  /\ (present (asset this) = true ->
      present (assetCommitment this) = present (blindAssetProof this))
  /\ (anyBlindingFieldSet this = true -> allBlindingFieldsSet this = true)
  /\ (allBlindingFieldsSet this = true -> greaterThanZero (blinderIndex this) = false).
Proof.
  unfold sanityCheck, valuePairingThrows.
  rewrite isPartiallyBlinded_spec, isFullyBlinded_spec, !truthy_isSet.
  destruct ((0 <? value this)
            && strictNotEqual (isSet (valueCommitment this))
                 (isSet (blindValueProof this))); [discriminate|].
  destruct (present (assetCommitment this)) eqn:Eac, (present (asset this)) eqn:Ea;
    cbn [negb andb]; try discriminate.
  all: destruct (strictNotEqual (isSet (assetCommitment this))
                   (isSet (blindAssetProof this))) eqn:Es; try discriminate.
  all: try (apply strictNotEqual_false_present in Es; rewrite Eac in Es).
  all: destruct (anyBlindingFieldSet this), (allBlindingFieldsSet this);
    cbn [negb andb]; try discriminate.
  all: destruct (greaterThanZero (blinderIndex this)); try discriminate.
  all: intros E; injection E as <-; repeat split; auto; try congruence.
Qed.


Lemma sanityCheck_unfold (this : PsetOutput) :
  sanityCheck this =
  if valuePairingThrows this then
    Throw (Error "Missing output value commitment or blind proof")
  else if negb (present (assetCommitment this)) && negb (present (asset this)) then
    Throw (Error "Missing output asset")
  else if assetPairingThrows this then
    Throw (Error "Missing output asset commitment or blind proof")
  else if anyBlindingFieldSet this && negb (allBlindingFieldsSet this) then
    Throw (Error "Output is partially blinded while it must be either unblinded or fully blinded")
  else if allBlindingFieldsSet this && greaterThanZero (blinderIndex this) then
    Throw (Error "Blinder index must be unset for fully blinded output")
  else Ok this.
Proof.
  unfold sanityCheck, valuePairingThrows, assetPairingThrows.
  rewrite isPartiallyBlinded_spec, isFullyBlinded_spec, !truthy_isSet.
  reflexivity.
Qed.

Lemma allBlindingFieldsSet_any (this : PsetOutput) :
  allBlindingFieldsSet this = true -> anyBlindingFieldSet this = true.
Proof.
  unfold allBlindingFieldsSet, anyBlindingFieldSet.
  destruct (present (valueCommitment this)); [reflexivity|discriminate].
Qed.

Lemma allBlindingFieldsSet_assetCommitment (this : PsetOutput) :
  allBlindingFieldsSet this = true -> present (assetCommitment this) = true.
Proof.
  unfold allBlindingFieldsSet.
  destruct (present (valueCommitment this)), (present (assetCommitment this));
    cbn; congruence.
Qed.

(** The asset pairing does not throw when both sides are non-empty, or
    both undefined. *)
Lemma assetPairing_passes (this : PsetOutput) :
  (present (assetCommitment this) = true /\ present (blindAssetProof this) = true)
  \/ (assetCommitment this = None /\ blindAssetProof this = None) ->
  assetPairingThrows this = false.
Proof.
  unfold assetPairingThrows. rewrite <- !truthy_isSet.
  intros [[H1 H2]|[-> ->]].
  - destruct (isSet (assetCommitment this)) as [|[|]]; try discriminate H1.
    destruct (isSet (blindAssetProof this)) as [|[|]]; try discriminate H2.
    apply andb_false_r.
  - apply andb_false_r.
Qed.

(** The asset rule of the invariant check, in the order of its tests.  A
    record whose asset is absent or empty and whose asset commitment is not
    present is rejected, with the missing-asset error when the value
    pairing, tested before it, does not throw.  A record with a non-empty
    asset of which exactly one of asset commitment and blind asset proof is
    present is rejected with one of the two pairing errors, the asset one
    when the value pairing does not throw. *)
Lemma sanityCheck_asset_rule (this : PsetOutput) :
  (present (asset this) = false ->
   present (assetCommitment this) = false ->
   (exists msg, sanityCheck this = Throw (Error msg))
   /\ (valuePairingThrows this = false ->
       sanityCheck this = Throw (Error "Missing output asset")))
  /\
  (present (asset this) = true ->
   present (assetCommitment this) <> present (blindAssetProof this) ->
   (sanityCheck this = Throw (Error "Missing output value commitment or blind proof")
    \/ sanityCheck this
       = Throw (Error "Missing output asset commitment or blind proof"))
   /\ (valuePairingThrows this = false ->
       sanityCheck this
       = Throw (Error "Missing output asset commitment or blind proof"))).
Proof.
  rewrite sanityCheck_unfold. split.
  - intros Ha Hc. rewrite Ha, Hc. cbn [negb andb].
    destruct (valuePairingThrows this); [split; [eauto|discriminate]|].
    split; [eauto|reflexivity].
  - intros Ha Hp. unfold assetPairingThrows.
    rewrite Ha, (strictNotEqual_present _ _ Hp), andb_false_r. cbn [andb].
    destruct (valuePairingThrows this); [split; [auto|discriminate]|].
    split; [auto|reflexivity].
Qed.

(** C7: a record in which at least one of the five blinding fields is set
    but not all five is rejected by the invariant check, and so is every
    stream that decodes to such a record. *)
Theorem C7_partially_blinded_rejected (this : PsetOutput) :
  anyBlindingFieldSet this = true ->
  allBlindingFieldsSet this = false ->
  (exists msg, sanityCheck this = Throw (Error msg))
  /\ (forall (r r' : BufferReader) (kps : list KeyPair.t),
        readsPairs r kps r' ->
        KeyPair.fromBuffer r' = Throw ErrEmptyKey ->
        decodePairs kps (newPsetOutput None None None) = Ok this ->
        exists msg, fromBuffer r = Throw (Error msg)).
Proof.
  intros Hany Hall.
  assert (exists msg, sanityCheck this = Throw (Error msg)) as Hs.
  { rewrite sanityCheck_unfold, Hany, Hall. cbn [negb andb].
    repeat match goal with
    | |- context [if ?c then _ else _] => destruct c
    end; eauto. }
  split; [exact Hs|].
  intros r r' kps Hr Ht Hd.
  rewrite (fromBuffer_reads r r' kps Hr Ht), Hd. exact Hs.
Qed.

(** C8: for a record with all five blinding fields set, the invariant
    check fails when the blinder index is greater than zero; when it is zero
    or unset the blinder index rule does not throw, so the check succeeds as
    soon as the two pairing rules hold.  Decoding the fully blinded record
    with blinder index 5 fails, with blinder index 0 it succeeds. *)
Theorem C8_fully_blinded_blinder_index (this : PsetOutput) :
  allBlindingFieldsSet this = true ->
  (greaterThanZero (blinderIndex this) = true ->
   exists msg, sanityCheck this = Throw (Error msg))
  /\ (blinderIndex this = None \/ blinderIndex this = Some 0 ->
      sanityCheck this
      <> Throw (Error "Blinder index must be unset for fully blinded output")
      /\ (valuePairingThrows this = false ->
          assetPairingThrows this = false ->
          sanityCheck this = Ok this))
  /\ (exists stream,
        toStream (fullyBlindedOutput (Some 5)) = Ok stream
        /\ fromBuffer stream
           = Throw (Error "Blinder index must be unset for fully blinded output"))
  /\ (exists stream,
        toStream (fullyBlindedOutput (Some 0)) = Ok stream
        /\ fromBuffer stream
           = Ok (set_script (Some []) (fullyBlindedOutput (Some 0)))).
Proof.
  intros Hall.
  pose proof (allBlindingFieldsSet_any this Hall) as Hany.
  pose proof (allBlindingFieldsSet_assetCommitment this Hall) as Hac.
  rewrite sanityCheck_unfold, Hany, Hall, Hac. cbn [negb andb].
  split; [|split; [|split]].
  - intros ->.
    repeat match goal with
    | |- context [if ?c then _ else _] => destruct c
    end; eauto.
  - intros Hbi.
    assert (greaterThanZero (blinderIndex this) = false) as ->
      by (destruct Hbi as [-> | ->]; reflexivity).
    split.
    + repeat match goal with
      | |- context [if ?c then _ else _] => destruct c
      end; discriminate.
    + intros -> ->. reflexivity.
  - eexists. split; [vm_compute; reflexivity|]. vm_compute. reflexivity.
  - eexists. split; [vm_compute; reflexivity|]. vm_compute. reflexivity.
Qed.


(** ** Duplicate detection *)

(** Walks the branches of a decoder switch, outermost test first. *)
Ltac walk :=
  repeat match goal with
  | |- (if ?c then _ else _) = _ -> _ => destruct c eqn:?
  | |- (match ?x with Some _ => _ | None => _ end) = _ -> _ => destruct x eqn:?
  | |- bind ?m _ = _ -> _ => destruct m as [?|?] eqn:?; cbn [bind]
  | |- (let '(_, _) := ?p in _) = _ -> _ => destruct p
  | |- Throw _ = Ok _ -> _ => discriminate
  end.

(** Evaluates the comparisons between type codes. *)
Ltac eval_codes :=
  repeat match goal with
  | |- context [Byte.eqb ?a ?b] =>
    let v := eval vm_compute in (Byte.eqb a b) in
    match v with
    | true => change (Byte.eqb a b) with true
    | false => change (Byte.eqb a b) with false
    end
  end; cbv iota.

(** Splits on the named field a pair addresses: in each case the key type
    (and the sub-type) is known and the decoder switch is reduced to the
    case of that field. *)
Ltac named_field_cases :=
  unfold fieldOf; cbv zeta;
  repeat match goal with
  | |- (if Byte.eqb ?a ?c then _ else _) = Some _ -> _ =>
    let E := fresh "E" in
    destruct (Byte.eqb a c) eqn:E;
    [apply Byte.byte_dec_bl in E|]
  | |- (match ?m with Ok _ => _ | Throw _ => _ end) = Some _ -> _ =>
    let E := fresh "Edata" in destruct m eqn:E
  | |- (if buffer_eqb ?a ?b then _ else _) = Some _ -> _ =>
    let E := fresh "Eid" in destruct (buffer_eqb a b) eqn:E
  | |- proprietaryField _ = Some _ -> _ => unfold proprietaryField
  | |- None = Some _ -> _ => discriminate
  end;
  (intros Hfield; injection Hfield as <-);
  unfold dispatch; cbv zeta;
  repeat match goal with
  | E : Key.keyType _ = _ |- _ => rewrite E; clear E
  end;
  eval_codes;
  repeat match goal with
  | E : ProprietaryData.fromKeyPair _ = _ |- _ => rewrite E; clear E; cbn [bind]
  | E : buffer_eqb _ _ = _ |- _ => rewrite E; clear E
  end;
  unfold dispatchProprietary; cbv zeta;
  repeat match goal with
  | E : ProprietaryData.subType _ = _ |- _ => rewrite E; clear E
  end;
  eval_codes.

Lemma dispatch_occupied (f : NamedField) (kp : KeyPair.t) (o : PsetOutput) :
  fieldOf kp = Some f -> occupied f o = true ->
  dispatch kp o = Throw (OutputDuplicateFieldError (fieldName f)).
Proof.
  named_field_cases.
  all: cbn [occupied fieldName isSome]; intros Hocc; try rewrite Hocc; try reflexivity.
  all: match goal with
       | H : isSome ?x = true |- _ => destruct x; [reflexivity|discriminate]
       end.
Qed.

Lemma dispatch_assigns (f : NamedField) (kp : KeyPair.t) (o o' : PsetOutput) :
  fieldOf kp = Some f -> dispatch kp o = Ok o' ->
  occupied f o' = carriesValue f kp.
Proof.
  named_field_cases.
  all: walk; intros Hd; injection Hd as <-.
  all: cbn [occupied carriesValue isSome redeemScript witnessScript value script
    tapTree tapInternalKey valueCommitment asset assetCommitment valueRangeproof
    assetSurjectionProof blindingPubkey ecdhPubkey blinderIndex blindValueProof
    blindAssetProof set_redeemScript set_witnessScript set_value
    set_script set_tapTree set_tapInternalKey set_valueCommitment set_asset
    set_assetCommitment set_valueRangeproof set_assetSurjectionProof
    set_blindingPubkey set_ecdhPubkey set_blinderIndex set_blindValueProof
    set_blindAssetProof isSet truthy]; try reflexivity.
  all: try match goal with
       | |- truthy (jsBool ?b) = ?b => destruct b; reflexivity
       | H : ?m = Ok _ |- _ = match ?m with Ok _ => _ | Throw _ => _ end =>
         rewrite H; reflexivity
       | |- (if ?b then true else false) = ?b => destruct b; reflexivity
       end.
Qed.

Lemma dispatch_occupied_mono (f : NamedField) (kp : KeyPair.t) (o o' : PsetOutput) :
  dispatch kp o = Ok o' -> occupied f o = true -> occupied f o' = true.
Proof.
  unfold dispatch, dispatchProprietary. cbv zeta.
  walk.
  all: intros Hd; injection Hd as <-; try (intros; assumption).
  all: destruct f; cbn [occupied set_redeemScript set_witnessScript set_value
    set_script set_tapTree set_tapInternalKey set_valueCommitment set_asset
    set_assetCommitment set_valueRangeproof set_assetSurjectionProof
    set_blindingPubkey set_ecdhPubkey set_blinderIndex set_blindValueProof
    set_blindAssetProof set_bip32Derivation set_tapBip32Derivation
    set_proprietaryData set_unknowns
    redeemScript witnessScript value script tapTree tapInternalKey
    valueCommitment asset assetCommitment valueRangeproof assetSurjectionProof
    blindingPubkey ecdhPubkey blinderIndex blindValueProof blindAssetProof isSome];
    try (intros; assumption); try congruence.
Qed.

Lemma decodePairs_app (a b : list KeyPair.t) (o : PsetOutput) :
  decodePairs (a ++ b) o = (o' <- decodePairs a o ;; decodePairs b o').
Proof.
  revert o. induction a as [|kp a IH]; intro o; [reflexivity|].
  cbn [app decodePairs]. destruct (dispatch kp o); cbn [bind]; auto.
Qed.

Lemma decodePairs_occupied_mono (f : NamedField) (kps : list KeyPair.t)
    (o o' : PsetOutput) :
  decodePairs kps o = Ok o' -> occupied f o = true -> occupied f o' = true.
Proof.
  revert o. induction kps as [|kp kps IH]; intros o H Ho.
  - cbn in H. injection H as <-. exact Ho.
  - cbn [decodePairs] in H.
    destruct (dispatch kp o) as [o1|] eqn:E; [|discriminate]. cbn [bind] in H.
    eauto using dispatch_occupied_mono.
Qed.

(** After an accepted prefix in which a pair left field [f] occupied, the
    next pair addressing [f] is a duplicate. *)
Lemma duplicate_after_prefix (f : NamedField) (kp1 kp2 : KeyPair.t)
    (pre mid : list KeyPair.t) (o0 o : PsetOutput) :
  fieldOf kp1 = Some f -> fieldOf kp2 = Some f -> carriesValue f kp1 = true ->
  decodePairs (pre ++ kp1 :: mid) o0 = Ok o ->
  dispatch kp2 o = Throw (OutputDuplicateFieldError (fieldName f)).
Proof.
  intros H1 H2 Hc Hd. apply dispatch_occupied; [exact H2|].
  rewrite decodePairs_app in Hd.
  destruct (decodePairs pre o0) as [o1|]; [|discriminate]. cbn [bind decodePairs] in Hd.
  destruct (dispatch kp1 o1) as [o2|] eqn:E; [|discriminate]. cbn [bind] in Hd.
  apply (decodePairs_occupied_mono f mid o2 o Hd).
  rewrite (dispatch_assigns f kp1 o1 o2 H1 E). exact Hc.
Qed.

Lemma duplicate_rejected (f : NamedField) (kp1 kp2 : KeyPair.t)
    (pre mid : list KeyPair.t) (r r' : BufferReader) :
  fieldOf kp1 = Some f -> fieldOf kp2 = Some f -> carriesValue f kp1 = true ->
  readsPairs r (pre ++ kp1 :: mid ++ [kp2]) r' ->
  (exists e, fromBuffer r = Throw e)
  /\ (forall o, decodePairs (pre ++ kp1 :: mid) (newPsetOutput None None None) = Ok o ->
      fromBuffer r = Throw (OutputDuplicateFieldError (fieldName f))).
Proof.
  intros H1 H2 Hc Hr.
  assert (forall o, decodePairs (pre ++ kp1 :: mid) (newPsetOutput None None None) = Ok o ->
            decodePairs (pre ++ kp1 :: mid ++ [kp2]) (newPsetOutput None None None)
            = Throw (OutputDuplicateFieldError (fieldName f))) as Hdup.
  { intros o Ho.
    change (pre ++ kp1 :: mid ++ [kp2]) with (pre ++ (kp1 :: mid) ++ [kp2]).
    rewrite app_assoc, decodePairs_app, Ho. cbn [bind decodePairs].
    rewrite (duplicate_after_prefix f kp1 kp2 pre mid _ o H1 H2 Hc Ho). reflexivity. }
  split.
  - destruct (decodePairs (pre ++ kp1 :: mid) (newPsetOutput None None None))
      as [o|e] eqn:E.
    + eexists. apply (fromBuffer_reads_throw r r' _ _ Hr). apply (Hdup o eq_refl).
    + exists e. apply (fromBuffer_reads_throw r r' _ _ Hr).
      change (pre ++ kp1 :: mid ++ [kp2]) with (pre ++ (kp1 :: mid) ++ [kp2]).
      rewrite app_assoc, decodePairs_app, E. reflexivity.
  - intros o Ho. apply (fromBuffer_reads_throw r r' _ _ Hr). apply (Hdup o Ho).
Qed.

(** C2, amended: in a stream where a named field occurs in two pairs, the
    first of which carries a non-empty value (a non-zero amount; any taproot
    tree or blinder index), decoding fails, so the first value is never
    overwritten; the error is the duplicate-field error naming the field
    whenever the pairs before the second occurrence are accepted. *)
Theorem C2_duplicate_named_field (f : NamedField) (kp1 kp2 : KeyPair.t)
    (pre mid : list KeyPair.t) (r r' : BufferReader) :
  fieldOf kp1 = Some f -> fieldOf kp2 = Some f -> carriesValue f kp1 = true ->
  readsPairs r (pre ++ kp1 :: mid ++ [kp2]) r' ->
  (exists e, fromBuffer r = Throw e)
  /\ (forall o, decodePairs (pre ++ kp1 :: mid) (newPsetOutput None None None) = Ok o ->
      fromBuffer r = Throw (OutputDuplicateFieldError (fieldName f))).
Proof.
  exact (duplicate_rejected f kp1 kp2 pre mid r r').
Qed.

(** A BLINDER_INDEX pair under the registered identifier is accepted on a
    record whose blinder index is undefined as soon as its value has four
    bytes. *)
Lemma dispatch_blinderIndex_fresh (kp : KeyPair.t) (o : PsetOutput) :
  fieldOf kp = Some FBlinderIndex -> len (KeyPair.value kp) = 4 ->
  blinderIndex o = None ->
  dispatch kp o
  = Ok (set_blinderIndex (Some (readUIntLE (KeyPair.value kp))) o).
Proof.
  intros Hf. remember FBlinderIndex as f eqn:Ef. revert Ef. revert Hf.
  named_field_cases; intros Ef; try discriminate Ef.
  intros Hl Hn. rewrite Hn, Hl. cbn [Z.eqb Pos.eqb negb].
  unfold readUInt32LE, readUIntAt. rewrite Hl. cbn [Z.add Z.leb Z.compare Pos.compare Pos.compare_cont bind].
  pose proof (slice_prefix (KeyPair.value kp) [] 4 (eq_sym Hl)) as Hs.
  rewrite app_nil_r in Hs. change (0 + 4) with 4. rewrite Hs. reflexivity.
Qed.

(** C10: a stream with two BLINDER_INDEX pairs under the registered
    identifier, each with a 4-byte value, is never decoded; the error is the
    duplicate-field error for the blinder index whenever the pairs before
    the second one are accepted, and always when the two pairs open the
    stream, whatever number the first one encodes, zero included: the test
    is whether the field has been assigned. *)
Theorem C10_blinder_index_duplicate (kp1 kp2 : KeyPair.t)
    (pre mid : list KeyPair.t) (r r' : BufferReader) :
  fieldOf kp1 = Some FBlinderIndex -> len (KeyPair.value kp1) = 4 ->
  fieldOf kp2 = Some FBlinderIndex -> len (KeyPair.value kp2) = 4 ->
  readsPairs r (pre ++ kp1 :: mid ++ [kp2]) r' ->
  (exists e, fromBuffer r = Throw e)
  /\ (forall o, decodePairs (pre ++ kp1 :: mid) (newPsetOutput None None None) = Ok o ->
      fromBuffer r = Throw (OutputDuplicateFieldError "blinder index"))
  /\ (pre = [] -> mid = [] ->
      fromBuffer r = Throw (OutputDuplicateFieldError "blinder index")).
Proof.
  intros H1 L1 H2 L2 Hr.
  destruct (duplicate_rejected FBlinderIndex kp1 kp2 pre mid r r' H1 H2 eq_refl Hr)
    as [Ha Hb].
  split; [exact Ha|]. split; [exact Hb|].
  intros -> ->. apply (Hb (set_blinderIndex (Some (readUIntLE (KeyPair.value kp1)))
                             (newPsetOutput None None None))).
  cbn [app decodePairs].
  rewrite (dispatch_blinderIndex_fresh kp1 (newPsetOutput None None None) H1 L1 eq_refl).
  reflexivity.
Qed.


(** ** The proprietary namespace and unknown pairs *)

(** A PROPRIETARY pair under a foreign identifier leaves the record as it
    is: the pair is stored nowhere. *)
Lemma dispatch_foreign_identifier (kp : KeyPair.t) (data : ProprietaryData.t)
    (o : PsetOutput) :
  Key.keyType (KeyPair.key kp) = OutputTypes.PROPRIETARY ->
  ProprietaryData.fromKeyPair kp = Ok data ->
  ProprietaryData.identifier data <> magicPrefix ->
  dispatch kp o = Ok o.
Proof.
  intros Hk Hd Hi. unfold dispatch. cbv zeta. rewrite Hk, Hd.
  cbn [bind]. unfold buffer_eqb.
  destruct (list_eq_dec byte_eq_dec (ProprietaryData.identifier data) magicPrefix);
    [contradiction|reflexivity].
Qed.

(** Under the registered identifier, a sub-type outside the ten named ones
    is appended to [proprietaryData]. *)
Lemma dispatch_unrecognised_subType (kp : KeyPair.t) (data : ProprietaryData.t)
    (o : PsetOutput) :
  Key.keyType (KeyPair.key kp) = OutputTypes.PROPRIETARY ->
  ProprietaryData.fromKeyPair kp = Ok data ->
  ProprietaryData.identifier data = magicPrefix ->
  proprietaryField (ProprietaryData.subType data) = None ->
  dispatch kp o
  = Ok (set_proprietaryData (Some (orEmpty (proprietaryData o) ++ [data])) o).
Proof.
  intros Hk Hd Hi Hs. unfold dispatch. cbv zeta. rewrite Hk, Hd.
  cbn [bind]. rewrite Hi. 
  change (buffer_eqb magicPrefix magicPrefix) with true. cbv iota.
  revert Hs. unfold proprietaryField, dispatchProprietary. cbv zeta.
  repeat match goal with
  | |- (if ?c then _ else _) = None -> _ => destruct c; [discriminate|]
  end.
  reflexivity.
Qed.

(** A pair whose key type is none of the nine known codes is appended to
    [unknowns]. *)
Lemma dispatch_unknown (kp : KeyPair.t) (o : PsetOutput) :
  fieldOf kp = None ->
  Key.keyType (KeyPair.key kp) <> OutputTypes.BIP32_DERIVATION ->
  Key.keyType (KeyPair.key kp) <> OutputTypes.TAP_BIP32_DERIVATION ->
  Key.keyType (KeyPair.key kp) <> OutputTypes.PROPRIETARY ->
  dispatch kp o = Ok (set_unknowns (Some (orEmpty (unknowns o) ++ [kp])) o).
Proof.
  unfold fieldOf, dispatch. cbv zeta. intros Hf H1 H2 H3. revert Hf.
  repeat match goal with
  | |- (if Byte.eqb ?a ?c then _ else _) = None -> _ =>
    let E := fresh "E" in
    destruct (Byte.eqb a c) eqn:E;
    [first [discriminate | apply Byte.byte_dec_bl in E; contradiction]|]
  end.
  intros _.
  repeat match goal with
  | |- context [Byte.eqb ?a ?c] =>
    let E := fresh "E" in
    destruct (Byte.eqb a c) eqn:E;
    [apply Byte.byte_dec_bl in E; contradiction|]
  end.
  reflexivity.
Qed.

(** The encoder never looks at [unknowns]. *)
Lemma getKeyPairs_unknowns (u : option (list KeyPair.t)) (o : PsetOutput) :
  getKeyPairs (set_unknowns u o) = getKeyPairs o.
Proof. reflexivity. Qed.

Lemma toBuffer_unknowns (u : option (list KeyPair.t)) (o : PsetOutput) :
  toBuffer (set_unknowns u o) = toBuffer o.
Proof. reflexivity. Qed.


(** ** The taproot tree codec *)

Lemma at_app (pre : Buffer) (b : byte) (rest : Buffer) :
  at_ (pre ++ b :: rest) (len pre) = b.
Proof.
  unfold at_, len. rewrite Nat2Z.id, app_nth2, Nat.sub_diag by lia. reflexivity.
Qed.

Lemma at_app_next (pre : Buffer) (a b : byte) (rest : Buffer) :
  at_ (pre ++ a :: b :: rest) (len pre + 1) = b.
Proof.
  change (pre ++ a :: b :: rest) with (pre ++ [a] ++ b :: rest).
  rewrite app_assoc.
  replace (len pre + 1) with (len (pre ++ [a])) by (rewrite len_app; reflexivity).
  apply at_app.
Qed.

Lemma encodeTapLeaf_inv (leaf : TapLeaf) (buf : Buffer) :
  encodeTapLeaf leaf = Ok buf ->
  exists e, varuint.encode (len (leafScript leaf)) = Ok e
            /\ buf = [depth leaf; leafVersion leaf] ++ e ++ leafScript leaf.
Proof.
  unfold encodeTapLeaf.
  destruct (varuint.encode (len (leafScript leaf))) as [e|]; [|discriminate].
  cbn [bind]. intros H. injection H as <-. eauto.
Qed.

(** One turn of the loop on a leaf whose header is complete: the script is
    what the slice finds, be it the declared [n] bytes or fewer. *)
Lemma decodeTapLeaves_step (fuel : nat) (pre e tail : Buffer) (d v : byte)
    (n : Z) (acc : list TapLeaf) :
  varuint.encode n = Ok e ->
  let value := pre ++ [d; v] ++ e ++ tail in
  decodeTapLeaves (S fuel) value (len pre) acc
  = decodeTapLeaves fuel value (len pre + 2 + len e + n)
      (acc ++ [mkTapLeaf d v (slice tail 0 n)]).
Proof.
  intros He value. subst value. cbn [decodeTapLeaves].
  pose proof (len_nonneg pre). pose proof (len_nonneg e). pose proof (len_nonneg tail).
  destruct (Z.ltb_spec (len pre) (len (pre ++ [d; v] ++ e ++ tail))) as [_|Hlt].
  2:{ rewrite !len_app in Hlt. change (len [d; v]) with 2 in Hlt. lia. }
  pose proof (varuint_decode_encode n e (pre ++ [d; v]) tail He) as Hd.
  rewrite len_app in Hd. change (len [d; v]) with 2 in Hd.
  rewrite <- app_assoc in Hd. rewrite Hd. cbn [andThen].
  rewrite (varuint_encodingLength_encode n e He). cbn [andThen].
  cbn [app]. rewrite at_app, at_app_next.
  do 3 f_equal.
  destruct (varuint_encode_cases n e He) as [[Hn _] _].
  assert (Hpre : len (pre ++ d :: v :: e) = len pre + 2 + len e).
  { rewrite len_app, !len_cons. lia. }
  replace (pre ++ d :: v :: e ++ tail) with ((pre ++ d :: v :: e) ++ tail)
    by (rewrite <- app_assoc; reflexivity).
  rewrite <- Hpre.
  pose proof (len_nonneg (pre ++ d :: v :: e)).
  f_equal.
  rewrite (slice_spec _ (len (pre ++ d :: v :: e))) by lia.
  rewrite (slice_spec tail 0 n) by lia.
  unfold len. rewrite Nat2Z.id, skipn_app, skipn_all, Nat.sub_diag.
  cbn [skipn app Z.to_nat]. f_equal. lia.
Qed.

Lemma len_encoded_leaf (d v : byte) (e s : Buffer) :
  len ([d; v] ++ e ++ s) = 2 + len e + len s.
Proof. rewrite !len_app. change (len [d; v]) with 2. lia. Qed.

(** The loop consumes every encoded leaf in turn. *)
Lemma decodeTapLeaves_leaves (leaves : list TapLeaf) :
  forall (bufs : list Buffer) (pre rest : Buffer) (acc : list TapLeaf) (fuel : nat),
  mapM encodeTapLeaf leaves = Ok bufs ->
  len (concat bufs ++ rest) < Z.of_nat fuel ->
  decodeTapLeaves fuel (pre ++ concat bufs ++ rest) (len pre) acc
  = decodeTapLeaves fuel (pre ++ concat bufs ++ rest)
      (len pre + len (concat bufs)) (acc ++ leaves).
Proof.
  induction leaves as [|leaf leaves IH]; intros bufs pre rest acc fuel Hm Hf.
  - cbn in Hm. injection Hm as <-. cbn [concat]. change (len []) with 0.
    rewrite Z.add_0_r, app_nil_r. reflexivity.
  - cbn [mapM] in Hm.
    destruct (encodeTapLeaf leaf) as [buf|] eqn:El; [|discriminate].
    destruct (mapM encodeTapLeaf leaves) as [bufs'|] eqn:Em; [|discriminate].
    cbn [bind] in Hm. injection Hm as <-.
    destruct (encodeTapLeaf_inv leaf buf El) as (e & He & ->).
    destruct leaf as [d v s]. cbn [depth leafVersion leafScript] in *.
    cbn [concat] in *.
    pose proof (len_nonneg e). pose proof (len_nonneg s).
    pose proof (len_nonneg (concat bufs' ++ rest)).
    rewrite <- !app_assoc in *.
    rewrite len_encoded_leaf, len_app in Hf.
    destruct fuel as [|fuel]; [lia|].
    rewrite (decodeTapLeaves_step fuel pre e (s ++ concat bufs' ++ rest) d v (len s) acc He).
    rewrite (slice_prefix s _ (len s) eq_refl).
    rewrite (decodeTapLeaves_fuel fuel (S fuel)).
    2,3: rewrite !len_app in *; change (len [d; v]) with 2; lia.
    pose proof (IH bufs' (pre ++ [d; v] ++ e ++ s) rest (acc ++ [mkTapLeaf d v s])
                  (S fuel) eq_refl ltac:(lia)) as IH'.
    rewrite <- !app_assoc in IH'. rewrite len_app, len_encoded_leaf in IH'.
    replace (len pre + 2 + len e + len s) with (len pre + (2 + len e + len s)) by lia.
    rewrite IH'. f_equal.
    rewrite !len_app. change (len [d; v]) with 2. lia.
Qed.

(** Decoding stops exactly when the value is exhausted: all the leaves that
    were encoded come back, in order. *)
Lemma decodeTapTree_encode (leaves : list TapLeaf) (bufs : list Buffer) :
  mapM encodeTapLeaf leaves = Ok bufs ->
  decodeTapTree (concat bufs) = Ok leaves.
Proof.
  intros Hm. unfold decodeTapTree.
  pose proof (decodeTapLeaves_leaves leaves bufs [] [] []
                (S (length (concat bufs))) Hm) as H.
  rewrite app_nil_r in H. cbn [app] in H. change (len []) with 0 in H.
  rewrite H by (unfold len; lia).
  cbn [decodeTapLeaves]. rewrite Z.add_0_l, Z.ltb_irrefl. reflexivity.
Qed.

(** A last leaf whose declared script length exceeds what is left is
    accepted with the bytes that remain. *)
Lemma decodeTapTree_short_script (leaves : list TapLeaf) (bufs : list Buffer)
    (d v : byte) (n : Z) (e s : Buffer) :
  mapM encodeTapLeaf leaves = Ok bufs ->
  varuint.encode n = Ok e ->
  len s < n ->
  decodeTapTree (concat bufs ++ [d; v] ++ e ++ s)
  = Ok (leaves ++ [mkTapLeaf d v s]).
Proof.
  intros Hm He Hn. unfold decodeTapTree.
  set (value := concat bufs ++ [d; v] ++ e ++ s).
  pose proof (len_nonneg e). pose proof (len_nonneg s).
  pose proof (len_nonneg (concat bufs)).
  assert (Hlen : len value = len (concat bufs) + 2 + len e + len s).
  { unfold value. rewrite len_app, len_encoded_leaf. lia. }
  pose proof (decodeTapLeaves_leaves leaves bufs [] ([d; v] ++ e ++ s) []
                (S (length value)) Hm) as Hall.
  rewrite !app_nil_l in Hall. change (len []) with 0 in Hall. fold value in Hall.
  rewrite Hall by (fold value; unfold len; lia). clear Hall.
  rewrite Z.add_0_l.
  unfold value at 2.
  rewrite (decodeTapLeaves_step (length value) (concat bufs) e s d v n leaves He).
  replace (slice s 0 n) with s
    by (symmetry; apply (slice_app_clamped [] s n); lia).
  destruct (length value) as [|k] eqn:Ek; cbn [decodeTapLeaves]; fold value;
    (destruct (Z.ltb_spec (len (concat bufs) + 2 + len e + n) (len value)); [lia|]);
    reflexivity.
Qed.

(** A value that ends inside the header of a leaf, so that reading the
    script length fails, is rejected with the error of that read. *)
Lemma decodeTapTree_header_error (leaves : list TapLeaf) (bufs : list Buffer)
    (tail : Buffer) (e : Exn) :
  mapM encodeTapLeaf leaves = Ok bufs ->
  0 < len tail ->
  varuint.decode (concat bufs ++ tail) (len (concat bufs) + 2) = Throw e ->
  decodeTapTree (concat bufs ++ tail) = Throw e.
Proof.
  intros Hm Ht He. unfold decodeTapTree.
  set (value := concat bufs ++ tail) in *.
  pose proof (len_nonneg (concat bufs)).
  assert (Hlen : len value = len (concat bufs) + len tail)
    by (unfold value; apply len_app).
  pose proof (decodeTapLeaves_leaves leaves bufs [] tail []
                (S (length value)) Hm) as Hall.
  rewrite !app_nil_l in Hall. change (len []) with 0 in Hall. fold value in Hall.
  rewrite Hall by (fold value; unfold len; lia). clear Hall.
  rewrite Z.add_0_l. cbn [decodeTapLeaves].
  destruct (Z.ltb_spec (len (concat bufs)) (len value)); [|lia].
  rewrite He. reflexivity.
Qed.

(** In particular when the value ends inside the two bytes before the
    script length. *)
Lemma decodeTapTree_short_header (leaves : list TapLeaf) (bufs : list Buffer)
    (tail : Buffer) :
  mapM encodeTapLeaf leaves = Ok bufs ->
  0 < len tail <= 2 ->
  decodeTapTree (concat bufs ++ tail) = Throw RangeError.
Proof.
  intros Hm Ht.
  apply (decodeTapTree_header_error leaves bufs tail RangeError Hm); [lia|].
  unfold varuint.decode, readUInt8, readUIntAt. rewrite len_app.
  destruct (Z.leb_spec (len (concat bufs) + 2 + 1) (len (concat bufs) + len tail));
    [lia|reflexivity].
Qed.

(** C9, amended: the taproot tree decoder reads no leaf count and stops
    when the value is exhausted, returning every encoded leaf in order.  A
    value whose last leaf declares more script bytes than remain is not
    rejected: the leaf is stored with the bytes that remain.  A value is
    rejected when it ends inside the header of a leaf, so that the read of
    the script length fails: with the range error of the buffer layer when
    it ends inside the two bytes before the script length. *)
Theorem C9_taproot_tree_truncation (leaves : list TapLeaf) (bufs : list Buffer) :
  mapM encodeTapLeaf leaves = Ok bufs ->
  decodeTapTree (concat bufs) = Ok leaves
  /\ (forall (d v : byte) (n : Z) (e s : Buffer),
        varuint.encode n = Ok e -> len s < n ->
        decodeTapTree (concat bufs ++ [d; v] ++ e ++ s)
        = Ok (leaves ++ [mkTapLeaf d v s]))
  /\ (forall (tail : Buffer) (e : Exn),
        0 < len tail ->
        varuint.decode (concat bufs ++ tail) (len (concat bufs) + 2) = Throw e ->
        decodeTapTree (concat bufs ++ tail) = Throw e)
  /\ (forall tail : Buffer,
        0 < len tail <= 2 ->
        decodeTapTree (concat bufs ++ tail) = Throw RangeError).
Proof.
  intros Hm. split; [|split; [|split]].
  - exact (decodeTapTree_encode leaves bufs Hm).
  - intros d v n e s. exact (decodeTapTree_short_script leaves bufs d v n e s Hm).
  - intros tail e. exact (decodeTapTree_header_error leaves bufs tail e Hm).
  - intros tail. exact (decodeTapTree_short_header leaves bufs tail Hm).
Qed.

(** ** Round trip *)

Lemma fromKeyPair_proprietaryKey (subType : byte) (keyData value : Buffer) :
  ProprietaryData.fromKeyPair
    (KeyPair.mk (Key.mk OutputTypes.PROPRIETARY
                   (ProprietaryData.proprietaryKey subType keyData)) value)
  = Ok (ProprietaryData.mk magicPrefix subType keyData value).
Proof.
  unfold ProprietaryData.fromKeyPair, ProprietaryData.proprietaryKey.
  cbn [KeyPair.key KeyPair.value Key.keyType Key.keyData].
  change (Byte.eqb OutputTypes.PROPRIETARY OutputTypes.PROPRIETARY) with true.
  cbn [negb].
  pose proof (readVarSlice_encode magicPrefix [x04] (subType :: keyData) eq_refl) as H.
  cbn [app] in H |- *. rewrite H. reflexivity.
Qed.

(** Evaluates the decoder switch on a pair built by the encoder. *)
Ltac dispatch_eval :=
  unfold dispatch, proprietaryKeyOf, Key.new; cbv zeta;
  cbn [KeyPair.key KeyPair.value Key.keyType Key.keyData];
  eval_codes;
  try (rewrite fromKeyPair_proprietaryKey; cbn [bind ProprietaryData.identifier];
       change (buffer_eqb magicPrefix magicPrefix) with true; cbv iota;
       unfold dispatchProprietary; cbv zeta;
       cbn [ProprietaryData.subType KeyPair.value]; eval_codes).

Lemma set_redeemScript_same (o : PsetOutput) : set_redeemScript (redeemScript o) o = o.
Proof. destruct o; reflexivity. Qed.

Ltac solve_pushIfSet :=
  match goal with
  | |- forall x o, _ => 
    intros [[|b l]|] o; unfold sized; intros Hx Ho;
    cbn [pushIfSet isSet truthy decodePairs];
    [ first [ now contradiction Hx | now discriminate (Hx [] eq_refl) ]
    | change (0 <? len (b :: l)) with true; cbv iota; cbn [decodePairs];
      dispatch_eval; rewrite Ho; cbn [isSet truthy];
      try (rewrite (Hx (b :: l) eq_refl); cbn [Z.eqb Pos.eqb negb]);
      reflexivity
    | rewrite <- Ho; destruct o; reflexivity ]
  end.

Lemma decode_redeemScript :
  forall (x : option Buffer) (o : PsetOutput),
  x <> Some [] -> redeemScript o = None ->
  decodePairs (pushIfSet (Key.new OutputTypes.REDEEM_SCRIPT) x) o
  = Ok (set_redeemScript x o).
Proof. solve_pushIfSet. Qed.

Lemma decode_witnessScript :
  forall (x : option Buffer) (o : PsetOutput),
  x <> Some [] -> witnessScript o = None ->
  decodePairs (pushIfSet (Key.new OutputTypes.WITNESS_SCRIPT) x) o
  = Ok (set_witnessScript x o).
Proof. solve_pushIfSet. Qed.

Lemma decode_tapInternalKey :
  forall (x : option Buffer) (o : PsetOutput),
  sized 32 x -> tapInternalKey o = None ->
  decodePairs (pushIfSet (Key.new OutputTypes.TAP_INTERNAL_KEY) x) o
  = Ok (set_tapInternalKey x o).
Proof. solve_pushIfSet. Qed.

Lemma decode_valueCommitment :
  forall (x : option Buffer) (o : PsetOutput),
  sized 33 x -> valueCommitment o = None ->
  decodePairs (pushIfSet (proprietaryKeyOf OutputProprietaryTypes.VALUE_COMMITMENT) x) o
  = Ok (set_valueCommitment x o).
Proof. solve_pushIfSet. Qed.

Lemma decode_assetCommitment :
  forall (x : option Buffer) (o : PsetOutput),
  sized 33 x -> assetCommitment o = None ->
  decodePairs (pushIfSet (proprietaryKeyOf OutputProprietaryTypes.ASSET_COMMITMENT) x) o
  = Ok (set_assetCommitment x o).
Proof. solve_pushIfSet. Qed.

Lemma decode_valueRangeproof :
  forall (x : option Buffer) (o : PsetOutput),
  x <> Some [] -> valueRangeproof o = None ->
  decodePairs (pushIfSet (proprietaryKeyOf OutputProprietaryTypes.VALUE_RANGEPROOF) x) o
  = Ok (set_valueRangeproof x o).
Proof. solve_pushIfSet. Qed.

Lemma decode_assetSurjectionProof :
  forall (x : option Buffer) (o : PsetOutput),
  x <> Some [] -> assetSurjectionProof o = None ->
  decodePairs (pushIfSet (proprietaryKeyOf OutputProprietaryTypes.ASSET_SURJECTION_PROOF) x) o
  = Ok (set_assetSurjectionProof x o).
Proof. solve_pushIfSet. Qed.

Lemma decode_blindingPubkey :
  forall (x : option Buffer) (o : PsetOutput),
  sized 33 x -> blindingPubkey o = None ->
  decodePairs (pushIfSet (proprietaryKeyOf OutputProprietaryTypes.BLINDING_PUBKEY) x) o
  = Ok (set_blindingPubkey x o).
Proof. solve_pushIfSet. Qed.

Lemma decode_ecdhPubkey :
  forall (x : option Buffer) (o : PsetOutput),
  sized 33 x -> ecdhPubkey o = None ->
  decodePairs (pushIfSet (proprietaryKeyOf OutputProprietaryTypes.ECDH_PUBKEY) x) o
  = Ok (set_ecdhPubkey x o).
Proof. solve_pushIfSet. Qed.

Lemma decode_blindValueProof :
  forall (x : option Buffer) (o : PsetOutput),
  x <> Some [] -> blindValueProof o = None ->
  decodePairs (pushIfSet (proprietaryKeyOf OutputProprietaryTypes.BLIND_VALUE_PROOF) x) o
  = Ok (set_blindValueProof x o).
Proof. solve_pushIfSet. Qed.

Lemma decode_blindAssetProof :
  forall (x : option Buffer) (o : PsetOutput),
  x <> Some [] -> blindAssetProof o = None ->
  decodePairs (pushIfSet (proprietaryKeyOf OutputProprietaryTypes.BLIND_ASSET_PROOF) x) o
  = Ok (set_blindAssetProof x o).
Proof. solve_pushIfSet. Qed.

Lemma decode_asset (x : option Buffer) (o : PsetOutput) :
  x = Some [] \/ (exists a, x = Some a /\ len a = 32) ->
  asset o = Some [] ->
  decodePairs (pushIfSet (proprietaryKeyOf OutputProprietaryTypes.ASSET) x) o
  = Ok (set_asset x o).
Proof.
  intros [->|(a & -> & Ha)] Ho.
  - cbn. rewrite <- Ho. destruct o; reflexivity.
  - destruct a as [|b l]; [discriminate Ha|].
    cbn [pushIfSet isSet truthy]. change (0 <? len (b :: l)) with true. cbv iota.
    cbn [decodePairs]. dispatch_eval. rewrite Ho, Ha. reflexivity.
Qed.

Lemma readUInt64LE_writeUInt64LE (v : Z) (amount : Buffer) :
  writeUInt64LE v = Ok amount ->
  len amount = 8 /\ readUInt64LE amount 0 = Ok v.
Proof.
  unfold writeUInt64LE.
  destruct (Z.leb_spec 0 v); cbn [andb]; [|discriminate].
  destruct (Z.leb_spec v 18446744073709551615); [|discriminate].
  intros E. injection E as <-. split; [reflexivity|].
  unfold readUInt64LE, readUInt32LE.
  pose proof (readUIntAt_app 4 [] (writeUIntLE 4 (v mod 4294967296))
                (writeUIntLE 4 (v / 4294967296)) eq_refl) as H1.
  pose proof (readUIntAt_app_shift 4 4 [] (writeUIntLE 4 (v mod 4294967296))
                (writeUIntLE 4 (v / 4294967296)) [] eq_refl eq_refl) as H2.
  rewrite app_nil_r in H2. rewrite !app_nil_l in H1, H2.
  change (len []) with 0 in H1, H2.
  pose proof (Z.mod_pos_bound v 4294967296 ltac:(lia)).
  pose proof (Z.div_mod v 4294967296 ltac:(lia)).
  assert (0 <= v / 4294967296 < 4294967296).
  { split; [apply Z.div_pos; lia|apply Z.div_lt_upper_bound; lia]. }
  rewrite readUIntLE_writeUIntLE in H1, H2 by (cbn; lia).
  cbn [writeUIntLE app] in H1, H2.
  rewrite H1. cbn [bind]. rewrite H2. cbn [bind].
  replace (v / 4294967296 * 4294967296 + v mod 4294967296) with v by lia.
  reflexivity.
Qed.

Lemma decode_amount (v : Z) (amount : Buffer) (o : PsetOutput) :
  writeUInt64LE v = Ok amount -> value o = 0 ->
  decodePairs [KeyPair.mk (Key.new OutputTypes.AMOUNT) amount] o
  = Ok (set_value v o).
Proof.
  intros Hw Ho. destruct (readUInt64LE_writeUInt64LE v amount Hw) as [Hl Hr].
  cbn [decodePairs]. dispatch_eval. rewrite Ho, Hl, Hr. reflexivity.
Qed.

Lemma decode_script (s : Buffer) (o : PsetOutput) :
  script o = None ->
  decodePairs [KeyPair.mk (Key.new OutputTypes.SCRIPT) s] o
  = Ok (set_script (Some s) o).
Proof.
  intros Ho. cbn [decodePairs]. dispatch_eval. rewrite Ho. reflexivity.
Qed.

Lemma decode_blinderIndex (bi : Z) (buf : Buffer) (o : PsetOutput) :
  writeUInt32LE bi = Ok buf -> blinderIndex o = None ->
  decodePairs
    [KeyPair.mk (proprietaryKeyOf OutputProprietaryTypes.BLINDER_INDEX) buf] o
  = Ok (set_blinderIndex (Some bi) o).
Proof.
  unfold writeUInt32LE.
  destruct (Z.leb_spec 0 bi); cbn [andb]; [|discriminate].
  destruct (Z.leb_spec bi 4294967295); [|discriminate].
  intros E Ho. injection E as <-.
  cbn [decodePairs]. dispatch_eval. rewrite Ho.
  change (len (writeUIntLE 4 bi)) with 4. cbn [Z.eqb Pos.eqb negb].
  unfold readUInt32LE.
  pose proof (readUIntAt_app 4 [] (writeUIntLE 4 bi) [] eq_refl) as H1.
  rewrite app_nil_r, app_nil_l in H1. change (len []) with 0 in H1.
  rewrite readUIntLE_writeUIntLE in H1 by (cbn; lia).
  cbn [writeUIntLE] in H1 |- *. rewrite H1. reflexivity.
Qed.

Lemma decode_tapTree (t : option TapTree) (seg : list KeyPair.t) (o : PsetOutput) :
  encodeTapTree t = Ok seg -> tapTree o = None ->
  decodePairs seg o = Ok (set_tapTree t o).
Proof.
  unfold encodeTapTree. destruct t as [tree|].
  - destruct (mapM encodeTapLeaf (leaves tree)) as [bufs|] eqn:Em; [|discriminate].
    cbn [bind]. intros E Ho. injection E as <-.
    cbn [decodePairs]. dispatch_eval. rewrite Ho.
    rewrite (decodeTapTree_encode _ _ Em). destruct tree; reflexivity.
  - intros E Ho. injection E as <-. cbn [decodePairs].
    rewrite <- Ho. destruct o; reflexivity.
Qed.

Lemma set_bip32Derivation_same (o : PsetOutput) :
  set_bip32Derivation (bip32Derivation o) o = o.
Proof. destruct o; reflexivity. Qed.

Lemma set_tapBip32Derivation_same (o : PsetOutput) :
  set_tapBip32Derivation (tapBip32Derivation o) o = o.
Proof. destruct o; reflexivity. Qed.

Lemma set_proprietaryData_same (o : PsetOutput) :
  set_proprietaryData (proprietaryData o) o = o.
Proof. destruct o; reflexivity. Qed.

Lemma appended_step {A} (cur : option (list A)) (d : A) (l : list A) :
  appended (Some (orEmpty cur ++ [d])) l = appended cur (d :: l).
Proof.
  destruct l as [|x l]; cbn [appended orEmpty]; [reflexivity|].
  now rewrite <- app_assoc.
Qed.

Lemma buffer_eqb_eq (a b : Buffer) : buffer_eqb a b = true <-> a = b.
Proof.
  unfold buffer_eqb. destruct (list_eq_dec byte_eq_dec a b); split; congruence.
Qed.

Lemma existsb_key_absent {A} (key : A -> Buffer) (k : Buffer) (l : list A) :
  ~ In k (map key l) -> existsb (fun d => buffer_eqb (key d) k) l = false.
Proof.
  intros Hn. apply not_true_is_false. intros H.
  apply existsb_exists in H. destruct H as (d & Hd & He).
  apply buffer_eqb_eq in He. apply Hn. rewrite <- He. now apply in_map.
Qed.

Lemma NoDup_app_cons_absent {A} (cur : list A) (d : A) (l : list A) :
  NoDup (cur ++ d :: l) -> ~ In d cur /\ NoDup ((cur ++ [d]) ++ l).
Proof.
  intros H. split.
  - apply NoDup_remove_2 in H. intros Hin. apply H. apply in_or_app. now left.
  - now rewrite <- app_assoc.
Qed.

Lemma decode_bip32Derivation (l : list Bip32Derivation) :
  forall o : PsetOutput,
  Forall wellFormedBip32 l ->
  NoDup (map pubkey (orEmpty (bip32Derivation o) ++ l)) ->
  decodePairs (map encodeBip32Pair l) o
  = Ok (set_bip32Derivation (appended (bip32Derivation o) l) o).
Proof.
  induction l as [|d l IH]; intros o Hwf Hnd.
  - cbn. now rewrite set_bip32Derivation_same.
  - inversion Hwf as [|? ? [Hlen Hcodec] Hwf']; subst.
    rewrite map_app in Hnd. cbn [map] in Hnd.
    destruct (NoDup_app_cons_absent _ _ _ Hnd) as [Habs Hnd'].
    destruct d as [pk mf p]. cbn [pubkey masterFingerprint path] in *.
    cbn [map decodePairs]. unfold encodeBip32Pair at 1. dispatch_eval.
    cbn [pubkey masterFingerprint path].
    rewrite Hlen. cbn [Z.eqb Pos.eqb negb].
    rewrite (existsb_key_absent pubkey _ _ Habs), Hcodec. cbn [bind].
    rewrite IH; [|exact Hwf'|].
    + cbn [bip32Derivation set_bip32Derivation]. rewrite appended_step. reflexivity.
    + cbn [bip32Derivation set_bip32Derivation orEmpty].
      rewrite !map_app. exact Hnd'.
Qed.

Lemma decode_proprietaryData (l : list ProprietaryData.t) :
  forall o : PsetOutput,
  Forall wellFormedProprietary l ->
  decodePairs (map encodeProprietaryPair l) o
  = Ok (set_proprietaryData (appended (proprietaryData o) l) o).
Proof.
  induction l as [|d l IH]; intros o Hwf.
  - cbn. now rewrite set_proprietaryData_same.
  - inversion Hwf as [|? ? [Hid Hst] Hwf']; subst.
    cbn [map decodePairs].
    rewrite (dispatch_unrecognised_subType (encodeProprietaryPair d) d o).
    + cbn [bind]. rewrite IH by exact Hwf'.
      cbn [proprietaryData set_proprietaryData]. rewrite appended_step. reflexivity.
    + reflexivity.
    + unfold encodeProprietaryPair. rewrite fromKeyPair_proprietaryKey.
      rewrite <- Hid. destruct d; reflexivity.
    + exact Hid.
    + exact Hst.
Qed.

Lemma len_concat_hashes (hashes : list Buffer) :
  Forall (fun h => len h = 32) hashes ->
  len (concat hashes) = Z.of_nat (length hashes) * 32.
Proof.
  induction 1 as [|h hs Hh _ IH]; [reflexivity|].
  cbn [concat length]. rewrite len_app, Hh, IH. lia.
Qed.

Lemma readLeafHashes_encode (hashes : list Buffer) :
  forall pre rest : Buffer,
  Forall (fun h => len h = 32) hashes ->
  readLeafHashes (pre ++ concat hashes ++ rest) (Z.of_nat (length hashes)) (len pre)
  = hashes.
Proof.
  unfold readLeafHashes. rewrite Nat2Z.id.
  induction hashes as [|h hs IH]; intros pre rest Hh; [reflexivity|].
  inversion Hh as [|? ? H32 Hh']; subst.
  cbn [length seq map concat]. f_equal.
  - rewrite Z.mul_0_r, Z.add_0_r, <- app_assoc.
    apply slice_app_mid. now symmetry.
  - rewrite <- seq_shift, map_map.
    rewrite <- (IH (pre ++ h) rest Hh') at 2.
    rewrite <- !app_assoc.
    apply map_ext. intros i. rewrite len_app, H32.
    replace (len pre + 32 * Z.of_nat (S i)) with (len pre + 32 + 32 * Z.of_nat i) by lia.
    reflexivity.
Qed.

Lemma decode_tapBip32Derivation (l : list TapBip32Derivation) :
  forall (kps : list KeyPair.t) (o : PsetOutput),
  mapM encodeTapBip32Pair l = Ok kps ->
  Forall wellFormedTapBip32 l ->
  NoDup (map tapPubkey (orEmpty (tapBip32Derivation o) ++ l)) ->
  decodePairs kps o
  = Ok (set_tapBip32Derivation (appended (tapBip32Derivation o) l) o).
Proof.
  induction l as [|d l IH]; intros kps o Hm Hwf Hnd.
  - cbn in Hm. injection Hm as <-. cbn. now rewrite set_tapBip32Derivation_same.
  - inversion Hwf as [|? ? (Hlen & Hh & Hn & Hcodec) Hwf']; subst.
    rewrite map_app in Hnd. cbn [map] in Hnd.
    destruct (NoDup_app_cons_absent _ _ _ Hnd) as [Habs Hnd'].
    destruct d as [pk mf p hashes].
    cbn [tapPubkey tapMasterFingerprint tapPath leafHashes] in *.
    cbn [mapM] in Hm. unfold encodeTapBip32Pair at 1 in Hm.
    cbn [tapPubkey tapMasterFingerprint tapPath leafHashes] in Hm.
    destruct (varuint.encode (Z.of_nat (length hashes))) as [nbuf|] eqn:En;
      cbn [bind] in Hm; [|discriminate Hm].
    destruct (mapM encodeTapBip32Pair l) as [kps'|] eqn:Em;
      cbn [bind] in Hm; [|discriminate Hm].
    injection Hm as <-.
    cbn [decodePairs]. dispatch_eval.
    rewrite Hlen. cbn [Z.eqb Pos.eqb negb].
    rewrite (existsb_key_absent tapPubkey _ _ Habs).
    pose proof (varuint_decode_encode _ nbuf []
                  (concat hashes
                   ++ encodeBIP32Derivation mf p) En)
      as Hd.
    rewrite app_nil_l in Hd. change (len []) with 0 in Hd. rewrite Hd. cbn [bind].
    rewrite (varuint_encodingLength_encode _ _ En). cbn [bind].
    rewrite <- (len_concat_hashes _ Hh), <- len_app, app_assoc, sliceFrom_app.
    rewrite Hcodec. cbn [bind].
    destruct (Z.ltb_spec 4294967295 (Z.of_nat (length hashes))) as [Hbig|_]; [lia|].
    pose proof (readLeafHashes_encode hashes nbuf (encodeBIP32Derivation mf p) Hh) as Hr.
    rewrite <- app_assoc, Hr. cbn [bind].
    rewrite (IH kps'); [|reflexivity|exact Hwf'|].
    + cbn [tapBip32Derivation set_tapBip32Derivation]. rewrite appended_step.
      reflexivity.
    + cbn [tapBip32Derivation set_tapBip32Derivation orEmpty].
      rewrite !map_app. exact Hnd'.
Qed.

Lemma sanityCheck_normalize (R : PsetOutput) :
  sanityCheck R = Ok R -> sanityCheck (normalize R) = Ok (normalize R).
Proof.
  intros H. unfold normalize.
  destruct R as [rs ws b32 v sc tb32 tt tik vc a ac vr asp bpk ecdh bi bvp bap pd un].
  unfold sanityCheck, isPartiallyBlinded, isFullyBlinded in *.
  cbn [value valueCommitment blindValueProof assetCommitment blindAssetProof asset
       valueRangeproof assetSurjectionProof ecdhPubkey blinderIndex
       set_script set_blinderIndex] in *.
  assert (greaterThanZero (Some (match bi with Some n => n | None => 0 end))
          = greaterThanZero bi) as -> by (destruct bi; reflexivity).
  repeat match goal with
  | H : (if ?c then _ else _) = Ok _ |- _ => destruct c; [discriminate H|]
  end.
  reflexivity.
Qed.

Lemma decodePairs_cons (kp : KeyPair.t) (rest : list KeyPair.t) (o : PsetOutput) :
  decodePairs (kp :: rest) o = (o' <- decodePairs [kp] o ;; decodePairs rest o').
Proof. exact (decodePairs_app [kp] rest o). Qed.

(** The pairs the encoder emits for a well-formed record rebuild it. *)
Lemma decodePairs_getKeyPairs (R : PsetOutput) (kps : list KeyPair.t) :
  wellFormed R ->
  getKeyPairs R = Ok kps ->
  decodePairs kps (newPsetOutput None None None) = Ok (normalize R).
Proof.
  intros [Hrs Hws Hb32s Hb32 Hb32k Htbs Htb Htbk Htik Hvc Ha Hac Hvr Hasp Hbpk
           Hecdh Hbi0 Hbvp Hbap Hpds Hpd Hun] Hk.
  unfold getKeyPairs in Hk.
  destruct (mapM encodeTapBip32Pair (orEmpty (tapBip32Derivation R)))
    as [tapDerivations|] eqn:Etd; cbn [bind] in Hk; [|discriminate Hk].
  destruct (encodeTapTree (tapTree R)) as [tree|] eqn:Ett;
    cbn [bind] in Hk; [|discriminate Hk].
  destruct (writeUInt64LE (value R)) as [amount|] eqn:Eam;
    cbn [bind] in Hk; [|discriminate Hk].
  match type of Hk with context [writeUInt32LE ?bi] =>
    destruct (writeUInt32LE bi) as [blinderIndexBuf|] eqn:Ebi;
    cbn [bind] in Hk; [|discriminate Hk]
  end.
  cbv zeta in Hk. injection Hk as <-.
  rewrite <- !app_assoc.
  repeat first
    [ rewrite decodePairs_app
    | rewrite (decodePairs_cons _ (_ :: _))
    | rewrite (decodePairs_cons _ (_ ++ _))
    | rewrite decode_redeemScript by (assumption || reflexivity)
    | rewrite decode_witnessScript by (assumption || reflexivity)
    | rewrite decode_bip32Derivation by (assumption || reflexivity)
    | rewrite (decode_tapBip32Derivation _ _ _ Etd) by (assumption || reflexivity)
    | rewrite (decode_tapTree _ _ _ Ett) by reflexivity
    | rewrite decode_tapInternalKey by (assumption || reflexivity)
    | rewrite (decode_amount _ _ _ Eam) by reflexivity
    | rewrite decode_script by reflexivity
    | rewrite decode_valueCommitment by (assumption || reflexivity)
    | rewrite decode_assetCommitment by (assumption || reflexivity)
    | rewrite decode_asset by (assumption || reflexivity)
    | rewrite decode_valueRangeproof by (assumption || reflexivity)
    | rewrite decode_assetSurjectionProof by (assumption || reflexivity)
    | rewrite decode_blindingPubkey by (assumption || reflexivity)
    | rewrite decode_ecdhPubkey by (assumption || reflexivity)
    | rewrite (decode_blinderIndex _ _ _ Ebi) by reflexivity
    | rewrite decode_blindValueProof by (assumption || reflexivity)
    | rewrite decode_blindAssetProof by (assumption || reflexivity)
    | rewrite decode_proprietaryData by (assumption || reflexivity)
    | progress cbn [bind] ].
  f_equal. unfold normalize.
  destruct R as [rs ws b32 v sc tb32 tt tik vc a ac vr asp bpk ecdh bi bvp bap pd un].
  cbn in Hun, Hb32s, Htbs, Hpds, Hbi0.
  subst un.
  assert ((if greaterThanZero bi then match bi with Some n => n | None => 0 end else 0)
          = match bi with Some n => n | None => 0 end) as Hbi.
  { destruct bi as [n|]; [|reflexivity]. cbn [greaterThanZero].
    specialize (Hbi0 n eq_refl).
    destruct (Z.ltb_spec 0 n); lia. }
  cbn [blinderIndex] in Hbi |- *. rewrite Hbi.
  destruct b32 as [[|? ?]|]; [contradiction| |];
    (destruct tb32 as [[|? ?]|]; [contradiction| |]);
    (destruct pd as [[|? ?]|]; [contradiction| |]); reflexivity.
Qed.

(** C1, amended: for every well-formed record that passes the invariant
    check, decoding the bytes the encoder produces, followed by the empty
    key that closes a record, yields the record field for field, including
    the ordered derivation lists and taproot leaves, up to the two fields
    the encoder always emits: a script that was unset comes back empty and a
    blinder index that was unset comes back 0.  Records that carry unknown
    pairs are not covered. *)
Theorem C1_round_trip (R : PsetOutput) (buf rest : Buffer) :
  wellFormed R ->
  sanityCheck R = Ok R ->
  toBuffer R = Ok buf ->
  fromBuffer (buf ++ x00 :: rest) = Ok (normalize R)
  /\ (script R <> None -> blinderIndex R <> None ->
      fromBuffer (buf ++ x00 :: rest) = Ok R).
Proof.
  intros Hwf Hs Hb.
  assert (fromBuffer (buf ++ x00 :: rest) = Ok (normalize R)) as Hrt.
  { unfold toBuffer in Hb.
    destruct (getKeyPairs R) as [kps|] eqn:Ek; cbn [bind] in Hb; [|discriminate Hb].
    destruct (mapM KeyPair.toBuffer kps) as [bufs|] eqn:Em;
      cbn [bind] in Hb; [|discriminate Hb].
    injection Hb as <-.
    rewrite (fromBuffer_reads _ (x00 :: rest) kps
               (readsPairs_wire kps bufs (x00 :: rest) Em)
               (KeyPair_fromBuffer_terminator rest)).
    rewrite (decodePairs_getKeyPairs R kps Hwf Ek). cbn [bind].
    exact (sanityCheck_normalize R Hs). }
  split; [exact Hrt|].
  intros Hsc Hbi. rewrite Hrt. f_equal. unfold normalize.
  destruct R as [rs ws b32 v sc tb32 tt tik vc a ac vr asp bpk ecdh bi bvp bap pd un].
  cbn in Hsc, Hbi |- *.
  destruct sc; [|contradiction]. destruct bi; [|contradiction]. reflexivity.
Qed.

(** ** What the decoder accepts *)

Lemma run_Ok {A} (m : option (Result A)) (a : A) :
  run m = Ok a <-> m = Some (Ok a).
Proof.
  destruct m as [[x|e]|]; cbn; split; intros H; try discriminate H;
    try (injection H as <-; reflexivity).
Qed.

Lemma sanityCheck_returns_this (this o : PsetOutput) :
  sanityCheck this = Ok o -> o = this.
Proof.
  destruct (sanityCheck_cases this) as [H|[msg H]]; rewrite H; intros E;
    [injection E as <-; reflexivity|discriminate E].
Qed.

(** A successful run of the loop read some pairs, then the empty key. *)
Lemma fromBufferLoop_Ok_inv (fuel : nat) :
  forall (r : BufferReader) (o res : PsetOutput),
  fromBufferLoop fuel r o = Some (Ok res) ->
  exists kps r',
    readsPairs r kps r'
    /\ KeyPair.fromBuffer r' = Throw ErrEmptyKey
    /\ decodePairs kps o = Ok res
    /\ sanityCheck res = Ok res.
Proof.
  induction fuel as [|fuel IH]; intros r o res H; [discriminate H|].
  cbn [fromBufferLoop] in H.
  destruct (KeyPair.fromBuffer r) as [[kp r1]|e] eqn:E.
  - destruct (dispatch kp o) as [o1|e1] eqn:Ed; cbn [andThen] in H;
      [|discriminate H].
    destruct (IH r1 o1 res H) as (kps & r' & Hr & Ht & Hd & Hs).
    exists (kp :: kps), r'. split; [econstructor; eassumption|].
    split; [exact Ht|]. split; [|exact Hs].
    cbn [decodePairs]. rewrite Ed. exact Hd.
  - destruct e; try discriminate H.
    injection H as H.
    pose proof (sanityCheck_returns_this o res H) as ->.
    exists [], r. split; [constructor|]. split; [exact E|].
    split; [reflexivity|exact H].
Qed.

(** X1: decoding succeeds exactly when the reader yields a sequence of
    pairs that the decoder switch accepts one after the other, then an
    empty key, and the record built passes the invariant check; the result
    is that record. *)
Theorem fromBuffer_accepts_iff (r : BufferReader) (res : PsetOutput) :
  fromBuffer r = Ok res
  <-> exists kps r',
        readsPairs r kps r'
        /\ KeyPair.fromBuffer r' = Throw ErrEmptyKey
        /\ decodePairs kps (newPsetOutput None None None) = Ok res
        /\ sanityCheck res = Ok res.
Proof.
  split.
  - unfold fromBuffer. intros H. apply run_Ok in H.
    exact (fromBufferLoop_Ok_inv _ _ _ _ H).
  - intros (kps & r' & Hr & Ht & Hd & Hs).
    rewrite (fromBuffer_reads r r' kps Hr Ht), Hd. exact Hs.
Qed.

(** X2: a record returned by the decoder passes the invariant check. *)
Theorem fromBuffer_validated (r : BufferReader) (res : PsetOutput) :
  fromBuffer r = Ok res -> sanityCheck res = Ok res.
Proof.
  unfold fromBuffer. intros H. apply run_Ok in H.
  destruct (fromBufferLoop_Ok_inv _ _ _ _ H) as (kps & r' & _ & _ & _ & Hs).
  exact Hs.
Qed.

(** X3: the bytes of [toBuffer] are never accepted as they are: they hold
    no empty key, so the decoder either rejects one of the pairs or runs
    off the end of the buffer. *)
Theorem toBuffer_not_terminated (R : PsetOutput) (buf : Buffer) :
  toBuffer R = Ok buf -> exists e, fromBuffer buf = Throw e.
Proof.
  unfold toBuffer.
  destruct (getKeyPairs R) as [kps|] eqn:Ek; cbn [bind]; [|discriminate].
  destruct (mapM KeyPair.toBuffer kps) as [bufs|] eqn:Em; cbn [bind];
    [|discriminate].
  intros H. injection H as <-.
  pose proof (readsPairs_wire kps bufs [] Em) as Hr. rewrite app_nil_r in Hr.
  unfold fromBuffer.
  rewrite (fromBufferLoop_reads _ _ [] kps _ Hr) by lia.
  destruct (decodePairs kps (newPsetOutput None None None)) as [o|e];
    cbn [andThen]; cbn; eauto.
Qed.
(** ** What holds of a decoded record *)

Lemma len_slice_le (buf : Buffer) (s e : Z) :
  0 <= s <= e -> len (slice buf s e) <= e - s.
Proof.
  intros H. rewrite slice_spec by exact H. unfold len.
  rewrite length_firstn. lia.
Qed.

Lemma len_slice (buf : Buffer) (s e : Z) :
  0 <= s <= e -> s <= len buf -> len (slice buf s e) = Z.min e (len buf) - s.
Proof.
  intros H Hs. rewrite slice_spec by exact H. unfold len in *.
  rewrite length_firstn, length_skipn. lia.
Qed.

Lemma readUIntAt_range (w : Z) (buf : Buffer) (off n : Z) :
  0 <= off -> 0 <= w -> readUIntAt w buf off = Ok n -> 0 <= n < 256 ^ w.
Proof.
  unfold readUIntAt. intros Ho Hw.
  destruct (off + w <=? len buf); [|discriminate].
  intros E. injection E as <-.
  pose proof (readUIntLE_range (slice buf off (off + w))) as Hr.
  pose proof (len_slice_le buf off (off + w) ltac:(lia)) as Hl.
  unfold len in Hl.
  assert (256 ^ Z.of_nat (length (slice buf off (off + w))) <= 256 ^ w)
    by (apply Z.pow_le_mono_r; lia).
  lia.
Qed.

Lemma readUInt32LE_range (buf : Buffer) (off n : Z) :
  0 <= off -> readUInt32LE buf off = Ok n -> 0 <= n <= 4294967295.
Proof.
  intros Ho E. apply readUIntAt_range in E; [|lia|lia].
  change (256 ^ 4) with 4294967296 in E. lia.
Qed.

Lemma readUInt64LE_range (buf : Buffer) (off n : Z) :
  0 <= off -> readUInt64LE buf off = Ok n -> 0 <= n.
Proof.
  unfold readUInt64LE. intros Ho.
  destruct (readUInt32LE buf off) as [a|] eqn:Ea; [|discriminate]. cbn [bind].
  destruct (readUInt32LE buf (off + 4)) as [b|] eqn:Eb; [|discriminate].
  cbn [bind]. intros E. injection E as <-.
  apply readUInt32LE_range in Ea; [|lia].
  apply readUInt32LE_range in Eb; [|lia]. lia.
Qed.

Lemma varuint_encodingLength_Ok (x : Z) :
  0 <= x <= MAX_SAFE_INTEGER -> exists n, varuint.encodingLength x = Ok n.
Proof.
  intros Hx. unfold varuint.encodingLength, varuint.checkUInt53.
  destruct (Z.ltb_spec x 0); [lia|].
  destruct (Z.gtb_spec x MAX_SAFE_INTEGER); [lia|]. cbn [orb bind]. eauto.
Qed.

Lemma varuint_encode_Ok (x : Z) :
  0 <= x <= MAX_SAFE_INTEGER -> exists e, varuint.encode x = Ok e.
Proof.
  intros Hx. unfold varuint.encode, varuint.checkUInt53.
  destruct (Z.ltb_spec x 0); [lia|].
  destruct (Z.gtb_spec x MAX_SAFE_INTEGER); [lia|]. cbn [orb bind]. eauto.
Qed.

(** The length the encoder would use never exceeds the bytes read. *)
Lemma varuint_encodingLength_decode (buf : Buffer) (off x bytes n : Z) :
  0 <= off ->
  varuint.decode buf off = Ok (x, bytes) ->
  varuint.encodingLength x = Ok n -> n <= bytes.
Proof.
  unfold varuint.decode, varuint.encodingLength, readUInt8, readUInt16LE,
    readUInt32LE.
  intros Ho Hd He.
  destruct (varuint.checkUInt53 x); [|discriminate He]. cbn [bind] in He.
  injection He as <-.
  destruct (readUIntAt 1 buf off) as [first|]; [|discriminate Hd].
  cbn [bind] in Hd.
  destruct (Z.ltb_spec first 253).
  { injection Hd as <- <-. destruct (Z.ltb_spec first 253); lia. }
  destruct (first =? 253).
  { destruct (readUIntAt 2 buf (off + 1)) as [v|] eqn:E; [|discriminate Hd].
    cbn [bind] in Hd. injection Hd as <- <-.
    apply readUIntAt_range in E; [|lia|lia].
    change (256 ^ 2) with 65536 in E.
    destruct (Z.ltb_spec v 253); [lia|].
    destruct (Z.leb_spec v 65535); lia. }
  destruct (first =? 254).
  { destruct (readUIntAt 4 buf (off + 1)) as [v|] eqn:E; [|discriminate Hd].
    cbn [bind] in Hd. injection Hd as <- <-.
    apply readUIntAt_range in E; [|lia|lia].
    change (256 ^ 4) with 4294967296 in E.
    destruct (Z.ltb_spec v 253); [lia|].
    destruct (Z.leb_spec v 65535); [lia|].
    destruct (Z.leb_spec v 4294967295); lia. }
  destruct (readUIntAt 4 buf (off + 1)) as [lo|]; [|discriminate Hd].
  cbn [bind] in Hd.
  destruct (readUIntAt 4 buf (off + 5)) as [hi|]; [|discriminate Hd].
  cbn [bind] in Hd.
  destruct (varuint.checkUInt53 (hi * 4294967296 + lo)); [|discriminate Hd].
  cbn [bind] in Hd. injection Hd as <- <-.
  repeat match goal with |- context [if ?c then _ else _] => destruct c end; lia.
Qed.

(** The loop of the TAP_TREE case only appends leaves; each leaf accounts
    for at least three bytes of the value besides its script. *)
Lemma decodeTapLeaves_bytes (fuel : nat) (value : Buffer) :
  forall (off : Z) (acc res : list TapLeaf),
  0 <= off ->
  decodeTapLeaves fuel value off acc = Some (Ok res) ->
  exists more,
    res = acc ++ more
    /\ fold_right Z.add 0 (map (fun leaf => 3 + len (leafScript leaf)) more)
       <= Z.max 0 (len value - off)
    /\ Forall (fun leaf => len (leafScript leaf) <= MAX_SAFE_INTEGER) more.
Proof.
  induction fuel as [|fuel IH]; intros off acc res Ho; cbn [decodeTapLeaves].
  - destruct (Z.ltb_spec off (len value)); [discriminate|].
    intros Hres. injection Hres as <-. exists []. rewrite app_nil_r.
    cbn. split; [reflexivity|]. split; [lia|constructor].
  - destruct (Z.ltb_spec off (len value)).
    + destruct (varuint.decode value (off + 2)) as [[scriptLen bytes]|] eqn:Ed;
        cbn [andThen]; [|discriminate].
      destruct (varuint.encodingLength scriptLen) as [n|] eqn:En;
        cbn [andThen]; [|discriminate].
      intros Hres.
      pose proof (varuint_encodingLength_decode value (off + 2) scriptLen bytes n
                    ltac:(lia) Ed En) as Hn.
      pose proof (varuint_encodingLength_pos _ _ En) as Hp.
      pose proof (varuint_decode_inv _ _ _ _ Ed) as (Hs & Hb & Hl).
      destruct (IH (off + 2 + n + scriptLen) _ _ ltac:(lia) Hres) as (more & -> & Hsum & Hall).
      exists (mkTapLeaf (at_ value off) (at_ value (off + 1))
                (slice value (off + 2 + n) (off + 2 + n + scriptLen)) :: more).
      rewrite <- app_assoc. split; [reflexivity|].
      pose proof (len_slice value (off + 2 + n) (off + 2 + n + scriptLen)
                    ltac:(lia) ltac:(lia)) as Hlen.
      split.
      * cbn [map fold_right leafScript]. lia.
      * constructor; [|exact Hall]. cbn [leafScript]. lia.
    + intros Hres. injection Hres as <-. exists []. rewrite app_nil_r.
      cbn. split; [reflexivity|]. split; [lia|constructor].
Qed.

(** X4: the leaves decoded from a TAP_TREE value account for its bytes:
    three bytes and its script for each leaf; in particular a value of [L]
    bytes holds at most [L / 3] leaves. *)
Theorem decodeTapTree_bytes (value : Buffer) (leaves : list TapLeaf) :
  decodeTapTree value = Ok leaves ->
  fold_right Z.add 0 (map (fun leaf => 3 + len (leafScript leaf)) leaves)
  <= len value
  /\ 3 * Z.of_nat (length leaves) <= len value.
Proof.
  unfold decodeTapTree. intros H. apply run_Ok in H.
  destruct (decodeTapLeaves_bytes _ value 0 [] leaves ltac:(lia) H) as (more & -> & Hs & _).
  cbn [app]. pose proof (len_nonneg value).
  assert (Hc : 3 * Z.of_nat (length more)
               <= fold_right Z.add 0
                    (map (fun leaf => 3 + len (leafScript leaf)) more)).
  { clear. induction more as [|l more IH]; cbn [length map fold_right]; [lia|].
    pose proof (len_nonneg (leafScript l)). lia. }
  lia.
Qed.
Ltac unfold_setters :=
  cbn [set_redeemScript set_witnessScript set_bip32Derivation set_value
    set_script set_tapBip32Derivation set_tapTree set_tapInternalKey
    set_valueCommitment set_asset set_assetCommitment set_valueRangeproof
    set_assetSurjectionProof set_blindingPubkey set_ecdhPubkey set_blinderIndex
    set_blindValueProof set_blindAssetProof set_proprietaryData set_unknowns
    redeemScript witnessScript bip32Derivation value script tapBip32Derivation
    tapTree tapInternalKey valueCommitment asset assetCommitment
    valueRangeproof assetSurjectionProof blindingPubkey ecdhPubkey
    blinderIndex blindValueProof blindAssetProof proprietaryData unknowns].

Lemma sized_Some (n : Z) (v : Buffer) :
  negb (len v =? n) = false -> sized n (Some v).
Proof.
  intros H b E. injection E as <-.
  destruct (Z.eqb_spec (len v) n); [assumption|discriminate H].
Qed.

Lemma Decoded_new : Decoded (newPsetOutput None None None : PsetOutput).
Proof.
  constructor; cbn; try (intros ? E; discriminate E); try lia.
  exists []. split; [reflexivity|left; reflexivity].
Qed.

Lemma dispatch_Decoded (kp : KeyPair.t) (o o' : PsetOutput) :
  Decoded o -> dispatch kp o = Ok o' -> Decoded o'.
Proof.
  intros [Hv Hbi Htik Hvc Ha Hac Hbpk Hecdh Htt].
  unfold dispatch, dispatchProprietary. cbv zeta.
  walk.
  all: intros Hd; injection Hd as <-.
  all: constructor; unfold_setters; try assumption.
  all: try (apply sized_Some; assumption).
  - eapply readUInt64LE_range; [|eassumption]. lia.
  - intros t E. injection E as <-. cbn [leaves].
    match goal with
    | H : decodeTapTree ?v = Ok ?l |- _ =>
      unfold decodeTapTree in H; apply run_Ok in H;
      destruct (decodeTapLeaves_bytes _ v 0 [] l ltac:(lia) H)
        as (more & -> & _ & Hall)
    end.
    exact Hall.
  - eexists. split; [reflexivity|]. right.
    match goal with
    | H : negb (len ?v =? 32) = false |- _ =>
      destruct (Z.eqb_spec (len v) 32); [assumption|discriminate H]
    end.
  - intros n E. injection E as <-.
    eapply readUInt32LE_range; [|eassumption]. lia.
Qed.

Lemma existsb_key_false {A} (key : A -> Buffer) (k : Buffer) (l : list A) :
  existsb (fun d => buffer_eqb (key d) k) l = false -> ~ In k (map key l).
Proof.
  intros H Hin. apply in_map_iff in Hin. destruct Hin as (d & <- & Hd).
  assert (existsb (fun d0 => buffer_eqb (key d0) (key d)) l = true) as Ht.
  { apply existsb_exists. exists d. split; [exact Hd|].
    apply buffer_eqb_eq. reflexivity. }
  congruence.
Qed.

Lemma NoDup_snoc {A} (l : list A) (a : A) :
  NoDup l -> ~ In a l -> NoDup (l ++ [a]).
Proof.
  intros Hl Ha. apply NoDup_app; [exact Hl|repeat constructor; intros []|].
  intros x Hx [<-|[]]. exact (Ha Hx).
Qed.

Lemma snoc_not_nil {A} (l : list A) (a : A) : Some (l ++ [a]) <> Some [].
Proof. destruct l; discriminate. Qed.

Lemma readLeafHashes_sized (v : Buffer) (nHashes nHashesLen : Z) :
  0 <= nHashes -> 0 <= nHashesLen ->
  Z.of_nat (length (readLeafHashes v nHashes nHashesLen)) = nHashes
  /\ Forall (fun h => len h <= 32) (readLeafHashes v nHashes nHashesLen).
Proof.
  intros Hn Hl. unfold readLeafHashes. split.
  - rewrite length_map, length_seq. lia.
  - apply Forall_map, Forall_forall. intros i _. cbv zeta.
    pose proof (len_slice_le v (nHashesLen + 32 * Z.of_nat i)
                  (nHashesLen + 32 * Z.of_nat i + 32) ltac:(lia)).
    lia.
Qed.

Lemma DecodedLists_new : DecodedLists (newPsetOutput None None None : PsetOutput).
Proof.
  constructor; cbn; try discriminate; constructor.
Qed.

Lemma dispatch_DecodedLists (kp : KeyPair.t) (o o' : PsetOutput) :
  DecodedLists o -> dispatch kp o = Ok o' -> DecodedLists o'.
Proof.
  intros [Hbs Hbk Hbu Hts Htk Htu Hps Hp Hus Hu].
  unfold dispatch, dispatchProprietary. cbv zeta.
  walk.
  all: intros Hd; injection Hd as <-.
  all: constructor; unfold_setters; try assumption.
  all: try apply snoc_not_nil.
  all: cbn [orEmpty]; rewrite ?map_app; cbn [map pubkey tapPubkey].
  all: try (apply NoDup_snoc; [assumption|apply existsb_key_false; assumption]).
  all: apply Forall_app; (split; [assumption|]); constructor; [|constructor].
  - cbn [pubkey].
    match goal with
    | H : negb (len ?v =? 33) = false |- _ =>
      destruct (Z.eqb_spec (len v) 33); [assumption|discriminate H]
    end.
  - cbn [tapPubkey leafHashes].
    split.
    { match goal with
      | H : negb (len ?v =? 33) = false |- _ =>
        destruct (Z.eqb_spec (len v) 33); [assumption|discriminate H]
      end. }
    match goal with
    | H : varuint.decode _ 0 = Ok _, H' : varuint.encodingLength _ = Ok _,
      H'' : (4294967295 <? _) = false |- _ =>
      apply varuint_decode_inv in H; apply varuint_encodingLength_pos in H';
      apply Z.ltb_ge in H''
    end.
    match goal with
    | |- context [readLeafHashes ?v ?n ?l] =>
      destruct (readLeafHashes_sized v n l ltac:(lia) ltac:(lia)) as [-> Hall]
    end.
    split; [assumption|exact Hall].
  - split.
    + match goal with
      | H : buffer_eqb _ _ = true |- _ => apply buffer_eqb_eq in H; exact H
      end.
    + unfold proprietaryField.
      repeat match goal with
      | H : Byte.eqb _ _ = false |- _ => rewrite ?H; clear H
      end.
      reflexivity.
  - unfold isUnknownPair, isKnownType.
    repeat match goal with
    | H : Byte.eqb _ _ = false |- _ => rewrite ?H; clear H
    end.
    reflexivity.
Qed.

Lemma decodePairs_invariant (P : PsetOutput -> Prop) :
  (forall kp o o', P o -> dispatch kp o = Ok o' -> P o') ->
  forall kps o o', P o -> decodePairs kps o = Ok o' -> P o'.
Proof.
  intros Hstep kps. induction kps as [|kp kps IH]; intros o o' Ho H.
  - cbn in H. injection H as <-. exact Ho.
  - cbn [decodePairs] in H.
    destruct (dispatch kp o) as [o1|] eqn:E; [|discriminate H].
    cbn [bind] in H. eauto.
Qed.

Lemma fromBuffer_decodePairs (r : BufferReader) (res : PsetOutput) :
  fromBuffer r = Ok res ->
  exists kps, decodePairs kps (newPsetOutput None None None) = Ok res.
Proof.
  unfold fromBuffer. intros H. apply run_Ok in H.
  destruct (fromBufferLoop_Ok_inv _ _ _ _ H) as (kps & r' & _ & _ & Hd & _).
  eauto.
Qed.

(** X5: in a record returned by the decoder the amount is not negative,
    the blinder index fits 32 bits, the fixed-size
    fields that are defined have their mandated length, the asset is defined
    and is empty or of 32 bytes, and every leaf script has a length the
    encoder can write. *)
Theorem fromBuffer_Decoded (r : BufferReader) (res : PsetOutput) :
  fromBuffer r = Ok res -> Decoded res.
Proof.
  intros H. destruct (fromBuffer_decodePairs r res H) as (kps & Hd).
  exact (decodePairs_invariant Decoded dispatch_Decoded kps _ _ Decoded_new Hd).
Qed.

(** X6: in a record returned by the decoder the derivation lists hold
    33-byte keys, each once, with at most 2^32-1 leaf hashes of at most 32
    bytes each; the proprietary list holds only entries under the registered
    identifier with a sub-type that names no field; the unknown list holds
    only pairs of a type the decoder has no case for; no list is defined and
    empty. *)
Theorem fromBuffer_DecodedLists (r : BufferReader) (res : PsetOutput) :
  fromBuffer r = Ok res -> DecodedLists res.
Proof.
  intros H. destruct (fromBuffer_decodePairs r res H) as (kps & Hd).
  exact (decodePairs_invariant DecodedLists dispatch_DecodedLists kps _ _
           DecodedLists_new Hd).
Qed.
(** ** When the encoder throws *)

Lemma isOk_true {A} (m : Result A) : isOk m = true <-> exists a, m = Ok a.
Proof.
  destruct m; cbn; split; eauto; try discriminate.
  intros [a H]. discriminate H.
Qed.

Lemma isOk_mapM {A B} (f : A -> Result B) (l : list A) :
  isOk (mapM f l) = true <-> Forall (fun a => isOk (f a) = true) l.
Proof.
  induction l as [|a l IH]; cbn [mapM].
  - split; [constructor|reflexivity].
  - destruct (f a) as [b|] eqn:E; cbn [bind].
    + destruct (mapM f l) as [bs|]; cbn [bind isOk] in *.
      * split; [|reflexivity]. intros _. constructor; [now rewrite E|now apply IH].
      * split; [discriminate|]. intros H. inversion H; subst. now apply IH.
    + cbn [isOk]. split; [discriminate|].
      intros H. inversion H as [|? ? Ha]; subst. rewrite E in Ha. exact Ha.
Qed.

Lemma isOk_varuint_encode (x : Z) :
  isOk (varuint.encode x) = true <-> 0 <= x <= MAX_SAFE_INTEGER.
Proof.
  unfold varuint.encode, varuint.checkUInt53.
  destruct (Z.ltb_spec x 0); destruct (Z.gtb_spec x MAX_SAFE_INTEGER);
    cbn [orb bind isOk]; split; intros; try lia; try discriminate; reflexivity.
Qed.

Lemma isOk_encodeTapBip32Pair (d : TapBip32Derivation) :
  isOk (encodeTapBip32Pair d) = true
  <-> Z.of_nat (length (leafHashes d)) <= MAX_SAFE_INTEGER.
Proof.
  unfold encodeTapBip32Pair.
  pose proof (isOk_varuint_encode (Z.of_nat (length (leafHashes d)))) as H.
  destruct (varuint.encode _); cbn [bind isOk] in *; split; intros;
    try lia; try reflexivity; try (apply H; lia).
Qed.

Lemma isOk_encodeTapLeaf (leaf : TapLeaf) :
  isOk (encodeTapLeaf leaf) = true <-> len (leafScript leaf) <= MAX_SAFE_INTEGER.
Proof.
  unfold encodeTapLeaf.
  pose proof (isOk_varuint_encode (len (leafScript leaf))) as H.
  pose proof (len_nonneg (leafScript leaf)).
  destruct (varuint.encode _); cbn [bind isOk] in *; split; intros;
    try lia; try reflexivity; try (apply H; lia).
Qed.

Lemma isOk_encodeTapTree (t : option TapTree) :
  isOk (encodeTapTree t) = true
  <-> forall tree, t = Some tree ->
      Forall (fun leaf => len (leafScript leaf) <= MAX_SAFE_INTEGER) (leaves tree).
Proof.
  destruct t as [tree|]; cbn [encodeTapTree].
  - pose proof (isOk_mapM encodeTapLeaf (leaves tree)) as H.
    destruct (mapM encodeTapLeaf (leaves tree)); cbn [bind isOk] in *.
    + split; [|reflexivity]. intros _ t E. injection E as <-.
      eapply Forall_impl; [|apply H; reflexivity].
      intros leaf. apply isOk_encodeTapLeaf.
    + split; [discriminate|]. intros Hall. apply H.
      eapply Forall_impl; [|apply (Hall tree eq_refl)].
      intros leaf. apply isOk_encodeTapLeaf.
  - split; [|reflexivity]. intros _ t E. discriminate E.
Qed.

Lemma isOk_writeUInt64LE (v : Z) :
  isOk (writeUInt64LE v) = true <-> 0 <= v <= 18446744073709551615.
Proof.
  unfold writeUInt64LE.
  destruct (Z.leb_spec 0 v); destruct (Z.leb_spec v 18446744073709551615);
    cbn [andb isOk]; split; intros; try lia; try discriminate; reflexivity.
Qed.

Lemma isOk_writeUInt32LE (v : Z) :
  isOk (writeUInt32LE v) = true <-> 0 <= v <= 4294967295.
Proof.
  unfold writeUInt32LE.
  destruct (Z.leb_spec 0 v); destruct (Z.leb_spec v 4294967295);
    cbn [andb isOk]; split; intros; try lia; try discriminate; reflexivity.
Qed.

Lemma isOk_getKeyPairs (R : PsetOutput) :
  isOk (getKeyPairs R) = true <-> encodable R.
Proof.
  pose proof (isOk_mapM encodeTapBip32Pair (orEmpty (tapBip32Derivation R))) as Ht.
  pose proof (isOk_encodeTapTree (tapTree R)) as Htree.
  pose proof (isOk_writeUInt64LE (value R)) as Hv.
  pose proof (isOk_writeUInt32LE
                (if greaterThanZero (blinderIndex R)
                 then match blinderIndex R with Some n => n | None => 0 end
                 else 0)) as Hb.
  assert (Hbi : 0 <= (if greaterThanZero (blinderIndex R)
                      then match blinderIndex R with Some n => n | None => 0 end
                      else 0) <= 4294967295
                <-> forall n, blinderIndex R = Some n -> n <= 4294967295).
  { destruct (blinderIndex R) as [n|]; cbn [greaterThanZero].
    - destruct (Z.ltb_spec 0 n); split.
      + intros ? m E. injection E as <-. lia.
      + intros Hn. specialize (Hn n eq_refl). lia.
      + intros _ m E. injection E as <-. lia.
      + intros _. lia.
    - split; [intros _ m E; discriminate E|intros _; lia]. }
  assert (Hhs : Forall (fun a => isOk (encodeTapBip32Pair a) = true)
                  (orEmpty (tapBip32Derivation R))
                <-> Forall (fun d => Z.of_nat (length (leafHashes d))
                                     <= MAX_SAFE_INTEGER)
                      (orEmpty (tapBip32Derivation R))).
  { split; intros Hall; (eapply Forall_impl; [|exact Hall]); intros d;
      apply isOk_encodeTapBip32Pair. }
  unfold getKeyPairs. cbv zeta.
  destruct (mapM encodeTapBip32Pair _); cbn [bind isOk] in *.
  2: { split; [discriminate|]. intros [_ _ H _]. apply Ht, Hhs, H. }
  destruct (encodeTapTree _); cbn [bind isOk] in *.
  2: { split; [discriminate|]. intros [_ _ _ H]. apply Htree, H. }
  destruct (writeUInt64LE _); cbn [bind isOk] in *.
  2: { split; [discriminate|]. intros [H _ _ _]. apply Hv, H. }
  destruct (writeUInt32LE _); cbn [bind isOk] in *.
  2: { split; [discriminate|]. intros [_ H _ _]. apply Hb, Hbi, H. }
  split; [|reflexivity]. intros _. constructor.
  - now apply Hv.
  - now apply Hbi, Hb.
  - now apply Hhs, Ht.
  - now apply Htree.
Qed.

(** X7: the encoder lays a record out as key pairs exactly when the amount
    fits 64 bits unsigned, the blinder index does not exceed 32 bits, and
    every leaf-hash count and leaf-script length can be written as a varint;
    otherwise it throws. *)
Theorem getKeyPairs_succeeds_iff (R : PsetOutput) :
  (exists keyPairs, getKeyPairs R = Ok keyPairs) <-> encodable R.
Proof.
  rewrite <- isOk_true. apply isOk_getKeyPairs.
Qed.

(** X8: a record returned by the decoder whose amount fits 64 bits can be
    laid out as key pairs again: the encoder does not throw on it.  The
    bound is there for the amounts that a JavaScript number rounds up to
    2^64. *)
Theorem getKeyPairs_of_decoded (r : BufferReader) (res : PsetOutput) :
  fromBuffer r = Ok res ->
  value res <= 18446744073709551615 ->
  exists keyPairs, getKeyPairs res = Ok keyPairs.
Proof.
  intros H Hfit. apply isOk_true, isOk_getKeyPairs.
  destruct (fromBuffer_decodePairs r res H) as (kps & Hd).
  pose proof (decodePairs_invariant Decoded dispatch_Decoded kps _ _
                Decoded_new Hd) as [Hv Hbi _ _ _ _ _ _ Htt].
  pose proof (decodePairs_invariant DecodedLists dispatch_DecodedLists kps _ _
                DecodedLists_new Hd) as [_ _ _ _ Htk _ _ _ _ _].
  constructor.
  - lia.
  - intros n E. apply (Hbi n E).
  - eapply Forall_impl; [|exact Htk]. cbv beta.
    intros d (_ & Hl & _). unfold MAX_SAFE_INTEGER. lia.
  - exact Htt.
Qed.
(** ** Pairs the decoder rejects *)

Lemma pair_rejected_with (kp : KeyPair.t) (pre : list KeyPair.t)
    (r r' : BufferReader) (o : PsetOutput) (e : Exn) :
  readsPairs r (pre ++ [kp]) r' ->
  decodePairs pre (newPsetOutput None None None) = Ok o ->
  dispatch kp o = Throw e ->
  fromBuffer r = Throw e.
Proof.
  intros Hr Hp Hd. apply (fromBuffer_reads_throw r r' _ _ Hr).
  rewrite decodePairs_app, Hp. cbn [bind decodePairs]. rewrite Hd. reflexivity.
Qed.

Lemma pair_rejected (kp : KeyPair.t) (pre : list KeyPair.t) (r r' : BufferReader) :
  (forall o : PsetOutput, exists e, dispatch kp o = Throw e) ->
  readsPairs r (pre ++ [kp]) r' ->
  exists e, fromBuffer r = Throw e.
Proof.
  intros Hd Hr.
  destruct (decodePairs pre (newPsetOutput None None None)) as [o|e] eqn:E.
  - destruct (Hd o) as [e He]. exists e.
    exact (pair_rejected_with kp pre r r' o e Hr E He).
  - exists e. apply (fromBuffer_reads_throw r r' _ _ Hr).
    rewrite decodePairs_app, E. reflexivity.
Qed.

Lemma dispatch_wrong_length (f : NamedField) (kp : KeyPair.t) (o : PsetOutput)
    (n : Z) :
  fieldOf kp = Some f -> mandatedLength f = Some n ->
  len (KeyPair.value kp) <> n ->
  dispatch kp o
  = Throw (if occupied f o then OutputDuplicateFieldError (fieldName f)
           else Error (lengthError f)).
Proof.
  named_field_cases.
  all: cbn [mandatedLength]; intros Hm; try discriminate Hm;
    injection Hm as <-; intros Hl.
  all: cbn [occupied fieldName lengthError isSome].
  all: try match goal with
       | |- context [blinderIndex ?o] => destruct (blinderIndex o); [reflexivity|]
       end.
  all: try match goal with
       | |- (if ?c then _ else _) = Throw (if ?c then _ else _) =>
         destruct c; [reflexivity|]
       end.
  all: match goal with
       | |- context [len ?v =? ?k] =>
         destruct (Z.eqb_spec (len v) k); [contradiction|reflexivity]
       end.
Qed.

(** X9: a pair that addresses a fixed-size field with a value of another
    length is rejected whatever was decoded before it: with the
    duplicate-field error when the field is occupied, else with the length
    error of the field.  A stream in which such a pair is read is never
    decoded. *)
Theorem wrong_length_rejected (f : NamedField) (n : Z) (kp : KeyPair.t)
    (pre : list KeyPair.t) (r r' : BufferReader) :
  fieldOf kp = Some f -> mandatedLength f = Some n ->
  len (KeyPair.value kp) <> n ->
  readsPairs r (pre ++ [kp]) r' ->
  (exists e, fromBuffer r = Throw e)
  /\ (forall o, decodePairs pre (newPsetOutput None None None) = Ok o ->
      fromBuffer r
      = Throw (if occupied f o then OutputDuplicateFieldError (fieldName f)
               else Error (lengthError f))).
Proof.
  intros Hf Hm Hl Hr. split.
  - apply (pair_rejected kp pre r r'); [|exact Hr].
    intros o. eexists. exact (dispatch_wrong_length f kp o n Hf Hm Hl).
  - intros o Ho. apply (pair_rejected_with kp pre r r' o _ Hr Ho).
    exact (dispatch_wrong_length f kp o n Hf Hm Hl).
Qed.

(** *** Derivation keys *)

Lemma dispatch_derivation_key_length (tap : bool) (kp : KeyPair.t) (o : PsetOutput) :
  Key.keyType (KeyPair.key kp) = derivationType tap ->
  len (Key.keyData (KeyPair.key kp)) <> 33 ->
  dispatch kp o = Throw (Error (derivationKeyError tap)).
Proof.
  intros Hk Hl. unfold dispatch. cbv zeta. rewrite Hk.
  destruct tap; cbn [derivationType derivationKeyError]; eval_codes;
    (destruct (Z.eqb_spec (len (Key.keyData (KeyPair.key kp))) 33);
     [contradiction|reflexivity]).
Qed.

Lemma dispatch_derivation_duplicate (tap : bool) (kp : KeyPair.t) (o : PsetOutput) :
  Key.keyType (KeyPair.key kp) = derivationType tap ->
  len (Key.keyData (KeyPair.key kp)) = 33 ->
  In (Key.keyData (KeyPair.key kp)) (derivationKeys tap o) ->
  dispatch kp o = Throw (OutputDuplicateFieldError (derivationName tap)).
Proof.
  intros Hk Hl Hin. unfold dispatch. cbv zeta. rewrite Hk, Hl.
  destruct tap; cbn [derivationType derivationName derivationKeys] in *;
    eval_codes; cbn [Z.eqb Pos.eqb negb].
  - destruct (existsb _ _) eqn:E; [reflexivity|].
    apply existsb_key_false in E. contradiction.
  - destruct (existsb _ _) eqn:E; [reflexivity|].
    apply existsb_key_false in E. contradiction.
Qed.

Lemma dispatch_derivation_added (tap : bool) (kp : KeyPair.t) (o o' : PsetOutput) :
  Key.keyType (KeyPair.key kp) = derivationType tap ->
  dispatch kp o = Ok o' ->
  len (Key.keyData (KeyPair.key kp)) = 33
  /\ In (Key.keyData (KeyPair.key kp)) (derivationKeys tap o').
Proof.
  intros Hk. unfold dispatch. cbv zeta. rewrite Hk.
  destruct tap; cbn [derivationType derivationKeys]; eval_codes.
  all: walk; intros Hd; injection Hd as <-; unfold_setters; cbn [orEmpty].
  all: split;
    [match goal with
     | H : negb (len ?v =? 33) = false |- _ =>
       destruct (Z.eqb_spec (len v) 33); [assumption|discriminate H]
     end
    |rewrite map_app; apply in_or_app; right; left; reflexivity].
Qed.

Lemma dispatch_derivation_mono (tap : bool) (k : Buffer) (kp : KeyPair.t)
    (o o' : PsetOutput) :
  dispatch kp o = Ok o' ->
  In k (derivationKeys tap o) -> In k (derivationKeys tap o').
Proof.
  unfold dispatch, dispatchProprietary. cbv zeta.
  walk.
  all: intros Hd; injection Hd as <-; try (intros; assumption).
  all: destruct tap; cbn [derivationKeys]; unfold_setters; cbn [orEmpty];
    try (intros; assumption).
  all: intros Hin; rewrite map_app; apply in_or_app; left; exact Hin.
Qed.

Lemma decodePairs_derivation_mono (tap : bool) (k : Buffer) (kps : list KeyPair.t)
    (o o' : PsetOutput) :
  decodePairs kps o = Ok o' ->
  In k (derivationKeys tap o) -> In k (derivationKeys tap o').
Proof.
  intros Hd Hin.
  apply (decodePairs_invariant (fun o => In k (derivationKeys tap o)))
    with (kps := kps) (o := o); [|exact Hin|exact Hd].
  intros kp o1 o2 H1 H2. exact (dispatch_derivation_mono tap k kp o1 o2 H2 H1).
Qed.

(** X10: a derivation pair (plain or taproot) whose key data is not of 33
    bytes is rejected whatever was decoded before it, with the key-length
    error of its list. *)
Theorem derivation_key_length_rejected (tap : bool) (kp : KeyPair.t)
    (pre : list KeyPair.t) (r r' : BufferReader) :
  Key.keyType (KeyPair.key kp) = derivationType tap ->
  len (Key.keyData (KeyPair.key kp)) <> 33 ->
  readsPairs r (pre ++ [kp]) r' ->
  (forall o : PsetOutput, dispatch kp o = Throw (Error (derivationKeyError tap)))
  /\ (exists e, fromBuffer r = Throw e)
  /\ (forall o, decodePairs pre (newPsetOutput None None None) = Ok o ->
      fromBuffer r = Throw (Error (derivationKeyError tap))).
Proof.
  intros Hk Hl Hr. split; [|split].
  - intros o. exact (dispatch_derivation_key_length tap kp o Hk Hl).
  - apply (pair_rejected kp pre r r'); [|exact Hr].
    intros o. eexists. exact (dispatch_derivation_key_length tap kp o Hk Hl).
  - intros o Ho. apply (pair_rejected_with kp pre r r' o _ Hr Ho).
    exact (dispatch_derivation_key_length tap kp o Hk Hl).
Qed.

(** X11: a stream with two derivation pairs of the same list (plain or
    taproot) under the same key is never decoded; when the pairs before the
    second one are accepted, the error is the duplicate-field error naming
    the list. *)
Theorem derivation_duplicate_rejected (tap : bool) (kp1 kp2 : KeyPair.t)
    (pre mid : list KeyPair.t) (r r' : BufferReader) :
  Key.keyType (KeyPair.key kp1) = derivationType tap ->
  Key.keyType (KeyPair.key kp2) = derivationType tap ->
  Key.keyData (KeyPair.key kp1) = Key.keyData (KeyPair.key kp2) ->
  readsPairs r (pre ++ kp1 :: mid ++ [kp2]) r' ->
  (exists e, fromBuffer r = Throw e)
  /\ (forall o, decodePairs (pre ++ kp1 :: mid) (newPsetOutput None None None) = Ok o ->
      fromBuffer r = Throw (OutputDuplicateFieldError (derivationName tap))).
Proof.
  intros H1 H2 Hk Hr.
  change (pre ++ kp1 :: mid ++ [kp2]) with (pre ++ (kp1 :: mid) ++ [kp2]) in Hr.
  rewrite app_assoc in Hr.
  assert (Hdup : forall o,
            decodePairs (pre ++ kp1 :: mid) (newPsetOutput None None None) = Ok o ->
            dispatch kp2 o = Throw (OutputDuplicateFieldError (derivationName tap))).
  { intros o Ho. rewrite decodePairs_app in Ho.
    destruct (decodePairs pre _) as [o1|]; [|discriminate Ho].
    cbn [bind decodePairs] in Ho.
    destruct (dispatch kp1 o1) as [o2|] eqn:E1; [|discriminate Ho].
    cbn [bind] in Ho.
    destruct (dispatch_derivation_added tap kp1 o1 o2 H1 E1) as [Hl Hin].
    apply dispatch_derivation_duplicate; [exact H2|congruence|].
    rewrite <- Hk. exact (decodePairs_derivation_mono tap _ mid o2 o Ho Hin). }
  split.
  - destruct (decodePairs (pre ++ kp1 :: mid) (newPsetOutput None None None))
      as [o|e] eqn:E.
    + eexists. exact (pair_rejected_with kp2 _ r r' o _ Hr E (Hdup o eq_refl)).
    + exists e. apply (fromBuffer_reads_throw r r' _ _ Hr).
      rewrite decodePairs_app, E. reflexivity.
  - intros o Ho. exact (pair_rejected_with kp2 _ r r' o _ Hr Ho (Hdup o Ho)).
Qed.
(** ** What a decoded record holds *)

Lemma reads_decoded (r r' : BufferReader) (kps : list KeyPair.t) (res : PsetOutput) :
  readsPairs r kps r' -> KeyPair.fromBuffer r' = Throw ErrEmptyKey ->
  fromBuffer r = Ok res ->
  decodePairs kps (newPsetOutput None None None) = Ok res
  /\ sanityCheck res = Ok res.
Proof.
  intros Hr Ht H. rewrite (fromBuffer_reads r r' kps Hr Ht) in H.
  destruct (decodePairs kps _) as [o|]; [|discriminate H]. cbn [bind] in H.
  pose proof (sanityCheck_returns_this o res H) as ->. split; [reflexivity|exact H].
Qed.

Lemma appended_app {A} (cur : option (list A)) (a b : list A) :
  appended (appended cur a) b = appended cur (a ++ b).
Proof.
  destruct a as [|x a]; [reflexivity|].
  destruct b as [|y b]; cbn [appended app orEmpty].
  - now rewrite app_nil_r.
  - now rewrite <- app_assoc.
Qed.

Ltac known_codes :=
  repeat match goal with
  | H : Byte.eqb (Key.keyType _) _ = false |- _ => rewrite ?H; clear H
  | H : Byte.eqb (Key.keyType _) _ = true |- _ =>
    apply Byte.byte_dec_bl in H; rewrite ?H; clear H
  end;
  eval_codes;
  repeat match goal with
  | H : ProprietaryData.fromKeyPair _ = _ |- _ => rewrite ?H; clear H
  end;
  repeat match goal with
  | H : buffer_eqb _ _ = _ |- _ => rewrite ?H; clear H
  end;
  repeat match goal with
  | H : Byte.eqb _ _ = false |- _ => rewrite ?H; clear H
  | H : Byte.eqb _ _ = true |- _ =>
    apply Byte.byte_dec_bl in H; rewrite ?H; clear H
  end;
  eval_codes.

Lemma dispatch_unknowns (kp : KeyPair.t) (o o' : PsetOutput) :
  dispatch kp o = Ok o' ->
  unknowns o' = appended (unknowns o) (if isUnknownPair kp then [kp] else []).
Proof.
  unfold dispatch, dispatchProprietary. cbv zeta.
  walk.
  all: intros Hd; injection Hd as <-; unfold_setters.
  all: unfold isUnknownPair, isKnownType; known_codes; reflexivity.
Qed.

Lemma dispatch_proprietaryData (kp : KeyPair.t) (o o' : PsetOutput) :
  dispatch kp o = Ok o' ->
  proprietaryData o' = appended (proprietaryData o) (unnamedProprietary kp).
Proof.
  unfold dispatch, dispatchProprietary. cbv zeta.
  walk.
  all: intros Hd; injection Hd as <-; unfold_setters.
  all: unfold unnamedProprietary, proprietaryField; known_codes; reflexivity.
Qed.

Lemma decodePairs_unknowns (kps : list KeyPair.t) :
  forall o o' : PsetOutput,
  decodePairs kps o = Ok o' ->
  unknowns o' = appended (unknowns o) (filter isUnknownPair kps).
Proof.
  induction kps as [|kp kps IH]; intros o o' H.
  - cbn in H. injection H as <-. reflexivity.
  - cbn [decodePairs] in H.
    destruct (dispatch kp o) as [o1|] eqn:E; [|discriminate H]. cbn [bind] in H.
    rewrite (IH o1 o' H), (dispatch_unknowns kp o o1 E), appended_app.
    cbn [filter]. destruct (isUnknownPair kp); reflexivity.
Qed.

Lemma decodePairs_proprietaryData (kps : list KeyPair.t) :
  forall o o' : PsetOutput,
  decodePairs kps o = Ok o' ->
  proprietaryData o' = appended (proprietaryData o) (flat_map unnamedProprietary kps).
Proof.
  induction kps as [|kp kps IH]; intros o o' H.
  - cbn in H. injection H as <-. reflexivity.
  - cbn [decodePairs] in H.
    destruct (dispatch kp o) as [o1|] eqn:E; [|discriminate H]. cbn [bind] in H.
    rewrite (IH o1 o' H), (dispatch_proprietaryData kp o o1 E), appended_app.
    reflexivity.
Qed.

Lemma orEmpty_appended_None {A} (l : list A) : orEmpty (appended None l) = l.
Proof. destruct l; reflexivity. Qed.

(** X12: the unknown list of a decoded record holds the pairs of the stream
    whose type the decoder has no case for, all of them and in stream
    order. *)
Theorem fromBuffer_unknowns (r r' : BufferReader) (kps : list KeyPair.t)
    (res : PsetOutput) :
  readsPairs r kps r' -> KeyPair.fromBuffer r' = Throw ErrEmptyKey ->
  fromBuffer r = Ok res ->
  orEmpty (unknowns res) = filter isUnknownPair kps.
Proof.
  intros Hr Ht H. destruct (reads_decoded r r' kps res Hr Ht H) as [Hd _].
  rewrite (decodePairs_unknowns kps _ _ Hd). apply orEmpty_appended_None.
Qed.

(** X13: the proprietary list of a decoded record holds the entries of the
    proprietary pairs under the registered identifier whose sub-type names
    no field, all of them and in stream order; pairs under another
    identifier leave no entry. *)
Theorem fromBuffer_proprietaryData (r r' : BufferReader) (kps : list KeyPair.t)
    (res : PsetOutput) :
  readsPairs r kps r' -> KeyPair.fromBuffer r' = Throw ErrEmptyKey ->
  fromBuffer r = Ok res ->
  orEmpty (proprietaryData res) = flat_map unnamedProprietary kps.
Proof.
  intros Hr Ht H. destruct (reads_decoded r r' kps res Hr Ht H) as [Hd _].
  rewrite (decodePairs_proprietaryData kps _ _ Hd). apply orEmpty_appended_None.
Qed.

(** *** Which fields are occupied *)

Lemma addresses_iff (f : NamedField) (kp : KeyPair.t) :
  addresses f kp = true <-> fieldOf kp = Some f.
Proof.
  unfold addresses. destruct (fieldOf kp) as [g|]; [|split; discriminate].
  destruct (NamedField_eq_dec g f) as [->|Hn]; split; try reflexivity;
    try discriminate. intros E. injection E as E. contradiction.
Qed.

Lemma dispatch_frame (f : NamedField) (kp : KeyPair.t) (o o' : PsetOutput) :
  dispatch kp o = Ok o' -> occupied f o' = occupied f o \/ fieldOf kp = Some f.
Proof.
  unfold dispatch, dispatchProprietary. cbv zeta.
  walk.
  all: intros Hd; injection Hd as <-; try (left; reflexivity).
  all: destruct f; unfold_setters; cbn [occupied]; unfold_setters;
    try (left; reflexivity).
  all: right; unfold fieldOf, proprietaryField; cbv zeta; known_codes; reflexivity.
Qed.

Lemma dispatch_occupied_after (f : NamedField) (kp : KeyPair.t) (o o' : PsetOutput) :
  dispatch kp o = Ok o' ->
  occupied f o' = occupied f o || (addresses f kp && carriesValue f kp).
Proof.
  intros Hd. destruct (addresses f kp) eqn:Ea.
  - apply addresses_iff in Ea. cbn [andb].
    rewrite (dispatch_assigns f kp o o' Ea Hd).
    destruct (occupied f o) eqn:Eo; [|reflexivity].
    rewrite (dispatch_occupied f kp o Ea Eo) in Hd. discriminate Hd.
  - cbn [andb]. rewrite orb_false_r.
    destruct (dispatch_frame f kp o o' Hd) as [H|H]; [exact H|].
    apply addresses_iff in H. congruence.
Qed.

Lemma decodePairs_occupied (f : NamedField) (kps : list KeyPair.t) :
  forall o o' : PsetOutput,
  decodePairs kps o = Ok o' ->
  occupied f o'
  = occupied f o || existsb (fun kp => addresses f kp && carriesValue f kp) kps.
Proof.
  induction kps as [|kp kps IH]; intros o o' H.
  - cbn in H. injection H as <-. cbn [existsb]. now rewrite orb_false_r.
  - cbn [decodePairs] in H.
    destruct (dispatch kp o) as [o1|] eqn:E; [|discriminate H]. cbn [bind] in H.
    rewrite (IH o1 o' H), (dispatch_occupied_after f kp o o1 E).
    cbn [existsb]. now rewrite orb_assoc.
Qed.

Lemma occupied_new (f : NamedField) :
  occupied f (newPsetOutput None None None : PsetOutput) = false.
Proof. destruct f; reflexivity. Qed.

(** X14: a named field of a decoded record is occupied exactly when the
    stream holds a pair that addresses it with a value that occupies it (a
    non-zero amount, a non-empty byte string, any taproot tree or blinder
    index). *)
Theorem fromBuffer_occupied (f : NamedField) (r r' : BufferReader)
    (kps : list KeyPair.t) (res : PsetOutput) :
  readsPairs r kps r' -> KeyPair.fromBuffer r' = Throw ErrEmptyKey ->
  fromBuffer r = Ok res ->
  occupied f res = existsb (fun kp => addresses f kp && carriesValue f kp) kps.
Proof.
  intros Hr Ht H. destruct (reads_decoded r r' kps res Hr Ht H) as [Hd _].
  rewrite (decodePairs_occupied f kps _ _ Hd), occupied_new. reflexivity.
Qed.

(** X15: every stream the decoder accepts holds a pair for the asset or for
    the asset commitment, with a non-empty value. *)
Theorem fromBuffer_asset_required (r r' : BufferReader) (kps : list KeyPair.t)
    (res : PsetOutput) :
  readsPairs r kps r' -> KeyPair.fromBuffer r' = Throw ErrEmptyKey ->
  fromBuffer r = Ok res ->
  existsb (fun kp => (addresses FAsset kp || addresses FAssetCommitment kp)
                     && (0 <? len (KeyPair.value kp))) kps = true.
Proof.
  intros Hr Ht H. destruct (reads_decoded r r' kps res Hr Ht H) as [Hd Hs].
  pose proof (decodePairs_occupied FAsset kps _ _ Hd) as Ha.
  pose proof (decodePairs_occupied FAssetCommitment kps _ _ Hd) as Hc.
  rewrite occupied_new in Ha, Hc. cbn [occupied orb carriesValue] in Ha, Hc.
  unfold sanityCheck in Hs. cbv zeta in Hs.
  destruct ((0 <? value res) && _); [discriminate Hs|].
  destruct (negb (truthy (isSet (assetCommitment res)))
            && negb (truthy (isSet (asset res)))) eqn:E; [discriminate Hs|].
  clear Hs. rewrite Ha, Hc in E.
  apply existsb_exists.
  destruct (existsb _ kps) eqn:E1 in E.
  - apply existsb_exists in E1. destruct E1 as (kp & Hin & Hkp).
    exists kp. split; [exact Hin|].
    apply andb_true_iff in Hkp. destruct Hkp as [-> ->].
    now rewrite orb_true_r.
  - cbn [negb andb] in E. apply negb_false_iff in E.
    apply existsb_exists in E. destruct E as (kp & Hin & Hkp).
    exists kp. split; [exact Hin|].
    apply andb_true_iff in Hkp. destruct Hkp as [-> ->]. reflexivity.
Qed.
(** ** Classification of decoded records *)

Lemma dispatch_accepted_length (f : NamedField) (n : Z) (kp : KeyPair.t)
    (o o' : PsetOutput) :
  fieldOf kp = Some f -> mandatedLength f = Some n ->
  dispatch kp o = Ok o' -> len (KeyPair.value kp) = n.
Proof.
  intros Hf Hm Hd. destruct (Z.eq_dec (len (KeyPair.value kp)) n) as [E|E];
    [exact E|].
  rewrite (dispatch_wrong_length f kp o n Hf Hm E) in Hd. discriminate Hd.
Qed.

Lemma decodePairs_needsBlinding (kps : list KeyPair.t) :
  forall o o' : PsetOutput,
  decodePairs kps o = Ok o' ->
  truthy (needsBlinding o')
  = truthy (needsBlinding o) || existsb (addresses FBlindingPubkey) kps.
Proof.
  induction kps as [|kp kps IH]; intros o o' H.
  - cbn in H. injection H as <-. cbn [existsb]. now rewrite orb_false_r.
  - cbn [decodePairs] in H.
    destruct (dispatch kp o) as [o1|] eqn:E; [|discriminate H]. cbn [bind] in H.
    rewrite (IH o1 o' H). cbn [existsb]. rewrite orb_assoc. f_equal.
    pose proof (dispatch_occupied_after FBlindingPubkey kp o o1 E) as Ho.
    cbn [occupied carriesValue] in Ho. unfold needsBlinding. rewrite Ho.
    destruct (addresses FBlindingPubkey kp) eqn:Ea; [|reflexivity].
    apply addresses_iff in Ea.
    rewrite (dispatch_accepted_length FBlindingPubkey 33 kp o o1 Ea eq_refl E).
    reflexivity.
Qed.

(** X16: a decoded record needs blinding exactly when the stream holds a
    blinding-pubkey pair. *)
Theorem fromBuffer_needsBlinding (r r' : BufferReader) (kps : list KeyPair.t)
    (res : PsetOutput) :
  readsPairs r kps r' -> KeyPair.fromBuffer r' = Throw ErrEmptyKey ->
  fromBuffer r = Ok res ->
  truthy (needsBlinding res) = existsb (addresses FBlindingPubkey) kps.
Proof.
  intros Hr Ht H. destruct (reads_decoded r r' kps res Hr Ht H) as [Hd _].
  rewrite (decodePairs_needsBlinding kps _ _ Hd). reflexivity.
Qed.

Lemma isTaproot_split (isP2TR : Buffer -> bool) (o : PsetOutput) :
  isTaproot isP2TR o
  = isTaproot (fun _ => false) o
    || match script o with Some s => isP2TR s | None => false end.
Proof.
  unfold isTaproot. destruct (script o); now rewrite !orb_false_r.
Qed.

Lemma nonempty_snoc {A} (l : list A) (a : A) :
  negb (Nat.eqb (length (l ++ [a])) 0) = true.
Proof. rewrite length_app, Nat.add_comm. reflexivity. Qed.

Lemma dispatch_isTaproot (kp : KeyPair.t) (o o' : PsetOutput) :
  dispatch kp o = Ok o' ->
  tapBip32Derivation o <> Some [] ->
  isTaproot (fun _ => false) o'
  = isTaproot (fun _ => false) o || isTaprootPair kp.
Proof.
  unfold dispatch, dispatchProprietary. cbv zeta.
  walk.
  all: intros Hd; injection Hd as <-; intros Hne.
  all: unfold isTaproot, isTaprootPair; cbv zeta; unfold_setters; known_codes.
  all: cbn [isSome]; rewrite ?nonempty_snoc, ?orb_false_r, ?orb_true_r;
    try reflexivity.
  all: destruct (script o); rewrite ?orb_false_r, ?orb_true_r; reflexivity.
Qed.

Lemma decodePairs_isTaproot (kps : list KeyPair.t) :
  forall o o' : PsetOutput,
  DecodedLists o ->
  decodePairs kps o = Ok o' ->
  isTaproot (fun _ => false) o'
  = isTaproot (fun _ => false) o || existsb isTaprootPair kps.
Proof.
  induction kps as [|kp kps IH]; intros o o' Hl H.
  - cbn in H. injection H as <-. cbn [existsb]. now rewrite orb_false_r.
  - cbn [decodePairs] in H.
    destruct (dispatch kp o) as [o1|] eqn:E; [|discriminate H]. cbn [bind] in H.
    rewrite (IH o1 o' (dispatch_DecodedLists kp o o1 Hl E) H).
    rewrite (dispatch_isTaproot kp o o1 E (dec_tapBip32_set o Hl)).
    cbn [existsb]. now rewrite orb_assoc.
Qed.

(** X17: a decoded record is taproot exactly when the stream holds a
    taproot pair (internal key, tree or taproot derivation) or the script
    test holds of its script. *)
Theorem fromBuffer_isTaproot (isP2TR : Buffer -> bool) (r r' : BufferReader)
    (kps : list KeyPair.t) (res : PsetOutput) :
  readsPairs r kps r' -> KeyPair.fromBuffer r' = Throw ErrEmptyKey ->
  fromBuffer r = Ok res ->
  isTaproot isP2TR res
  = existsb isTaprootPair kps
    || match script res with Some s => isP2TR s | None => false end.
Proof.
  intros Hr Ht H. destruct (reads_decoded r r' kps res Hr Ht H) as [Hd _].
  rewrite isTaproot_split.
  rewrite (decodePairs_isTaproot kps _ _ DecodedLists_new Hd). reflexivity.
Qed.

(** X18: a decoded record is either unblinded (none of the five blinding
    fields present) or fully blinded (all five present) with a blinder index
    that is unset or 0. *)
Theorem fromBuffer_blinding_state (r : BufferReader) (res : PsetOutput) :
  fromBuffer r = Ok res ->
  anyBlindingFieldSet res = false
  \/ (allBlindingFieldsSet res = true
      /\ (blinderIndex res = None \/ blinderIndex res = Some 0)).
Proof.
  intros H.
  destruct (fromBuffer_decodePairs r res H) as (kps & Hd).
  pose proof (decodePairs_invariant Decoded dispatch_Decoded kps _ _
                Decoded_new Hd) as [_ Hbi _ _ _ _ _ _ _].
  unfold fromBuffer in H. apply run_Ok in H.
  destruct (fromBufferLoop_Ok_inv _ _ _ _ H) as (_ & _ & _ & _ & _ & Hs).
  destruct (sanityCheck_Ok_inv res res Hs) as (_ & _ & _ & _ & Hany & Hall).
  destruct (anyBlindingFieldSet res); [right|left; reflexivity].
  specialize (Hany eq_refl). split; [exact Hany|].
  specialize (Hall Hany).
  destruct (blinderIndex res) as [n|]; [right|left; reflexivity].
  specialize (Hbi n eq_refl). cbn [greaterThanZero] in Hall.
  apply Z.ltb_ge in Hall. f_equal. lia.
Qed.

(** X19: a freshly constructed record passes the invariant check exactly
    when it is given a non-empty asset, whatever its value and script;
    otherwise the check reports the missing asset. *)
Theorem sanityCheck_newPsetOutput (value' : option Z) (asset' script' : option Buffer) :
  sanityCheck (newPsetOutput value' asset' script' : PsetOutput)
  = if present asset' then Ok (newPsetOutput value' asset' script')
    else Throw (Error "Missing output asset").
Proof.
  rewrite sanityCheck_unfold.
  unfold valuePairingThrows, assetPairingThrows, anyBlindingFieldSet,
    allBlindingFieldsSet.
  cbn [newPsetOutput valueCommitment blindValueProof assetCommitment asset
    blindAssetProof valueRangeproof assetSurjectionProof ecdhPubkey blinderIndex
    value isSet strictNotEqual present andb orb negb greaterThanZero].
  rewrite andb_false_r.
  destruct asset' as [[|b l]|]; reflexivity.
Qed.
(** ** What the encoder distinguishes *)

Lemma pushIfSet_dropEmpty (key : Key.t) (buf : option Buffer) :
  pushIfSet key (dropEmpty buf) = pushIfSet key buf.
Proof. destruct buf as [[|b l]|]; reflexivity. Qed.

Lemma orEmpty_dropEmpty {A} (l : option (list A)) : orEmpty (dropEmpty l) = orEmpty l.
Proof. destruct l as [[|a l]|]; reflexivity. Qed.

Lemma pushIfSet_default (key : Key.t) (buf : option Buffer) :
  pushIfSet key (Some (match buf with Some a => a | None => [] end))
  = pushIfSet key buf.
Proof. destruct buf as [[|b l]|]; reflexivity. Qed.

Lemma blinderIndex_canonical (bi : option Z) :
  (if greaterThanZero
        (Some (if greaterThanZero bi
               then match bi with Some n => n | None => 0 end else 0))
   then (if greaterThanZero bi
         then match bi with Some n => n | None => 0 end else 0)
   else 0)
  = (if greaterThanZero bi then match bi with Some n => n | None => 0 end else 0).
Proof.
  destruct bi as [n|]; cbn [greaterThanZero]; [|reflexivity].
  destruct (0 <? n) eqn:E; [rewrite E|]; reflexivity.
Qed.

Lemma encodeProprietaryPair_underMagicPrefix (l : option (list ProprietaryData.t)) :
  map encodeProprietaryPair (orEmpty (option_map (map underMagicPrefix) l))
  = map encodeProprietaryPair (orEmpty l).
Proof.
  destruct l as [l|]; [|reflexivity]. cbn [option_map orEmpty].
  rewrite map_map. apply map_ext. reflexivity.
Qed.

Lemma getKeyPairs_canonical (R : PsetOutput) :
  getKeyPairs (canonical R) = getKeyPairs R.
Proof.
  unfold getKeyPairs. cbv zeta. unfold canonical. unfold_setters.
  rewrite !pushIfSet_dropEmpty, !orEmpty_dropEmpty, pushIfSet_default,
    blinderIndex_canonical, encodeProprietaryPair_underMagicPrefix.
  reflexivity.
Qed.

(** X20: the encoder does not tell a record from its canonical form: a
    byte string or list that is defined and empty is encoded as one that is
    unset, an unset script as the empty script, a blinder index that is
    unset or not positive as 0, an unset asset as the empty asset; unknown
    pairs and the identifier of proprietary entries are not encoded. *)
Theorem toBuffer_canonical (R : PsetOutput) :
  getKeyPairs (canonical R) = getKeyPairs R
  /\ toBuffer (canonical R) = toBuffer R.
Proof.
  split; [apply getKeyPairs_canonical|].
  unfold toBuffer. now rewrite getKeyPairs_canonical.
Qed.

Lemma normalize_canonical (R : PsetOutput) : normalize (canonical R) = canonical R.
Proof. reflexivity. Qed.

(** X21: decoding the bytes of any record whose canonical form is
    well-formed, followed by the empty key, runs the invariant check on the
    canonical form and returns it: what comes back is the canonical form,
    or the error the check raises on it. *)
Theorem fromBuffer_toBuffer_canonical (R : PsetOutput) (buf rest : Buffer) :
  wellFormed (canonical R) ->
  toBuffer R = Ok buf ->
  fromBuffer (buf ++ x00 :: rest) = sanityCheck (canonical R).
Proof.
  intros Hwf Hb. unfold toBuffer in Hb.
  rewrite <- getKeyPairs_canonical in Hb.
  destruct (getKeyPairs (canonical R)) as [kps|] eqn:Ek; cbn [bind] in Hb;
    [|discriminate Hb].
  destruct (mapM KeyPair.toBuffer kps) as [bufs|] eqn:Em;
    cbn [bind] in Hb; [|discriminate Hb].
  injection Hb as <-.
  rewrite (fromBuffer_reads _ (x00 :: rest) kps
             (readsPairs_wire kps bufs (x00 :: rest) Em)
             (KeyPair_fromBuffer_terminator rest)).
  rewrite (decodePairs_getKeyPairs (canonical R) kps Hwf Ek).
  rewrite normalize_canonical. reflexivity.
Qed.
(** ** The pairs the encoder writes *)

Lemma fieldOf_proprietaryKeyOf (subType : byte) (value : Buffer) :
  fieldOf (KeyPair.mk (proprietaryKeyOf subType) value) = proprietaryField subType.
Proof.
  unfold fieldOf, proprietaryKeyOf. cbv zeta.
  cbn [KeyPair.key Key.keyType]. eval_codes.
  rewrite fromKeyPair_proprietaryKey. cbn [ProprietaryData.identifier
    ProprietaryData.subType].
  replace (buffer_eqb magicPrefix magicPrefix) with true
    by (symmetry; now apply buffer_eqb_eq).
  reflexivity.
Qed.

Lemma fieldOf_encodeProprietaryPair (data : ProprietaryData.t) :
  fieldOf (encodeProprietaryPair data)
  = proprietaryField (ProprietaryData.subType data).
Proof.
  unfold fieldOf, encodeProprietaryPair. cbv zeta.
  cbn [KeyPair.key Key.keyType]. eval_codes.
  rewrite fromKeyPair_proprietaryKey. cbn [ProprietaryData.identifier
    ProprietaryData.subType].
  replace (buffer_eqb magicPrefix magicPrefix) with true
    by (symmetry; now apply buffer_eqb_eq).
  reflexivity.
Qed.

Lemma count_pushIfSet (p : KeyPair.t -> bool) (key : Key.t) (buf : option Buffer) :
  length (filter p (pushIfSet key buf))
  = if present buf
       && p (KeyPair.mk key (match buf with Some b => b | None => [] end))
    then 1%nat else 0%nat.
Proof.
  destruct buf as [[|b l]|]; try reflexivity.
  change (pushIfSet key (Some (b :: l))) with [KeyPair.mk key (b :: l)].
  cbn [filter present andb]. destruct (p _); reflexivity.
Qed.

Lemma filter_cons_app {A} (p : A -> bool) (x : A) (l : list A) :
  filter p (x :: l) = (if p x then [x] else []) ++ filter p l.
Proof. cbn [filter]. destruct (p x); reflexivity. Qed.

Lemma length_if_singleton {A} (b : bool) (x : A) :
  length (if b then [x] else []) = if b then 1%nat else 0%nat.
Proof. destruct b; reflexivity. Qed.

Lemma filter_map_none {A} (p : KeyPair.t -> bool) (g : A -> KeyPair.t) (l : list A) :
  Forall (fun a => p (g a) = false) l -> filter p (map g l) = [].
Proof.
  induction 1 as [|a l Ha _ IH]; [reflexivity|].
  cbn [map filter]. now rewrite Ha.
Qed.

Lemma filter_encodeTapBip32Pair (f : NamedField) (l : list TapBip32Derivation) :
  forall kps, mapM encodeTapBip32Pair l = Ok kps -> filter (addresses f) kps = [].
Proof.
  induction l as [|d l IH]; intros kps H; cbn [mapM] in H.
  - injection H as <-. reflexivity.
  - unfold encodeTapBip32Pair in H at 1.
    destruct (varuint.encode _) as [n|]; [|discriminate H]. cbn [bind] in H.
    destruct (mapM encodeTapBip32Pair l) as [rest|]; [|discriminate H].
    cbn [bind] in H. injection H as <-.
    cbn [filter]. rewrite (IH rest eq_refl). reflexivity.
Qed.

Lemma count_encodeTapTree (f : NamedField) (t : option TapTree) (kps : list KeyPair.t) :
  encodeTapTree t = Ok kps ->
  length (filter (addresses f) kps)
  = if isSome t && (if NamedField_eq_dec FTapTree f then true else false)
    then 1%nat else 0%nat.
Proof.
  destruct t as [tree|]; cbn [encodeTapTree isSome andb].
  - destruct (mapM encodeTapLeaf (leaves tree)); [|discriminate].
    cbn [bind]. intros H. injection H as <-.
    cbn [filter]. unfold addresses at 1.
    change (fieldOf _) with (Some FTapTree). cbv beta iota.
    destruct (NamedField_eq_dec FTapTree f); reflexivity.
  - intros H. injection H as <-. reflexivity.
Qed.

Ltac eval_addresses :=
  repeat match goal with
  | |- context [addresses ?f (KeyPair.mk (proprietaryKeyOf ?st) ?v)] =>
    let r := eval vm_compute in
      (match proprietaryField st with
       | Some g => if NamedField_eq_dec g f then true else false
       | None => false
       end) in
    replace (addresses f (KeyPair.mk (proprietaryKeyOf st) v)) with r
      by (unfold addresses; rewrite fieldOf_proprietaryKeyOf; reflexivity)
  | |- context [addresses ?f (KeyPair.mk (Key.new ?kt) ?v)] =>
    let r := eval vm_compute in
      (addresses f (KeyPair.mk (Key.new kt) [])) in
    change (addresses f (KeyPair.mk (Key.new kt) v)) with r
  end.

(** X22: the encoder writes one pair for each named field it finds set --
    the amount, the script and the blinder index always, the taproot tree
    when defined, a byte string when it holds at least one byte -- and no
    other pair that addresses a named field, as long as no proprietary
    entry carries the sub-type of a named field. *)
Theorem getKeyPairs_named_fields (f : NamedField) (R : PsetOutput)
    (kps : list KeyPair.t) :
  Forall (fun data => proprietaryField (ProprietaryData.subType data) = None)
         (orEmpty (proprietaryData R)) ->
  getKeyPairs R = Ok kps ->
  length (filter (addresses f) kps) = if emits f R then 1%nat else 0%nat.
Proof.
  intros Hp Hk. unfold getKeyPairs in Hk. cbv zeta in Hk.
  destruct (mapM encodeTapBip32Pair _) as [taps|] eqn:Et; [|discriminate Hk].
  cbn [bind] in Hk.
  destruct (encodeTapTree _) as [tree|] eqn:Etree; [|discriminate Hk].
  cbn [bind] in Hk.
  destruct (writeUInt64LE _) as [amount|]; [|discriminate Hk]. cbn [bind] in Hk.
  destruct (writeUInt32LE _) as [bi|]; [|discriminate Hk]. cbn [bind] in Hk.
  injection Hk as <-.
  repeat (rewrite filter_cons_app || rewrite filter_app).
  rewrite !length_app, !count_pushIfSet, !length_if_singleton.
  rewrite (filter_encodeTapBip32Pair f _ taps Et).
  rewrite (count_encodeTapTree f _ tree Etree).
  rewrite (filter_map_none (addresses f) encodeBip32Pair)
    by (apply Forall_forall; intros d _; reflexivity).
  rewrite (filter_map_none (addresses f) encodeProprietaryPair)
    by (eapply Forall_impl; [|exact Hp]; intros d Hd;
        unfold addresses; rewrite fieldOf_encodeProprietaryPair, Hd; reflexivity).
  cbn [length].
  destruct f; eval_addresses; cbn [emits];
    rewrite ?andb_false_r, ?andb_true_r; cbn [length Nat.add];
    repeat match goal with
    | |- context [if NamedField_eq_dec ?a ?b then _ else _] =>
      let r := eval vm_compute in (if NamedField_eq_dec a b then true else false) in
      change (if NamedField_eq_dec a b then true else false) with r
    end;
    rewrite ?andb_false_r, ?andb_true_r; cbn [length Nat.add];
    rewrite ?Nat.add_0_r; reflexivity.
Qed.

(** X23: decoding stops at the first empty key: after a sequence of
    serialised pairs and the empty key, the bytes that follow have no
    influence on the result, which is that of the pairs alone. *)
Theorem fromBuffer_stops_at_terminator (kps : list KeyPair.t) (bufs : list Buffer)
    (rest : Buffer) :
  mapM KeyPair.toBuffer kps = Ok bufs ->
  fromBuffer (concat bufs ++ x00 :: rest)
  = (o <- decodePairs kps (newPsetOutput None None None : PsetOutput) ;;
     sanityCheck o).
Proof.
  intros Hm.
  exact (fromBuffer_reads _ (x00 :: rest) kps
           (readsPairs_wire kps bufs (x00 :: rest) Hm)
           (KeyPair_fromBuffer_terminator rest)).
Qed.

End Properties.

(** ** Concrete records and streams *)

(** Counterexample to C1 as stated: the constructor-built record passes the
    invariant check, yet the bytes of [toBuffer] alone do not decode (no
    empty key closes them), and once closed they decode to a record whose
    script is empty and whose blinder index is 0, where both were unset. *)
Lemma C1_counterexample :
  sanityCheck plainOutput = Ok plainOutput
  /\ script plainOutput = None
  /\ blinderIndex plainOutput = None
  /\ exists buf decoded,
       toBuffer plainOutput = Ok buf
       /\ fromBuffer buf = Throw RangeError
       /\ fromBuffer (buf ++ [x00]) = Ok decoded
       /\ script decoded = Some []
       /\ blinderIndex decoded = Some 0
       /\ decoded <> plainOutput.
Proof.
  split; [reflexivity|]. split; [reflexivity|]. split; [reflexivity|].
  eexists. eexists.
  split; [vm_compute; reflexivity|].
  split; [vm_compute; reflexivity|].
  split; [vm_compute; reflexivity|].
  split; [reflexivity|]. split; [reflexivity|].
  intros H. apply (f_equal script) in H. discriminate H.
Qed.

Lemma wellFormed_richOutput : wellFormed richOutput.
Proof.
  constructor; cbn [richOutput redeemScript witnessScript bip32Derivation
    tapBip32Derivation tapInternalKey valueCommitment asset assetCommitment
    valueRangeproof assetSurjectionProof blindingPubkey ecdhPubkey blinderIndex
    blindValueProof blindAssetProof proprietaryData unknowns orEmpty];
    unfold sized; try discriminate; try reflexivity.
  - repeat constructor.
  - cbn [map pubkey]. repeat constructor; cbn [In]; intuition discriminate.
  - repeat constructor. vm_compute. discriminate.
  - cbn [map tapPubkey]. repeat constructor; cbn [In]; intuition discriminate.
  - intros b H. injection H as <-. reflexivity.
  - right. eexists. split; reflexivity.
  - intros b H. injection H as <-. reflexivity.
  - intros n H. injection H as <-. lia.
  - repeat constructor.
Defined.

Lemma C1_round_trip_witness :
  wellFormed richOutput
  /\ sanityCheck richOutput = Ok richOutput
  /\ exists buf,
       toBuffer richOutput = Ok buf
       /\ fromBuffer (buf ++ [x00]) = Ok (normalize richOutput)
       /\ fromBuffer (buf ++ [x00]) = Ok richOutput.
Proof.
  split; [exact wellFormed_richOutput|].
  split; [vm_compute; reflexivity|].
  eexists. split; [vm_compute; reflexivity|].
  match goal with
  | |- fromBuffer (?buf ++ _) = _ /\ _ =>
    pose proof (C1_round_trip richOutput buf [] wellFormed_richOutput
                  ltac:(vm_compute; reflexivity) ltac:(vm_compute; reflexivity))
      as [H1 H2]
  end.
  split; [exact H1|]. apply H2; discriminate.
Defined.

(** Counterexample to C2 as stated: two AMOUNT pairs, the first of which
    encodes zero, decode without error and the amount of the second pair
    replaces the first; likewise two REDEEM_SCRIPT pairs when the first
    script is empty. *)
Lemma C2_counterexample :
  fieldOf (amountPair 0) = Some FAmount
  /\ fieldOf (amountPair 5) = Some FAmount
  /\ fieldOf (redeemScriptPair []) = Some FRedeemScript
  /\ fieldOf (redeemScriptPair [x51]) = Some FRedeemScript
  /\ (exists stream decoded,
        encodePairs [amountPair 0; amountPair 5; assetPair] = Ok stream
        /\ readsPairs stream [amountPair 0; amountPair 5; assetPair] [x00]
        /\ fromBuffer stream = Ok decoded
        /\ value decoded = 5)
  /\ (exists stream decoded,
        encodePairs [redeemScriptPair []; redeemScriptPair [x51]; assetPair]
        = Ok stream
        /\ fromBuffer stream = Ok decoded
        /\ redeemScript decoded = Some [x51]).
Proof.
  do 4 (split; [vm_compute; reflexivity|]). split.
  - eexists. eexists.
    split; [vm_compute; reflexivity|].
    split; [apply readsPairs_encodePairs; vm_compute; reflexivity|].
    split; [vm_compute; reflexivity|]. reflexivity.
  - eexists. eexists.
    split; [vm_compute; reflexivity|].
    split; [vm_compute; reflexivity|]. reflexivity.
Qed.

Lemma C2_duplicate_named_field_witness :
  fieldOf (amountPair 7) = Some FAmount
  /\ fieldOf (amountPair 5) = Some FAmount
  /\ carriesValue FAmount (amountPair 7) = true
  /\ exists stream,
       encodePairs [amountPair 7; assetPair; amountPair 5] = Ok stream
       /\ fromBuffer stream = Throw (OutputDuplicateFieldError "value").
Proof.
  split; [vm_compute; reflexivity|].
  split; [vm_compute; reflexivity|].
  split; [vm_compute; reflexivity|].
  eexists. split; [vm_compute; reflexivity|].
  eapply (proj2 (C2_duplicate_named_field FAmount (amountPair 7) (amountPair 5)
                   [] [assetPair] _ [x00]
                   ltac:(vm_compute; reflexivity) ltac:(vm_compute; reflexivity)
                   ltac:(vm_compute; reflexivity)
                   ltac:(apply readsPairs_encodePairs; vm_compute; reflexivity))).
  vm_compute. reflexivity.
Defined.

(** C3: the decoder drops a PROPRIETARY pair whose identifier is not the
    registered prefix, where the specification has it appended to
    [proprietaryData]: the pair parses, the decoder switch returns the
    record unchanged, and the record decoded from a stream that carries the
    pair holds it neither in [proprietaryData] nor in [unknowns]. *)
Theorem C3_foreign_identifier_discarded :
  Key.keyType (KeyPair.key foreignPair) = OutputTypes.PROPRIETARY
  /\ ProprietaryData.fromKeyPair foreignPair
     = Ok (ProprietaryData.mk [x61; x62; x63; x64] x01 [] [x2a])
  /\ (forall o : PsetOutput (list Z), dispatch foreignPair o = Ok o)
  /\ exists stream decoded,
       encodePairs [assetPair; foreignPair] = Ok stream
       /\ readsPairs stream [assetPair; foreignPair] [x00]
       /\ fromBuffer stream = Ok decoded
       /\ proprietaryData decoded = None
       /\ unknowns decoded = None.
Proof.
  split; [reflexivity|]. split; [vm_compute; reflexivity|]. split.
  - intros o.
    apply (dispatch_foreign_identifier foreignPair
             (ProprietaryData.mk [x61; x62; x63; x64] x01 [] [x2a]) o);
      [reflexivity|vm_compute; reflexivity|discriminate].
  - eexists. eexists.
    split; [vm_compute; reflexivity|].
    split; [apply readsPairs_encodePairs; vm_compute; reflexivity|].
    split; [vm_compute; reflexivity|]. split; reflexivity.
Qed.

(** C4: the encoder does not emit the unknown pairs, where the
    specification has them at the end of the sequence: a stream with one pair of an
    unregistered type decodes to a record that holds the pair in
    [unknowns], and the pairs the encoder produces for that record do not
    contain it; they are the pairs of the same record without unknowns. *)
Theorem C4_unknowns_not_encoded :
  exists stream decoded kps,
    encodePairs [assetPair; unknownPair] = Ok stream
    /\ fromBuffer stream = Ok decoded
    /\ unknowns decoded = Some [unknownPair]
    /\ getKeyPairs decoded = Ok kps
    /\ ~ In unknownPair kps
    /\ getKeyPairs (set_unknowns None decoded) = Ok kps.
Proof.
  eexists. eexists. eexists.
  split; [vm_compute; reflexivity|].
  split; [vm_compute; reflexivity|].
  split; [reflexivity|].
  split; [vm_compute; reflexivity|].
  split; [|vm_compute; reflexivity].
  cbn [In]. intros H.
  repeat match goal with
  | H : _ \/ _ |- _ => destruct H as [H|H]
  end; try discriminate H. exact H.
Qed.

(** C5: with a value above zero, no value commitment and a blind value
    proof that is defined but empty, neither field holds a byte, so the
    value pairing of the specification is satisfied; the invariant check
    throws, on the record and at the end of decoding a stream that
    carries an empty BLIND_VALUE_PROOF. *)
Theorem C5_value_pairing_undefined_versus_empty :
  0 < value emptyProofOutput
  /\ present (valueCommitment emptyProofOutput) = false
  /\ present (blindValueProof emptyProofOutput) = false
  /\ sanityCheck emptyProofOutput
     = Throw (Error "Missing output value commitment or blind proof")
  /\ exists stream,
       encodePairs [amountPair 1; assetPair; blindValueProofPair []] = Ok stream
       /\ decodePairs [amountPair 1; assetPair; blindValueProofPair []]
            (newPsetOutput None None None)
          = Ok emptyProofOutput
       /\ fromBuffer stream
          = Throw (Error "Missing output value commitment or blind proof").
Proof.
  split; [reflexivity|]. split; [reflexivity|]. split; [reflexivity|].
  split; [vm_compute; reflexivity|].
  eexists. split; [vm_compute; reflexivity|].
  split; vm_compute; reflexivity.
Qed.

(** C6: with a non-empty asset, no asset commitment and a blind asset
    proof that is defined but empty, neither of the two holds a byte, so the
    asset pairing of the specification is satisfied; the invariant check
    throws the asset pairing error, on the record and at the end of decoding
    a stream that carries an empty BLIND_ASSET_PROOF.  Besides, on a record
    with neither asset nor asset commitment whose value pairing is violated
    too, the error raised is that of the value pairing, tested first, and
    not the missing-asset error. *)
Theorem C6_asset_pairing_undefined_versus_empty :
  (present (asset emptyAssetProofOutput) = true
   /\ present (assetCommitment emptyAssetProofOutput) = false
   /\ present (blindAssetProof emptyAssetProofOutput) = false
   /\ valuePairingThrows emptyAssetProofOutput = false
   /\ sanityCheck emptyAssetProofOutput
      = Throw (Error "Missing output asset commitment or blind proof")
   /\ exists stream,
        encodePairs [assetPair; blindAssetProofPair []] = Ok stream
        /\ decodePairs [assetPair; blindAssetProofPair []]
             (newPsetOutput None None None)
           = Ok emptyAssetProofOutput
        /\ fromBuffer stream
           = Throw (Error "Missing output asset commitment or blind proof"))
  /\ (present (asset valueCommitmentOnlyOutput) = false
      /\ present (assetCommitment valueCommitmentOnlyOutput) = false
      /\ sanityCheck valueCommitmentOnlyOutput
         = Throw (Error "Missing output value commitment or blind proof")).
Proof.
  split.
  - split; [reflexivity|]. split; [reflexivity|]. split; [reflexivity|].
    split; [reflexivity|]. split; [vm_compute; reflexivity|].
    eexists. split; [vm_compute; reflexivity|].
    split; vm_compute; reflexivity.
  - split; [reflexivity|]. split; [reflexivity|]. vm_compute. reflexivity.
Qed.

Lemma C7_partially_blinded_rejected_witness :
  anyBlindingFieldSet onlyEcdhOutput = true
  /\ allBlindingFieldsSet onlyEcdhOutput = false
  /\ present (ecdhPubkey onlyEcdhOutput) = true
  /\ (exists msg, sanityCheck onlyEcdhOutput = Throw (Error msg))
  /\ exists stream,
       encodePairs [assetPair; ecdhPubkeyPair] = Ok stream
       /\ exists msg, fromBuffer stream = Throw (Error msg).
Proof.
  split; [reflexivity|]. split; [reflexivity|]. split; [reflexivity|].
  destruct (C7_partially_blinded_rejected onlyEcdhOutput eq_refl eq_refl)
    as [Hcheck Hdecode].
  split; [exact Hcheck|].
  eexists. split; [vm_compute; reflexivity|].
  apply (Hdecode _ [x00] [assetPair; ecdhPubkeyPair]).
  - apply readsPairs_encodePairs. vm_compute. reflexivity.
  - apply KeyPair_fromBuffer_terminator.
  - vm_compute. reflexivity.
Defined.

Lemma C8_fully_blinded_blinder_index_witness :
  allBlindingFieldsSet (fullyBlindedOutput (Some 5) : PsetOutput (list Z)) = true
  /\ exists msg, sanityCheck (fullyBlindedOutput (Some 5) : PsetOutput (list Z))
                 = Throw (Error msg).
Proof.
  split; [reflexivity|].
  apply (C8_fully_blinded_blinder_index (fullyBlindedOutput (Some 5)));
    reflexivity.
Defined.

(** Counterexample to C9 as stated: the leaf declares five script bytes and
    two remain; the taproot tree decodes, with a script of two bytes, and so
    does a stream that carries it. *)
Lemma C9_counterexample :
  varuint.decode truncatedTapTree 2 = Ok (5, 1)
  /\ len truncatedTapTree - 3 = 2
  /\ decodeTapTree truncatedTapTree = Ok [mkTapLeaf x01 xc0 [xaa; xbb]]
  /\ exists stream (decoded : PsetOutput (list Z)),
       encodePairs [assetPair; tapTreePair truncatedTapTree] = Ok stream
       /\ fromBuffer stream = Ok decoded
       /\ tapTree decoded = Some (mkTapTree [mkTapLeaf x01 xc0 [xaa; xbb]]).
Proof.
  split; [vm_compute; reflexivity|]. split; [reflexivity|].
  split; [vm_compute; reflexivity|].
  eexists. eexists.
  split; [vm_compute; reflexivity|].
  split; [vm_compute; reflexivity|]. reflexivity.
Qed.

Lemma C9_taproot_tree_truncation_witness :
  exists bufs,
    mapM encodeTapLeaf exampleLeaves = Ok bufs
    /\ decodeTapTree (concat bufs) = Ok exampleLeaves
    /\ decodeTapTree (concat bufs ++ [x02; xc0] ++ [x05] ++ [xaa; xbb])
       = Ok (exampleLeaves ++ [mkTapLeaf x02 xc0 [xaa; xbb]])
    /\ decodeTapTree (concat bufs ++ [x02; xc0]) = Throw RangeError.
Proof.
  eexists. split; [vm_compute; reflexivity|].
  match goal with
  | |- decodeTapTree (concat ?bufs) = _ /\ _ =>
    pose proof (C9_taproot_tree_truncation exampleLeaves bufs
                  ltac:(vm_compute; reflexivity)) as (H1 & H2 & _ & H3)
  end.
  split; [exact H1|]. split.
  - apply (H2 x02 xc0 5 [x05] [xaa; xbb]); reflexivity.
  - apply H3. split; reflexivity.
Defined.

Lemma C10_blinder_index_duplicate_witness :
  fieldOf (blinderIndexPair 0) = Some FBlinderIndex
  /\ len (KeyPair.value (blinderIndexPair 0)) = 4
  /\ fieldOf (blinderIndexPair 7) = Some FBlinderIndex
  /\ len (KeyPair.value (blinderIndexPair 7)) = 4
  /\ exists stream,
       encodePairs [blinderIndexPair 0; blinderIndexPair 7] = Ok stream
       /\ fromBuffer stream = Throw (OutputDuplicateFieldError "blinder index").
Proof.
  split; [vm_compute; reflexivity|]. split; [reflexivity|].
  split; [vm_compute; reflexivity|]. split; [reflexivity|].
  eexists. split; [vm_compute; reflexivity|].
  apply (proj2 (proj2 (C10_blinder_index_duplicate (blinderIndexPair 0)
                         (blinderIndexPair 7) [] [] _ [x00]
                         ltac:(vm_compute; reflexivity) eq_refl
                         ltac:(vm_compute; reflexivity) eq_refl
                         ltac:(apply readsPairs_encodePairs; vm_compute; reflexivity))));
    reflexivity.
Defined.

(** ** The properties at concrete records and streams *)

Lemma fromBuffer_validated_witness :
  fromBuffer (streamOf examplePairs) = Ok (decoded (streamOf examplePairs))
  /\ sanityCheck (decoded (streamOf examplePairs))
     = Ok (decoded (streamOf examplePairs)).
Proof.
  split; [vm_compute; reflexivity|].
  apply (fromBuffer_validated (streamOf examplePairs)).
  vm_compute. reflexivity.
Defined.

Lemma toBuffer_not_terminated_witness :
  exists buf,
    toBuffer plainOutput = Ok buf /\ exists e, fromBuffer (Path := list Z) buf = Throw e.
Proof.
  eexists. split; [vm_compute; reflexivity|].
  apply (toBuffer_not_terminated plainOutput). vm_compute. reflexivity.
Defined.

Lemma decodeTapTree_bytes_witness :
  decodeTapTree truncatedTapTree = Ok [mkTapLeaf x01 xc0 [xaa; xbb]]
  /\ fold_right Z.add 0
       (map (fun leaf => 3 + len (leafScript leaf)) [mkTapLeaf x01 xc0 [xaa; xbb]])
     <= len truncatedTapTree
  /\ 3 * Z.of_nat (length [mkTapLeaf x01 xc0 [xaa; xbb]]) <= len truncatedTapTree.
Proof.
  split; [vm_compute; reflexivity|].
  apply (decodeTapTree_bytes truncatedTapTree). vm_compute. reflexivity.
Defined.

Lemma fromBuffer_Decoded_witness :
  fromBuffer (streamOf examplePairs) = Ok (decoded (streamOf examplePairs))
  /\ Decoded (decoded (streamOf examplePairs)).
Proof.
  split; [vm_compute; reflexivity|].
  apply (fromBuffer_Decoded (streamOf examplePairs)). vm_compute. reflexivity.
Defined.

Lemma fromBuffer_DecodedLists_witness :
  fromBuffer (streamOf examplePairs) = Ok (decoded (streamOf examplePairs))
  /\ DecodedLists (decoded (streamOf examplePairs)).
Proof.
  split; [vm_compute; reflexivity|].
  apply (fromBuffer_DecodedLists (streamOf examplePairs)). vm_compute. reflexivity.
Defined.

Lemma getKeyPairs_of_decoded_witness :
  fromBuffer (streamOf examplePairs) = Ok (decoded (streamOf examplePairs))
  /\ value (decoded (streamOf examplePairs)) <= 18446744073709551615
  /\ exists keyPairs, getKeyPairs (decoded (streamOf examplePairs)) = Ok keyPairs.
Proof.
  split; [vm_compute; reflexivity|].
  split; [vm_compute; discriminate|].
  apply (getKeyPairs_of_decoded (streamOf examplePairs));
    [vm_compute; reflexivity|vm_compute; discriminate].
Defined.

Lemma wrong_length_rejected_witness :
  fieldOf shortAssetPair = Some FAsset
  /\ mandatedLength FAsset = Some 32
  /\ len (KeyPair.value shortAssetPair) <> 32
  /\ fromBuffer (Path := list Z) (streamOf [amountPair 5; shortAssetPair])
     = Throw (Error "Invalid output asset length").
Proof.
  split; [vm_compute; reflexivity|]. split; [reflexivity|].
  split; [discriminate|].
  apply (proj2 (wrong_length_rejected FAsset 32 shortAssetPair [amountPair 5]
                  (streamOf [amountPair 5; shortAssetPair]) [x00]
                  ltac:(vm_compute; reflexivity) eq_refl ltac:(discriminate)
                  ltac:(apply readsPairs_encodePairs; vm_compute; reflexivity))
          (set_value 5 (newPsetOutput None None None))).
  vm_compute. reflexivity.
Defined.

Lemma derivation_key_length_rejected_witness :
  Key.keyType (KeyPair.key (bip32Pair [x02; x03])) = derivationType false
  /\ len (Key.keyData (KeyPair.key (bip32Pair [x02; x03]))) <> 33
  /\ fromBuffer (Path := list Z) (streamOf [assetPair; bip32Pair [x02; x03]])
     = Throw (Error "Invalid output bip32 pubkey length").
Proof.
  split; [reflexivity|]. split; [discriminate|].
  apply (proj2 (proj2 (derivation_key_length_rejected false (bip32Pair [x02; x03])
                  [assetPair] (streamOf [assetPair; bip32Pair [x02; x03]]) [x00]
                  eq_refl ltac:(discriminate)
                  ltac:(apply readsPairs_encodePairs; vm_compute; reflexivity)))
          (set_asset (Some exampleAsset) (newPsetOutput None None None))).
  vm_compute. reflexivity.
Defined.

Lemma derivation_duplicate_rejected_witness :
  Key.keyType (KeyPair.key (bip32Pair (repeat x02 33))) = derivationType false
  /\ fromBuffer (Path := list Z)
       (streamOf [bip32Pair (repeat x02 33); assetPair; bip32Pair (repeat x02 33)])
     = Throw (OutputDuplicateFieldError "bip32 derivation").
Proof.
  split; [reflexivity|].
  eapply (proj2 (derivation_duplicate_rejected false (bip32Pair (repeat x02 33))
                   (bip32Pair (repeat x02 33)) [] [assetPair] _ [x00]
                   eq_refl eq_refl eq_refl
                   ltac:(apply readsPairs_encodePairs; vm_compute; reflexivity))).
  vm_compute. reflexivity.
Defined.

Lemma fromBuffer_unknowns_witness :
  readsPairs (streamOf examplePairs) examplePairs [x00]
  /\ fromBuffer (streamOf examplePairs) = Ok (decoded (streamOf examplePairs))
  /\ orEmpty (unknowns (decoded (streamOf examplePairs))) = [unknownPair].
Proof.
  assert (Hr : readsPairs (streamOf examplePairs) examplePairs [x00])
    by (apply readsPairs_encodePairs; vm_compute; reflexivity).
  split; [exact Hr|]. split; [vm_compute; reflexivity|].
  exact (fromBuffer_unknowns _ _ _ _ Hr (KeyPair_fromBuffer_terminator [])
           ltac:(vm_compute; reflexivity)).
Defined.

Lemma fromBuffer_proprietaryData_witness :
  readsPairs (streamOf examplePairs) examplePairs [x00]
  /\ fromBuffer (streamOf examplePairs) = Ok (decoded (streamOf examplePairs))
  /\ orEmpty (proprietaryData (decoded (streamOf examplePairs)))
     = [ProprietaryData.mk magicPrefix x7f [x01; x02] [x2a]].
Proof.
  assert (Hr : readsPairs (streamOf examplePairs) examplePairs [x00])
    by (apply readsPairs_encodePairs; vm_compute; reflexivity).
  split; [exact Hr|]. split; [vm_compute; reflexivity|].
  exact (fromBuffer_proprietaryData _ _ _ _ Hr (KeyPair_fromBuffer_terminator [])
           ltac:(vm_compute; reflexivity)).
Defined.

Lemma fromBuffer_occupied_witness :
  readsPairs (streamOf examplePairs) examplePairs [x00]
  /\ fromBuffer (streamOf examplePairs) = Ok (decoded (streamOf examplePairs))
  /\ occupied FAmount (decoded (streamOf examplePairs)) = true
  /\ occupied FRedeemScript (decoded (streamOf examplePairs)) = false.
Proof.
  assert (Hr : readsPairs (streamOf examplePairs) examplePairs [x00])
    by (apply readsPairs_encodePairs; vm_compute; reflexivity).
  split; [exact Hr|]. split; [vm_compute; reflexivity|]. split.
  - exact (fromBuffer_occupied FAmount _ _ _ _ Hr (KeyPair_fromBuffer_terminator [])
             ltac:(vm_compute; reflexivity)).
  - exact (fromBuffer_occupied FRedeemScript _ _ _ _ Hr
             (KeyPair_fromBuffer_terminator []) ltac:(vm_compute; reflexivity)).
Defined.

Lemma fromBuffer_asset_required_witness :
  readsPairs (streamOf examplePairs) examplePairs [x00]
  /\ fromBuffer (streamOf examplePairs) = Ok (decoded (streamOf examplePairs))
  /\ existsb (fun kp => (addresses FAsset kp || addresses FAssetCommitment kp)
                        && (0 <? len (KeyPair.value kp))) examplePairs = true.
Proof.
  assert (Hr : readsPairs (streamOf examplePairs) examplePairs [x00])
    by (apply readsPairs_encodePairs; vm_compute; reflexivity).
  split; [exact Hr|]. split; [vm_compute; reflexivity|].
  exact (fromBuffer_asset_required _ _ _ (decoded (streamOf examplePairs)) Hr
           (KeyPair_fromBuffer_terminator []) ltac:(vm_compute; reflexivity)).
Defined.

Lemma fromBuffer_needsBlinding_witness :
  readsPairs (streamOf examplePairs) examplePairs [x00]
  /\ fromBuffer (streamOf examplePairs) = Ok (decoded (streamOf examplePairs))
  /\ truthy (needsBlinding (decoded (streamOf examplePairs))) = true.
Proof.
  assert (Hr : readsPairs (streamOf examplePairs) examplePairs [x00])
    by (apply readsPairs_encodePairs; vm_compute; reflexivity).
  split; [exact Hr|]. split; [vm_compute; reflexivity|].
  exact (fromBuffer_needsBlinding _ _ _ _ Hr (KeyPair_fromBuffer_terminator [])
           ltac:(vm_compute; reflexivity)).
Defined.

Lemma fromBuffer_isTaproot_witness :
  readsPairs (streamOf examplePairs) examplePairs [x00]
  /\ fromBuffer (streamOf examplePairs) = Ok (decoded (streamOf examplePairs))
  /\ isTaproot (fun _ => false) (decoded (streamOf examplePairs)) = true.
Proof.
  assert (Hr : readsPairs (streamOf examplePairs) examplePairs [x00])
    by (apply readsPairs_encodePairs; vm_compute; reflexivity).
  split; [exact Hr|]. split; [vm_compute; reflexivity|].
  exact (fromBuffer_isTaproot (fun _ => false) _ _ _ _ Hr
           (KeyPair_fromBuffer_terminator []) ltac:(vm_compute; reflexivity)).
Defined.

Lemma fromBuffer_blinding_state_witness :
  fromBuffer (streamOf examplePairs) = Ok (decoded (streamOf examplePairs))
  /\ (anyBlindingFieldSet (decoded (streamOf examplePairs)) = false
      \/ (allBlindingFieldsSet (decoded (streamOf examplePairs)) = true
          /\ (blinderIndex (decoded (streamOf examplePairs)) = None
              \/ blinderIndex (decoded (streamOf examplePairs)) = Some 0))).
Proof.
  split; [vm_compute; reflexivity|].
  apply (fromBuffer_blinding_state (streamOf examplePairs)).
  vm_compute. reflexivity.
Defined.

Lemma wellFormed_canonical_looseOutput : wellFormed (canonical looseOutput).
Proof.
  constructor; cbn; unfold sized; try discriminate; try (constructor; fail).
  - right. eexists. split; reflexivity.
  - intros n H. injection H as <-. lia.
Defined.

Lemma fromBuffer_toBuffer_canonical_witness :
  wellFormed (canonical looseOutput)
  /\ canonical looseOutput <> looseOutput
  /\ (exists msg, sanityCheck looseOutput = Throw (Error msg))
  /\ exists buf,
       toBuffer looseOutput = Ok buf
       /\ fromBuffer (buf ++ [x00]) = Ok (canonical looseOutput).
Proof.
  split; [exact wellFormed_canonical_looseOutput|].
  split; [intros H; apply (f_equal unknowns) in H; discriminate H|].
  split; [eexists; vm_compute; reflexivity|].
  eexists. split; [vm_compute; reflexivity|].
  match goal with
  | |- fromBuffer (?buf ++ _) = _ =>
    rewrite (fromBuffer_toBuffer_canonical looseOutput buf []
               wellFormed_canonical_looseOutput ltac:(vm_compute; reflexivity))
  end.
  vm_compute. reflexivity.
Defined.

Lemma getKeyPairs_named_fields_witness :
  exists kps,
    getKeyPairs richOutput = Ok kps
    /\ length (filter (addresses FBlinderIndex) kps) = 1%nat
    /\ length (filter (addresses FValueCommitment) kps) = 0%nat.
Proof.
  eexists. split; [vm_compute; reflexivity|].
  split;
    match goal with
    | |- length (filter (addresses ?f) ?kps) = _ =>
      exact (getKeyPairs_named_fields f richOutput kps
               ltac:(repeat constructor) ltac:(vm_compute; reflexivity))
    end.
Defined.

Lemma fromBuffer_stops_at_terminator_witness :
  exists bufs,
    mapM KeyPair.toBuffer [amountPair 5; assetPair] = Ok bufs
    /\ fromBuffer (Path := list Z) (concat bufs ++ x00 :: [xff; xff])
       = fromBuffer (concat bufs ++ x00 :: []).
Proof.
  eexists. split; [vm_compute; reflexivity|].
  match goal with
  | |- fromBuffer (concat ?bufs ++ _) = _ =>
    rewrite (fromBuffer_stops_at_terminator [amountPair 5; assetPair] bufs
               [xff; xff] ltac:(vm_compute; reflexivity));
    rewrite (fromBuffer_stops_at_terminator [amountPair 5; assetPair] bufs
               [] ltac:(vm_compute; reflexivity))
  end.
  reflexivity.
Defined.
